(** * minivac: the calculator engine (tokeniser, parser, evaluator, compute engine)

    A shallow embedding of [src/engine/parser.js] (the second, exported
    version of the module) and of the compute engine that drives it
    ([ComputeEngine], second version, with the built-in callables). Of
    the first version of the module, which has no parser, the tokeniser
    is embedded too ([FirstVersion]).

    - JavaScript numbers are IEEE 754 binary64 values: Rocq's primitive
      [float], with [+ - * /], [<] and [===] as the primitive operations.
    - JavaScript strings are sequences of code units; the model keeps the
      code units below 256 ([string]).
    - Exceptions are the [Throw] outcome of [Result]; the symbol table is
      threaded explicitly, and a mutation made before a throw stays made.
    - Recursion that JavaScript bounds only by its call stack ([eval],
      [factorialise]) takes a depth budget; [OutOfFuel] says the budget was
      too small. The tokeniser and the parser take a budget too, computed
      from their input and proved to be enough.
    - The functions of [Math] whose results are implementation-approximated
      are fields of the class [Host]; every property holds for every
      host. *)

From Stdlib Require Import ZArith List String Ascii Bool Floats Lia PeanoNat.
Import ListNotations.

Local Open Scope string_scope.
Local Open Scope list_scope.

(** ** Outcomes *)

(** What a property read on [null] or [undefined] was applied to. *)
Inductive JSVoid : Type := JSnull | JSundefined.

(** A value that may be an object, [null] or [undefined]. *)
Inductive Maybe (A : Type) : Type :=
| Null
| Undefined
| Obj (a : A).
Arguments Null {A}.
Arguments Undefined {A}.
Arguments Obj {A} a.

(** ** Host strings *)

Module JSString.

Definition code (c : ascii) : nat := nat_of_ascii c.

Definition is_digit (c : ascii) : bool :=
  (48 <=? code c)%nat && (code c <=? 57)%nat.

Definition is_lower (c : ascii) : bool :=
  (97 <=? code c)%nat && (code c <=? 122)%nat.

(** White space and line terminators of [String.prototype.trim], among
    the code units below 256: TAB, LF, VT, FF, CR, SP and NBSP. *)
Definition is_space (c : ascii) : bool :=
  let n := code c in
  ((9 <=? n)%nat && (n <=? 13)%nat) || (n =? 32)%nat || (n =? 160)%nat.

(** The longest prefix whose characters satisfy [p], and the rest. *)
Fixpoint span (p : ascii -> bool) (s : string) : string * string :=
  match s with
  | EmptyString => (EmptyString, EmptyString)
  | String c r =>
      if p c then let (a, b) := span p r in (String c a, b)
      else (EmptyString, s)
  end.

Fixpoint all (p : ascii -> bool) (s : string) : bool :=
  match s with
  | EmptyString => true
  | String c r => p c && all p r
  end.

Fixpoint trimStart (s : string) : string :=
  match s with
  | EmptyString => EmptyString
  | String c r => if is_space c then trimStart r else s
  end.

Fixpoint trimEnd (s : string) : string :=
  match s with
  | EmptyString => EmptyString
  | String c r =>
      match trimEnd r with
      | EmptyString => if is_space c then EmptyString else String c EmptyString
      | r' => String c r'
      end
  end.

Definition trim (s : string) : string := trimEnd (trimStart s).

(** [s.indexOf(c) !== -1] for a one-character needle. *)
Fixpoint contains (c : ascii) (s : string) : bool :=
  match s with
  | EmptyString => false
  | String d r => Ascii.eqb c d || contains c r
  end.

(** [s.split(c)] for a one-character separator: every occurrence
    separates, and the result has at least one element. *)
Fixpoint split (c : ascii) (s : string) : list string :=
  match s with
  | EmptyString => [EmptyString]
  | String d r =>
      match split c r with
      | [] => [EmptyString]
      | u :: us =>
          if Ascii.eqb c d then EmptyString :: u :: us
          else String d u :: us
      end
  end.

(** [units[i]] of an array of strings: [undefined] past the end. *)
Definition item (units : list string) (i : nat) : Maybe string :=
  match nth_error units i with
  | Some u => Obj u
  | None => Undefined
  end.

(** [s.replace(pat, "")] for a string pattern: the first occurrence of
    [pat] is removed, and [s] is returned when there is none. *)
Fixpoint replace_first (pat s : string) : string :=
  if String.prefix pat s then
    substring (String.length pat) (String.length s - String.length pat) s
  else
    match s with
    | EmptyString => EmptyString
    | String c r => String c (replace_first pat r)
    end.

End JSString.

(** ** Host numbers *)

Module JSNumber.

Local Open Scope float_scope.

Definition of_Z (z : Z) : float :=
  SF2Prim (binary_normalize prec emax z 0 false).

(** The binary64 value nearest to [m / d] (ties to even), for [m >= 0]
    and [d > 0]. *)
Definition nearest_quotient (m : Z) (d : positive) : float :=
  match m with
  | Zpos p =>
      SF2Prim (SFdiv prec emax (S754_finite false p 0) (S754_finite false d 0))
  | _ => 0
  end.

Definition digit_value (c : ascii) : Z := Z.of_nat (JSString.code c) - 48.

Fixpoint digits_value (acc : Z) (s : string) : Z :=
  match s with
  | EmptyString => acc
  | String c r => digits_value (10 * acc + digit_value c) r
  end.

(** [Number.parseFloat] on the texts that reach it, unsigned decimal
    literals [\d+(\.\d+)?]: the nearest binary64 value of the decimal;
    [NaN] when the text does not start with a digit. *)
Definition parseFloat (text : string) : float :=
  let (ip, rest) := JSString.span JSString.is_digit text in
  match ip with
  | EmptyString => nan
  | _ =>
      let fp :=
        match rest with
        | String c r =>
            if Ascii.eqb c "." then fst (JSString.span JSString.is_digit r)
            else EmptyString
        | EmptyString => EmptyString
        end in
      nearest_quotient (digits_value (digits_value 0 ip) fp)
                       (Z.to_pos (10 ^ Z.of_nat (String.length fp)))
  end.

(** [Math.PI] and [Math.E]. *)
Definition Math_PI : float := 0x1.921fb54442d18p+1.
Definition Math_E : float := 0x1.5bf0a8b145769p+1.

(** The literal [0.00000001] of [guidedDivide]. *)
Definition epsilon : float := 0x1.5798ee2308c3ap-27.

(** The integer a finite float denotes, when it denotes one. *)
Definition to_Z (f : float) : option Z :=
  match Prim2SF f with
  | S754_zero _ => Some 0%Z
  | S754_finite s m e =>
      let v := (match e with
                | Zneg k =>
                    if (Z.pos m mod 2 ^ Z.pos k =? 0)%Z
                    then Some (Z.pos m / 2 ^ Z.pos k)%Z else None
                | _ => Some (Z.pos m * 2 ^ e)%Z
                end) in
      match v with
      | Some z => Some (if s then (- z)%Z else z)
      | None => None
      end
  | _ => None
  end.

End JSNumber.

(** ** Tokens *)

Inductive TokenType : Type :=
| UnsignedNumber
| Identifier
| PuncOpeningBracket
| PuncClosingBracket
| OperatorAdd
| OperatorSubtract
| OperatorDivide
| OperatorMultiply
| OperatorPower
| OperatorFactorial
| OperatorScientific
| OperatorFunctionCall.

Definition TokenType_eqb (a b : TokenType) : bool :=
  match a, b with
  | UnsignedNumber, UnsignedNumber
  | Identifier, Identifier
  | PuncOpeningBracket, PuncOpeningBracket
  | PuncClosingBracket, PuncClosingBracket
  | OperatorAdd, OperatorAdd
  | OperatorSubtract, OperatorSubtract
  | OperatorDivide, OperatorDivide
  | OperatorMultiply, OperatorMultiply
  | OperatorPower, OperatorPower
  | OperatorFactorial, OperatorFactorial
  | OperatorScientific, OperatorScientific
  | OperatorFunctionCall, OperatorFunctionCall => true
  | _, _ => false
  end.

(** [Object.values(OperatorTokenTypes)]. *)
Definition OperatorTokenTypes : list TokenType :=
  [OperatorAdd; OperatorSubtract; OperatorDivide; OperatorMultiply;
   OperatorPower; OperatorFactorial; OperatorScientific; OperatorFunctionCall].

Inductive OpType : Type := unary | binary.

(** The two [Map]s of the module, in insertion order. *)
Definition OperatorPrecedence : list (TokenType * Z) :=
  [(OperatorFunctionCall, 110); (OperatorFactorial, 100); (OperatorPower, 90);
   (OperatorScientific, 90); (OperatorDivide, 80); (OperatorMultiply, 70);
   (OperatorAdd, 60); (OperatorSubtract, 50)]%Z.

Definition OperatorType : list (TokenType * OpType) :=
  [(OperatorFunctionCall, unary); (OperatorFactorial, unary);
   (OperatorPower, binary); (OperatorDivide, binary);
   (OperatorMultiply, binary); (OperatorAdd, binary);
   (OperatorSubtract, binary); (OperatorScientific, binary)].

(** [map.get(k)], with [d] standing for a key that is not there (every
    operator type is a key of both maps, see [operator_maps_total]). *)
Fixpoint Map_get {V : Type} (m : list (TokenType * V)) (k : TokenType) (d : V) : V :=
  match m with
  | [] => d
  | (k', v) :: r => if TokenType_eqb k' k then v else Map_get r k d
  end.

Record Token : Type := mkToken
  { text : string;
    type : TokenType;
    precedence : Z;
    opType : OpType }.

Definition hasHigherPrecedenceThan (this anotherToken : Token) : bool :=
  (precedence anotherToken <? precedence this)%Z.

Definition isOperator (this : Token) : bool :=
  existsb (TokenType_eqb (type this)) OperatorTokenTypes.

Definition isBinaryOperator (this : Token) : bool :=
  isOperator this && match opType this with binary => true | unary => false end.

Definition isUnsignedNumber (this : Token) : bool :=
  TokenType_eqb (type this) UnsignedNumber.

Definition isPlus (this : Token) : bool := TokenType_eqb (type this) OperatorAdd.
Definition isMinus (this : Token) : bool := TokenType_eqb (type this) OperatorSubtract.
Definition isPlusOrMinus (this : Token) : bool := isPlus this || isMinus this.

Definition isFactorial (this : Token) : bool :=
  isOperator this && TokenType_eqb (type this) OperatorFactorial.

Definition isVariable (this : Token) : bool := TokenType_eqb (type this) Identifier.

Definition isFunctionCall (this : Token) : bool :=
  isOperator this && TokenType_eqb (type this) OperatorFunctionCall.

Definition isOpeningBracket (this : Token) : bool :=
  TokenType_eqb (type this) PuncOpeningBracket.

Definition isClosingBracket (this : Token) : bool :=
  TokenType_eqb (type this) PuncClosingBracket.

(** ** Errors *)

(** The name a [VariableExpression] carries: a string, or the token object
    itself where the parser passes [token] instead of [token.text]. *)
Inductive VarName : Type :=
| NameText (s : string)
| NameToken (t : Token).

(** One constructor per [throw new Error(...)] of the source, and
    [TypeError] for the host's failure on a property read of [null] or
    [undefined]. *)
Inductive Error : Type :=
| UnknownTokens                              (* "Unknown tokens in source." *)
| CannotModify (name : string)               (* `Cannot modify ${name}` *)
| NotStoredVariable (name : VarName)         (* `${name} is not a stored variable` *)
| NotStoredFunction (name : string)          (* `${name} is not a stored function` *)
| UnknownUnaryOperator                       (* "Unknown unary operator" *)
| CannotDivideByZero                         (* "Cannot divide by zero." *)
| ExpressionCannotStartWith (text : string)  (* `Expression cannot start with ${token.text}` *)
| ExpectedOperator                           (* "Expected an operator." *)
| BinaryOperatorRequiresTwoOperands          (* "Binary operator requires two operands" *)
| UnexpectedOperand (text : string)          (* `Unexpected operand ${token.text}` *)
| UnmatchedBrackets                          (* "Unmatched brackets." *)
| InvalidFunctionCall                        (* "Invalid function call." *)
| UnknownAssignment                          (* "Unknown assignment." *)
| TypeError (on : JSVoid).

(** The error taxonomy of the specification. *)
Inductive ErrorClass : Type :=
| TokeniseError
| SymbolLookupError
| SymbolMutationError
| SyntaxError
| ArithmeticError.

Definition taxonomy (e : Error) : option ErrorClass :=
  match e with
  | UnknownTokens => Some TokeniseError
  | CannotModify _ => Some SymbolMutationError
  | NotStoredVariable _ | NotStoredFunction _ => Some SymbolLookupError
  | CannotDivideByZero => Some ArithmeticError
  | UnknownUnaryOperator | ExpressionCannotStartWith _ | ExpectedOperator
  | BinaryOperatorRequiresTwoOperands | UnexpectedOperand _
  | UnmatchedBrackets | InvalidFunctionCall | UnknownAssignment => Some SyntaxError
  | TypeError _ => None
  end.

Inductive Result (A : Type) : Type :=
| Ok (a : A)
| Throw (e : Error)
| OutOfFuel.
Arguments Ok {A} a.
Arguments Throw {A} e.
Arguments OutOfFuel {A}.

Definition bindR {A B : Type} (r : Result A) (k : A -> Result B) : Result B :=
  match r with
  | Ok a => k a
  | Throw e => Throw e
  | OutOfFuel => OutOfFuel
  end.

(** [o.p] for [o] that may be [null] or [undefined]. *)
Definition deref {A : Type} (o : Maybe A) : Result A :=
  match o with
  | Obj a => Ok a
  | Null => Throw (TypeError JSnull)
  | Undefined => Throw (TypeError JSundefined)
  end.

Declare Scope result_scope.
Delimit Scope result_scope with result.
Notation "x <- r ;; k" := (bindR r (fun x => k))
  (at level 100, r at next level, right associativity) : result_scope.

(** ** Tokeniser *)

Module Tokeniser.

Import JSString.

(** [/^\d+(\.\d+)?/]: [match[0]] when the pattern matches. *)
Definition match_number (input : string) : option string :=
  let (ip, rest) := span is_digit input in
  match ip with
  | EmptyString => None
  | _ =>
      match rest with
      | String c r =>
          if Ascii.eqb c "." then
            match fst (span is_digit r) with
            | EmptyString => Some ip
            | fp => Some (ip ++ "." ++ fp)%string
            end
          else Some ip
      | EmptyString => Some ip
      end
  end.

(** [/^[a-z]+/]. *)
Definition match_lower (input : string) : option string :=
  match fst (span is_lower input) with
  | EmptyString => None
  | s => Some s
  end.

(** A one-character pattern such as [/^\(/]. *)
Definition match_char (c : ascii) (input : string) : option string :=
  match input with
  | String d _ => if Ascii.eqb c d then Some (String c EmptyString) else None
  | EmptyString => None
  end.

(** The matchers in the insertion order of the [Map]. *)
Definition _getMatchers : list ((string -> option string) * TokenType) :=
  [(match_number, UnsignedNumber);
   (match_lower, Identifier);
   (match_char "(", PuncOpeningBracket);
   (match_char ")", PuncClosingBracket);
   (match_char "+", OperatorAdd);
   (match_char "-", OperatorSubtract);
   (match_char "*", OperatorMultiply);
   (match_char "/", OperatorDivide);
   (match_char "!", OperatorFactorial);
   (match_char "^", OperatorPower);
   (match_char "E", OperatorScientific)].

Definition _isOperator (tokenType : TokenType) : bool :=
  existsb (TokenType_eqb tokenType) OperatorTokenTypes.

Definition _isIdentifier (tokenType : TokenType) : bool :=
  TokenType_eqb tokenType Identifier.

Definition _isAFunction (identifierName : string) (availableFunctions : list string) : bool :=
  existsb (String.eqb identifierName) availableFunctions.

(** The body of the [for] loop of [_nextMatchingToken] for the first
    matcher that matches. *)
Definition make_token (txt : string) (tokenType : TokenType)
           (availableFunctions : list string) : Token :=
  let tokenType :=
    if _isIdentifier tokenType && _isAFunction txt availableFunctions
    then OperatorFunctionCall else tokenType in
  if _isOperator tokenType
  then mkToken txt tokenType (Map_get OperatorPrecedence tokenType 0%Z)
               (Map_get OperatorType tokenType unary)
  else mkToken txt tokenType 0%Z unary.

Fixpoint first_match (matchers : list ((string -> option string) * TokenType))
         (input : string) : option (string * TokenType) :=
  match matchers with
  | [] => None
  | (matcher, ty) :: r =>
      match matcher input with
      | Some txt => Some (txt, ty)
      | None => first_match r input
      end
  end.

(** [null] is [Ok None]. *)
Definition _nextMatchingToken (input : string) (availableFunctions : list string)
  : Result (option Token) :=
  match first_match _getMatchers input with
  | Some (txt, ty) => Ok (Some (make_token txt ty availableFunctions))
  | None =>
      if (0 <? String.length input)%nat then Throw UnknownTokens else Ok None
  end.

(** The [while] loop of [tokenise]; [out] is kept in reverse. Every
    round removes at least one character, so [fuel] rounds suffice when
    [fuel] exceeds the length of [input] (see [tokenise_total]). *)
Fixpoint tokenise_loop (fuel : nat) (input : string) (availableFunctions : list string)
         (out : list Token) : Result (list Token) :=
  match fuel with
  | O => OutOfFuel
  | S fuel' =>
      match _nextMatchingToken input availableFunctions with
      | Ok (Some nextToken) =>
          tokenise_loop fuel' (trim (replace_first (text nextToken) input))
                        availableFunctions (nextToken :: out)
      | Ok None => Ok (rev out)
      | Throw e => Throw e
      | OutOfFuel => OutOfFuel
      end
  end.

Definition tokenise (input : string) (availableFunctions : list string)
  : Result (list Token) :=
  tokenise_loop (S (String.length input)) input availableFunctions [].

End Tokeniser.

(** ** Expression trees and the symbol table *)

(** The expression classes of the compute engine, one per built-in
    callable. *)
Inductive Builtin : Type :=
| SinExpr | ASinExpr | ASinhExpr
| CosExpr | ACosExpr | ACoshExpr
| TanExpr | ATanExpr | ATanhExpr
| DegToRad | RadToDeg.

Inductive Expression : Type :=
| ConstantExpression (value : float)
| VariableExpression (varName : VarName)
| BinaryExpression (operator : string) (left right : Expression)
| FactorialExpression (operand : Expression)
| FunctionCallExpression (functionName : string) (argument : Expression)
| BuiltinExpression (b : Builtin).

(** The class [Variable] ([Variable] is a reserved word here), and
    [Callable extends Variable] at [A := Expression]. *)
Record Variable_ (A : Type) : Type := mkVariable
  { name : string;
    value : A;
    isFinal : bool }.
Arguments mkVariable {A} name value isFinal.
Arguments name {A} v.
Arguments value {A} v.
Arguments isFinal {A} v.

Definition Callable : Type := Variable_ Expression.

Definition asNumber (this : Variable_ float) : float := value this.
Definition asExpression (this : Callable) : Expression := value this.

(** The arrays keep their order, and [setSymbol] visits every entry. *)
Record SymbolsTable : Type := mkSymbolsTable
  { variables : list (Variable_ float);
    callables : list Callable }.

(** What [setSymbol] receives: a number, or an [instanceof Expression]. *)
Inductive SymbolValue : Type :=
| NumberValue (n : float)
| ExpressionValue (e : Expression).

(** Stateful code: the table goes in and comes out, also on a throw. *)
Definition M (A : Type) : Type := SymbolsTable -> Result A * SymbolsTable.

Definition ret {A : Type} (a : A) : M A := fun st => (Ok a, st).
Definition throw {A : Type} (e : Error) : M A := fun st => (Throw e, st).
Definition out_of_fuel {A : Type} : M A := fun st => (OutOfFuel, st).
Definition lift {A : Type} (r : Result A) : M A := fun st => (r, st).

Definition bind {A B : Type} (m : M A) (k : A -> M B) : M B :=
  fun st =>
    match m st with
    | (Ok a, st') => k a st'
    | (Throw e, st') => (Throw e, st')
    | (OutOfFuel, st') => (OutOfFuel, st')
    end.

Declare Scope engine_scope.
Delimit Scope engine_scope with engine.
Notation "x <- m ;; k" := (bind m (fun x => k))
  (at level 100, m at next level, right associativity) : engine_scope.
Notation "m ;;; k" := (bind m (fun _ => k))
  (at level 100, right associativity) : engine_scope.

Module SymbolsTableOps.

(** [setTo]: the entry after the assignment, or the throw. *)
Definition setTo {A : Type} (this : Variable_ A) (newValue : A) : Result (Variable_ A) :=
  if isFinal this then Throw (CannotModify (name this))
  else Ok (mkVariable (name this) newValue (isFinal this)).

(** The [forEach] of [setSymbol] over one of the two arrays: the array
    after the visit, whether an entry had the name, and the throw that
    stopped the visit, if any. Entries visited before a throw keep their
    new value. *)
Fixpoint setEach {A : Type} (symbolName : string) (newValue : A)
         (entries : list (Variable_ A)) : list (Variable_ A) * bool * option Error :=
  match entries with
  | [] => ([], false, None)
  | v :: rest =>
      if String.eqb (name v) symbolName then
        match setTo v newValue with
        | Ok v' =>
            let '(rest', _, err) := setEach symbolName newValue rest in
            (v' :: rest', true, err)
        | Throw e => (v :: rest, true, Some e)
        | OutOfFuel => (v :: rest, true, None)
        end
      else
        let '(rest', exists_, err) := setEach symbolName newValue rest in
        (v :: rest', exists_, err)
  end.

(** One branch of [setSymbol]: visit, then [push] when no entry had the
    name. *)
Definition setIn {A : Type} (symbolName : string) (newValue : A)
           (entries : list (Variable_ A)) : list (Variable_ A) * option Error :=
  match setEach symbolName newValue entries with
  | (entries', _, Some e) => (entries', Some e)
  | (entries', true, None) => (entries', None)
  | (entries', false, None) =>
      (entries' ++ [mkVariable symbolName newValue false], None)
  end.

Definition setSymbol (symbolName : string) (v : SymbolValue) : M unit :=
  fun st =>
    match v with
    | ExpressionValue e =>
        let (cs, err) := setIn symbolName e (callables st) in
        (match err with Some er => Throw er | None => Ok tt end,
         mkSymbolsTable (variables st) cs)
    | NumberValue n =>
        let (vs, err) := setIn symbolName n (variables st) in
        (match err with Some er => Throw er | None => Ok tt end,
         mkSymbolsTable vs (callables st))
    end.

(** [variable.name === name]: never true of a token object, the stored
    names being strings. *)
Definition name_is {A : Type} (n : VarName) (v : Variable_ A) : bool :=
  match n with
  | NameText s => String.eqb (name v) s
  | NameToken _ => false
  end.

Definition getVariable (n : VarName) : M (Variable_ float) :=
  fun st =>
    match filter (name_is n) (variables st) with
    | v :: _ => (Ok v, st)
    | [] => (Throw (NotStoredVariable n), st)
    end.

Definition getCallable (n : string) : M Callable :=
  fun st =>
    match filter (name_is (NameText n)) (callables st) with
    | c :: _ => (Ok c, st)
    | [] => (Throw (NotStoredFunction n), st)
    end.

End SymbolsTableOps.

(** ** The host's [Math] object *)

(** The functions whose results ECMAScript leaves to the implementation
    ("an implementation-approximated value"). *)
Class Host : Type :=
  { host_pow : float -> float -> float;
    Math_sin : float -> float;
    Math_asin : float -> float;
    Math_asinh : float -> float;
    Math_cos : float -> float;
    Math_acos : float -> float;
    Math_acosh : float -> float;
    Math_tan : float -> float;
    Math_atan : float -> float;
    Math_atanh : float -> float }.

Section Evaluator.

Context {host : Host}.

Import SymbolsTableOps JSNumber.
Local Open Scope float_scope.

(** [Math.pow]. ECMAScript fixes the first cases: a NaN exponent gives
    NaN, a zero exponent gives 1, a NaN base gives NaN. Where base and
    exponent are integers, the base is not zero, the exponent is between 0
    and 53 and the power is at most 2^53 in magnitude, the power is a
    binary64 value and the model takes the host to return it; elsewhere the
    result is the host's. *)
Definition Math_pow (base exponent : float) : float :=
  if is_nan exponent then nan
  else if exponent =? 0 then 1
  else if is_nan base then nan
  else
    match to_Z base, to_Z exponent with
    | Some b, Some e =>
        if (negb (b =? 0) && (0 <=? e) && (e <=? 53)
            && (Z.abs (b ^ e) <=? 2 ^ 53))%Z
        then of_Z (b ^ e)
        else host_pow base exponent
    | _, _ => host_pow base exponent
    end.

(** [FactorialExpression.factorialise]; [fuel] bounds the depth of the
    recursion. *)
Fixpoint factorialise (fuel : nat) (value : float) : Result float :=
  match fuel with
  | O => OutOfFuel
  | S fuel' =>
      if value <? 0 then Ok (-1)
      else if value =? 0 then Ok 1
      else bindR (factorialise fuel' (value - 1)) (fun r => Ok (r * value))
  end.

(** [BinaryExpression.guidedDivide]. *)
Definition guidedDivide (leftVal rightVal : float) : Result float :=
  if abs rightVal <? epsilon then Throw CannotDivideByZero
  else Ok (leftVal / rightVal).

(** The [switch] of [BinaryExpression.eval]. *)
Definition applyOperator (operator : string) (leftVal rightVal : float) : Result float :=
  if String.eqb operator "+" then Ok (leftVal + rightVal)
  else if String.eqb operator "-" then Ok (leftVal - rightVal)
  else if String.eqb operator "*" then Ok (leftVal * rightVal)
  else if String.eqb operator "/" then guidedDivide leftVal rightVal
  else if String.eqb operator "^" then Ok (Math_pow leftVal rightVal)
  else if String.eqb operator "E" then Ok (leftVal * Math_pow 10 rightVal)
  else Ok (-1).

(** Modelled from the spec: [getXValue], which the built-in expression
    classes call and no source file defines. The specification has each
    built-in "implemented by evaluating an implicit variable x bound
    immediately before the call": the number stored under [x]. *)
Definition getXValue : M float :=
  (v <- getVariable (NameText "x") ;; ret (asNumber v))%engine.

(** The bodies of the built-in expression classes, given [x]. *)
Definition applyBuiltin (b : Builtin) (x : float) : float :=
  match b with
  | SinExpr => Math_sin x
  | ASinExpr => Math_asin x
  | ASinhExpr => Math_asinh x
  | CosExpr => Math_cos x
  | ACosExpr => Math_acos x
  | ACoshExpr => Math_acosh x
  | TanExpr => Math_tan x
  | ATanExpr => Math_atan x
  | ATanhExpr => Math_atanh x
  | DegToRad => (x * Math_PI) / 180
  | RadToDeg => (x * 180) / Math_PI
  end.

(** [eval] of every expression class; [fuel] bounds the depth of the
    calls. *)
Fixpoint eval (fuel : nat) (this : Expression) : M float :=
  match fuel with
  | O => out_of_fuel
  | S fuel' =>
      match this with
      | ConstantExpression v => ret v
      | VariableExpression varName =>
          (symbol <- getVariable varName ;; ret (asNumber symbol))%engine
      | BinaryExpression operator left_ right_ =>
          (leftVal <- eval fuel' left_ ;;
           rightVal <- eval fuel' right_ ;;
           lift (applyOperator operator leftVal rightVal))%engine
      | FactorialExpression operand =>
          (v <- eval fuel' operand ;; lift (factorialise fuel' v))%engine
      | FunctionCallExpression functionName argument =>
          (argValue <- eval fuel' argument ;;
           setSymbol "x" (NumberValue argValue) ;;;
           callable <- getCallable functionName ;;
           eval fuel' (asExpression callable))%engine
      | BuiltinExpression b =>
          (x <- getXValue ;; ret (applyBuiltin b x))%engine
      end
  end.

End Evaluator.

(** ** Parser *)

Record ParsingResult : Type := mkParsingResult
  { expression : Expression;
    nextStartIndex : nat }.

Module Parser.

Import JSNumber.
Local Open Scope result_scope.

Definition buildUnaryExpression (operand : Expression) (operatorToken : Token)
  : Result Expression :=
  if isFactorial operatorToken then Ok (FactorialExpression operand)
  else Throw UnknownUnaryOperator.

Definition buildBinaryExpression (operatorToken : Token) (left_ right_ : Expression)
  : Expression :=
  BinaryExpression (text operatorToken) left_ right_.

Definition buildConstantExpression (v : float) : Expression := ConstantExpression v.

Definition buildVariableExpression (varName : VarName) : Expression :=
  VariableExpression varName.

Definition buildFunctionCallExpression (functionName : string) (argument : Expression)
  : Expression :=
  FunctionCallExpression functionName argument.

(** The first operator token at or after [startIndex]; [null] is
    [None]. *)
Definition _nextOperator (startIndex : nat) (tokens : list Token) : option Token :=
  find isOperator (skipn startIndex tokens).

(** The token [new Token("+", ...)] of [continueParsing]. *)
Definition addToken : Token :=
  mkToken "+" OperatorAdd (Map_get OperatorPrecedence OperatorAdd 0%Z) binary.

(** The five mutually recursive methods. [tokens[startIndex]] is read
    with [nth_error], whose [None] is the case
    [startIndex >= tokens.length]. [fuel] bounds the depth of the calls;
    [parse_budget] is enough for every token sequence
    (see [parse_total]). *)
Fixpoint parse (fuel : nat) (startIndex : nat) (tokens : list Token) {struct fuel}
  : Result (Maybe ParsingResult) :=
  match fuel with
  | O => OutOfFuel
  | S fuel' =>
      match nth_error tokens startIndex with
      | None => Ok Null
      | Some token =>
          if isPlusOrMinus token then
            right_ <- nextAsRightOperand fuel' (startIndex + 1) tokens ;;
            continueParsing fuel'
              (buildBinaryExpression token (buildConstantExpression 0%float)
                                     (expression right_))
              (nextStartIndex right_) tokens
          else if isUnsignedNumber token then
            continueParsing fuel'
              (buildConstantExpression (parseFloat (text token)))
              (startIndex + 1) tokens
          else if isVariable token then
            continueParsing fuel'
              (buildVariableExpression (NameText (text token)))
              (startIndex + 1) tokens
          else if isFunctionCall token then
            left_ <- parseFunctionCall fuel' startIndex tokens ;;
            continueParsing fuel' (expression left_) (nextStartIndex left_) tokens
          else if isOpeningBracket token then
            left_ <- parseBrackets fuel' startIndex tokens ;;
            continueParsing fuel' (expression left_) (nextStartIndex left_) tokens
          else Throw (ExpressionCannotStartWith (text token))
      end
  end

with continueParsing (fuel : nat) (leftExpression : Expression) (startIndex : nat)
                     (tokens : list Token) {struct fuel}
  : Result (Maybe ParsingResult) :=
  match fuel with
  | O => OutOfFuel
  | S fuel' =>
      match nth_error tokens startIndex with
      | None =>
          Ok (Obj (mkParsingResult
                     (buildBinaryExpression addToken leftExpression
                                            (buildConstantExpression 0%float))
                     startIndex))
      | Some token =>
          if isOperator token || isClosingBracket token then
            if isClosingBracket token then
              Ok (Obj (mkParsingResult leftExpression startIndex))
            else if isFactorial token then
              left_ <- buildUnaryExpression leftExpression token ;;
              continueParsing fuel' left_ (startIndex + 1) tokens
            else if isBinaryOperator token then
              right_ <-
                (match _nextOperator (startIndex + 1) tokens with
                 | None => nextAsRightOperand fuel' (startIndex + 1) tokens
                 | Some nextOperator =>
                     if hasHigherPrecedenceThan token nextOperator
                     then nextAsRightOperand fuel' (startIndex + 1) tokens
                     else (p <- parse fuel' (startIndex + 1) tokens ;; deref p)
                 end) ;;
              continueParsing fuel'
                (buildBinaryExpression token leftExpression (expression right_))
                (nextStartIndex right_) tokens
            else Ok Undefined
          else Throw ExpectedOperator
      end
  end

with nextAsRightOperand (fuel : nat) (startIndex : nat) (tokens : list Token)
                        {struct fuel}
  : Result ParsingResult :=
  match fuel with
  | O => OutOfFuel
  | S fuel' =>
      match nth_error tokens startIndex with
      | None => Throw BinaryOperatorRequiresTwoOperands
      | Some token =>
          if isVariable token || isUnsignedNumber token then
            Ok (mkParsingResult
                  (if isVariable token
                   then buildVariableExpression (NameToken token)
                   else buildConstantExpression (parseFloat (text token)))
                  (startIndex + 1))
          else if isOpeningBracket token then parseBrackets fuel' startIndex tokens
          else if isFunctionCall token then parseFunctionCall fuel' startIndex tokens
          else if isPlusOrMinus token then
            right_ <- nextAsRightOperand fuel' (startIndex + 1) tokens ;;
            Ok (mkParsingResult
                  (buildBinaryExpression token (buildConstantExpression 0%float)
                                         (expression right_))
                  (nextStartIndex right_))
          else Throw (UnexpectedOperand (text token))
      end
  end

with parseBrackets (fuel : nat) (startIndex : nat) (tokens : list Token) {struct fuel}
  : Result ParsingResult :=
  match fuel with
  | O => OutOfFuel
  | S fuel' =>
      p <- parse fuel' (startIndex + 1) tokens ;;
      match p with
      | Obj right_ =>
          match nth_error tokens (nextStartIndex right_) with
          | None => Throw UnmatchedBrackets
          | Some t =>
              if negb (isClosingBracket t) then Throw UnmatchedBrackets
              else Ok (mkParsingResult (expression right_) (nextStartIndex right_ + 1))
          end
      | Null | Undefined => Throw UnmatchedBrackets
      end
  end

with parseFunctionCall (fuel : nat) (startIndex : nat) (tokens : list Token)
                       {struct fuel}
  : Result ParsingResult :=
  match fuel with
  | O => OutOfFuel
  | S fuel' =>
      if (List.length tokens <=? startIndex + 3)%nat then Throw InvalidFunctionCall
      else
        arg <- parseBrackets fuel' (startIndex + 1) tokens ;;
        match nth_error tokens startIndex with
        | Some t =>
            Ok (mkParsingResult
                  (buildFunctionCallExpression (text t) (expression arg))
                  (nextStartIndex arg))
        | None => Throw (TypeError JSundefined)
        end
  end.

Definition parse_budget (tokens : list Token) : nat := 3 * List.length tokens + 3.

End Parser.

(** ** Compute engine *)

Module ComputeEngine.

Import JSString JSNumber SymbolsTableOps.

Definition getDefaultSymbolsTable : SymbolsTable :=
  mkSymbolsTable
    [mkVariable "ans" 0%float false;
     mkVariable "preans" 0%float false;
     mkVariable "pi" Math_PI true;
     mkVariable "e" Math_E true]
    [mkVariable "sin" (BuiltinExpression SinExpr) true;
     mkVariable "asin" (BuiltinExpression ASinExpr) true;
     mkVariable "asinh" (BuiltinExpression ASinhExpr) true;
     mkVariable "cos" (BuiltinExpression CosExpr) true;
     mkVariable "acos" (BuiltinExpression ACosExpr) true;
     mkVariable "acosh" (BuiltinExpression ACoshExpr) true;
     mkVariable "tan" (BuiltinExpression TanExpr) true;
     mkVariable "atan" (BuiltinExpression ATanExpr) true;
     mkVariable "atanh" (BuiltinExpression ATanhExpr) true;
     mkVariable "rad" (BuiltinExpression DegToRad) true;
     mkVariable "deg" (BuiltinExpression RadToDeg) true].

(** [/^[a-z]+\(x\)$/.exec(left)], as a truth value. *)
Definition funcRegExp (left_ : string) : bool :=
  let (nm, rest) := span is_lower left_ in
  negb (String.eqb nm "") && String.eqb rest "(x)".

(** [/^[a-z]+$/.exec(left)], as a truth value. *)
Definition varNameRegExp (left_ : string) : bool :=
  let (nm, rest) := span is_lower left_ in
  negb (String.eqb nm "") && String.eqb rest "".

(** The token sequence of [text] and its parse, as [evalString] and
    [_getExpression] both start: [this.parse(0, tokens).expression]. *)
Definition parseText (text : string) : M Expression :=
  fun st =>
    let functionNames := map name (callables st) in
    (bindR (Tokeniser.tokenise text functionNames) (fun tokens =>
     bindR (Parser.parse (Parser.parse_budget tokens) 0 tokens) (fun p =>
     bindR (deref p) (fun r => Ok (expression r)))), st).

Section WithHost.

Context {host : Host}.
Local Open Scope engine_scope.

(** [Parser.evalString]. *)
Definition evalString (fuel : nat) (text : string) : M float :=
  e <- parseText text ;; eval fuel e.

Definition _getExpression (text : string) : M Expression := parseText text.

Definition _handleAssignment (fuel : nat) (left_ right_ : string) : M float :=
  if funcRegExp left_ then
    functionName <- lift (deref (item (split "(" left_) 0)) ;;
    e <- _getExpression right_ ;;
    setSymbol functionName (ExpressionValue e) ;;;
    ret 0%float
  else if varNameRegExp left_ then
    v <- evalString fuel right_ ;;
    setSymbol left_ (NumberValue v) ;;;
    ret 0%float
  else throw UnknownAssignment.

Definition run (fuel : nat) (text : string) : M float :=
  if contains "=" text then
    let units := split "=" text in
    u0 <- lift (deref (item units 0)) ;;
    u1 <- lift (deref (item units 1)) ;;
    _handleAssignment fuel (trim u0) (trim u1)
  else
    r <- evalString fuel text ;;
    a <- getVariable (NameText "ans") ;;
    setSymbol "preans" (NumberValue (asNumber a)) ;;;
    setSymbol "ans" (NumberValue r) ;;;
    ret r.

End WithHost.

End ComputeEngine.

(** A host for running the engine on inputs that never reach the functions
    ECMAScript leaves to the implementation: it answers NaN there. *)
Definition nan_host : Host :=
  {| host_pow := fun _ _ => nan;
     Math_sin := fun _ => nan;
     Math_asin := fun _ => nan;
     Math_asinh := fun _ => nan;
     Math_cos := fun _ => nan;
     Math_acos := fun _ => nan;
     Math_acosh := fun _ => nan;
     Math_tan := fun _ => nan;
     Math_atan := fun _ => nan;
     Math_atanh := fun _ => nan |}.

(** ** The first version of the tokeniser *)

(** [src/engine/parser.js] begins with an earlier version of the module:
    the token types, the precedences, [Token] with its two methods and the
    tokeniser, before the scientific operator, the arity of operators and
    the parser were added. Token types are the strings the source
    gives them. *)
Module FirstVersion.

Import JSString.

(** The own properties of the object [OperatorTokenTypes], in order. *)
Definition OperatorTokenTypes : list (string * string) :=
  [("OperatorAdd", "opAdd");
   ("OperatorSubtract", "opSub");
   ("OperatorDivide", "opDiv");
   ("OperatorMultiply", "opMul");
   ("OperatorPower", "opPow");
   ("OperatorFactorial", "opFact");
   ("OperatorFunctionCall", "opFuncCall")].

(** The object [TokenType]: its own properties and the spread of
    [OperatorTokenTypes]. *)
Definition TokenType : list (string * string) :=
  [("UnsignedNumber", "unsignedNumber");
   ("Identifier", "identifier");
   ("PuncOpeningBracket", "openingBracket");
   ("PuncClosingBracket", "closingBracket")]
  ++ OperatorTokenTypes.

(** The properties an object literal inherits from [Object.prototype]. *)
Definition Object_prototype : list string :=
  ["constructor"; "__defineGetter__"; "__defineSetter__"; "hasOwnProperty";
   "__lookupGetter__"; "__lookupSetter__"; "isPrototypeOf";
   "propertyIsEnumerable"; "toString"; "valueOf"; "__proto__";
   "toLocaleString"].

(** [o[k] !== undefined] for an object literal [o] whose values are
    strings: [k] is an own property or an inherited one. *)
Definition has_property (o : list (string * string)) (k : string) : bool :=
  existsb (fun p => String.eqb (fst p) k) o
  || existsb (String.eqb k) Object_prototype.

(** [Object.values(o)]. *)
Definition Object_values (o : list (string * string)) : list string := map snd o.

(** The [Map] [OperatorPrecedence], in insertion order. *)
Definition OperatorPrecedence : list (string * Z) :=
  [("opFuncCall", 110); ("opFact", 100); ("opPow", 90); ("opDiv", 80);
   ("opMul", 70); ("opAdd", 60); ("opSub", 50)]%Z.

(** [map.get(k)], with [d] standing for a key that is not there (the
    tokeniser reads the map at the values of [OperatorTokenTypes] only, and
    each of them is a key). *)
Fixpoint Map_get (m : list (string * Z)) (k : string) (d : Z) : Z :=
  match m with
  | [] => d
  | (k', v) :: r => if String.eqb k' k then v else Map_get r k d
  end.

Record Token : Type := mkToken
  { text : string;
    type : string;
    precedence : Z }.

Definition hasHigherPrecedenceThan (this anotherToken : Token) : bool :=
  (precedence anotherToken <? precedence this)%Z.

(** [OperatorTokenTypes[this.type] !== undefined]. *)
Definition isOperator (this : Token) : bool :=
  has_property OperatorTokenTypes (type this).

Definition is_upper (c : ascii) : bool :=
  (65 <=? code c)%nat && (code c <=? 90)%nat.

Definition is_letter (c : ascii) : bool := is_lower c || is_upper c.

(** [/^[a-zA-Z]+/]. *)
Definition match_letters (input : string) : option string :=
  match fst (span is_letter input) with
  | EmptyString => None
  | s => Some s
  end.

(** The matchers in the insertion order of the [Map]. *)
Definition _getMatchers : list ((string -> option string) * string) :=
  [(Tokeniser.match_number, "unsignedNumber");
   (match_letters, "identifier");
   (Tokeniser.match_char "(", "openingBracket");
   (Tokeniser.match_char ")", "closingBracket");
   (Tokeniser.match_char "+", "opAdd");
   (Tokeniser.match_char "-", "opSub");
   (Tokeniser.match_char "*", "opMul");
   (Tokeniser.match_char "/", "opDiv");
   (Tokeniser.match_char "!", "opFact");
   (Tokeniser.match_char "^", "opPow")].

Definition _isOperator (tokenType : string) : bool :=
  existsb (String.eqb tokenType) (Object_values OperatorTokenTypes).

Definition _isIdentifier (tokenType : string) : bool :=
  String.eqb tokenType "identifier".

Definition _isAFunction (identifierName : string) (availableFunctions : list string)
  : bool :=
  existsb (String.eqb identifierName) availableFunctions.

Definition make_token (txt tokenType : string) (availableFunctions : list string)
  : Token :=
  let tokenType :=
    if _isIdentifier tokenType && _isAFunction txt availableFunctions
    then "opFuncCall" else tokenType in
  let precedence :=
    if _isOperator tokenType then Map_get OperatorPrecedence tokenType 0%Z
    else 0%Z in
  mkToken txt tokenType precedence.

Fixpoint first_match (matchers : list ((string -> option string) * string))
         (input : string) : option (string * string) :=
  match matchers with
  | [] => None
  | (matcher, ty) :: r =>
      match matcher input with
      | Some txt => Some (txt, ty)
      | None => first_match r input
      end
  end.

Definition _nextMatchingToken (input : string) (availableFunctions : list string)
  : Result (option Token) :=
  match first_match _getMatchers input with
  | Some (txt, ty) => Ok (Some (make_token txt ty availableFunctions))
  | None =>
      if (0 <? String.length input)%nat then Throw UnknownTokens else Ok None
  end.

Fixpoint tokenise_loop (fuel : nat) (input : string) (availableFunctions : list string)
         (out : list Token) : Result (list Token) :=
  match fuel with
  | O => OutOfFuel
  | S fuel' =>
      match _nextMatchingToken input availableFunctions with
      | Ok (Some nextToken) =>
          tokenise_loop fuel' (trim (replace_first (text nextToken) input))
                        availableFunctions (nextToken :: out)
      | Ok None => Ok (rev out)
      | Throw e => Throw e
      | OutOfFuel => OutOfFuel
      end
  end.

Definition tokenise (input : string) (availableFunctions : list string)
  : Result (list Token) :=
  tokenise_loop (S (String.length input)) input availableFunctions [].

End FirstVersion.

(** ** Vocabulary of the properties *)

(** The entries whose name is not [n], in order. *)
Definition others_than {A : Type} (n : string) (entries : list (Variable_ A)) : list (Variable_ A) :=
  filter (fun v => negb (String.eqb (name v) n)) entries.

(** An entry named [n] is final: [setSymbol n] will throw. *)
Definition blocked {A : Type} (n : string) (entries : list (Variable_ A)) : bool :=
  existsb (fun v => String.eqb (name v) n && isFinal v) entries.

(** An entry named [n] exists. *)
Definition stored {A : Type} (n : string) (entries : list (Variable_ A)) : bool :=
  existsb (fun v => String.eqb (name v) n) entries.

(** The variable names an expression reads when it is evaluated without
    entering a callable's body; a built-in reads [x]. *)
Fixpoint mentions (n : string) (e : Expression) : bool :=
  match e with
  | ConstantExpression _ => false
  | VariableExpression (NameText s) => String.eqb s n
  | VariableExpression (NameToken _) => false
  | BinaryExpression _ l r => mentions n l || mentions n r
  | FactorialExpression o => mentions n o
  | FunctionCallExpression _ a => mentions n a
  | BuiltinExpression _ => String.eqb "x" n
  end.

(** The expression has a [FunctionCallExpression] node. *)
Fixpoint calls_function (e : Expression) : bool :=
  match e with
  | ConstantExpression _ | VariableExpression _ | BuiltinExpression _ => false
  | BinaryExpression _ l r => calls_function l || calls_function r
  | FactorialExpression o => calls_function o
  | FunctionCallExpression _ _ => true
  end.

(** What [run] makes of the value of a plain query: the history roll may
    still throw. *)
Definition roll_outcome (vars : list (Variable_ float)) (res : Result float)
  : Result float :=
  match res with
  | Ok v =>
      if stored "ans" vars then
        if blocked "preans" vars then Throw (CannotModify "preans")
        else if blocked "ans" vars then Throw (CannotModify "ans")
        else Ok v
      else Throw (NotStoredVariable (NameText "ans"))
  | other => other
  end.

(** No string occurs twice in [l]. *)
Fixpoint distinct (l : list string) : bool :=
  match l with
  | [] => true
  | x :: r => negb (existsb (String.eqb x) r) && distinct r
  end.

(** No two variables share a name, and no two callables do. *)
Definition well_formed (st : SymbolsTable) : bool :=
  distinct (map name (variables st)) && distinct (map name (callables st)).

(** The text before the first [c] (all of [s] when there is none), and the
    text after it. *)
Fixpoint before (c : ascii) (s : string) : string :=
  match s with
  | EmptyString => EmptyString
  | String d r => if Ascii.eqb c d then EmptyString else String d (before c r)
  end.

Fixpoint after (c : ascii) (s : string) : string :=
  match s with
  | EmptyString => EmptyString
  | String d r => if Ascii.eqb c d then r else after c r
  end.

(** A name, as both assignment patterns want it: one or more of [a-z]. *)
Definition is_name (s : string) : bool :=
  negb (String.eqb s "") && JSString.all JSString.is_lower s.

(** The arguments of the calls [factorialise] makes from [value], in order,
    as far as the depth budget goes. *)
Fixpoint factorialise_calls (fuel : nat) (value : float) : list float :=
  match fuel with
  | O => []
  | S fuel' =>
      value ::
        (if PrimFloat.ltb value 0 then []
         else if PrimFloat.eqb value 0 then []
         else factorialise_calls fuel' (value - 1)%float)
  end.

(** [Number.isInteger]. *)
Definition is_integer (v : float) : bool :=
  match JSNumber.to_Z v with
  | Some _ => true
  | None => false
  end.

(** The recursion from [v] goes on from a negative argument, as it would
    have to on its way toward negative infinity. *)
Definition recurses_below_zero (v : float) : Prop :=
  exists fuel pre a b post,
    factorialise_calls fuel v = pre ++ a :: b :: post
    /\ PrimFloat.ltb a 0 = true.

(** What a matcher returns is a prefix of the input, and is not empty. *)
Definition sound_matcher (matcher : string -> option string) : Prop :=
  forall input txt,
    matcher input = Some txt ->
    String.prefix txt input = true /\ (0 < String.length txt)%nat.

(** Every result of the parser lies past the index it started from. *)
Definition progresses (fuel : nat) : Prop :=
  forall i tokens,
    (forall r, Parser.parse fuel i tokens = Ok (Obj r) -> (i < nextStartIndex r)%nat)
    /\ (forall l r, Parser.continueParsing fuel l i tokens = Ok (Obj r) ->
                    (i <= nextStartIndex r)%nat)
    /\ (forall r, Parser.nextAsRightOperand fuel i tokens = Ok r -> (i < nextStartIndex r)%nat)
    /\ (forall r, Parser.parseBrackets fuel i tokens = Ok r -> (i < nextStartIndex r)%nat)
    /\ (forall r, Parser.parseFunctionCall fuel i tokens = Ok r -> (i < nextStartIndex r)%nat).

(** The budget each method needs at [startIndex], by the number of tokens
    from there on. *)
Definition suffices (fuel : nat) : Prop :=
  forall i tokens,
    let d := (List.length tokens - i)%nat in
    (((List.length tokens <= i)%nat -> (1 <= fuel)%nat) ->
     ((i < List.length tokens)%nat -> (3 * d + 3 <= fuel)%nat) ->
     Parser.parse fuel i tokens <> OutOfFuel)
    /\ ((3 * d + 1 <= fuel)%nat ->
        forall l, Parser.continueParsing fuel l i tokens <> OutOfFuel)
    /\ ((3 * d + 3 <= fuel)%nat -> Parser.nextAsRightOperand fuel i tokens <> OutOfFuel)
    /\ ((3 * d + 2 <= fuel)%nat -> Parser.parseBrackets fuel i tokens <> OutOfFuel)
    /\ ((3 * d + 1 <= fuel)%nat -> Parser.parseFunctionCall fuel i tokens <> OutOfFuel).

(** The tables an engine can hold: the default one, and the table after a
    [run] on one of them, whatever the text and the outcome. *)
Inductive reachable {host : Host} : SymbolsTable -> Prop :=
| reachable_default : reachable ComputeEngine.getDefaultSymbolsTable
| reachable_run (fuel : nat) (text : string) (st : SymbolsTable) :
    reachable st -> reachable (snd (ComputeEngine.run fuel text st)).

(** [s] without its white space. *)
Fixpoint without_spaces (s : string) : string :=
  match s with
  | EmptyString => EmptyString
  | String c r =>
      if JSString.is_space c then without_spaces r else String c (without_spaces r)
  end.

(** The texts of the tokens, one after the other. *)
Definition texts (tokens : list Token) : string :=
  fold_right (fun t acc => (text t ++ acc)%string) EmptyString tokens.

(** An unsigned decimal literal: digits, and possibly a point and digits. *)
Definition is_number (s : string) : bool :=
  let (ip, rest) := JSString.span JSString.is_digit s in
  negb (String.eqb ip "")
  && match rest with
     | EmptyString => true
     | String c r =>
         Ascii.eqb c "." && negb (String.eqb r "") && JSString.all JSString.is_digit r
     end.

(** The text and the type a matcher of the tokeniser pairs. *)
Definition matched (txt : string) (ty : TokenType) : bool :=
  match ty with
  | UnsignedNumber => is_number txt
  | Identifier => is_name txt
  | PuncOpeningBracket => String.eqb txt "("
  | PuncClosingBracket => String.eqb txt ")"
  | OperatorAdd => String.eqb txt "+"
  | OperatorSubtract => String.eqb txt "-"
  | OperatorMultiply => String.eqb txt "*"
  | OperatorDivide => String.eqb txt "/"
  | OperatorFactorial => String.eqb txt "!"
  | OperatorPower => String.eqb txt "^"
  | OperatorScientific => String.eqb txt "E"
  | OperatorFunctionCall => false
  end.

(** The text a token of each type carries, given the names of the
    callables. *)
Definition text_fits (fns : list string) (t : Token) : bool :=
  match type t with
  | UnsignedNumber => is_number (text t)
  | Identifier => is_name (text t) && negb (Tokeniser._isAFunction (text t) fns)
  | OperatorFunctionCall => is_name (text t) && Tokeniser._isAFunction (text t) fns
  | PuncOpeningBracket => String.eqb (text t) "("
  | PuncClosingBracket => String.eqb (text t) ")"
  | OperatorAdd => String.eqb (text t) "+"
  | OperatorSubtract => String.eqb (text t) "-"
  | OperatorMultiply => String.eqb (text t) "*"
  | OperatorDivide => String.eqb (text t) "/"
  | OperatorFactorial => String.eqb (text t) "!"
  | OperatorPower => String.eqb (text t) "^"
  | OperatorScientific => String.eqb (text t) "E"
  end.

(** The precedence and the arity a token of each type carries: those of
    the two maps for an operator, 0 and unary for the other tokens. *)
Definition attributes_fit (t : Token) : bool :=
  if isOperator t then
    (precedence t =? Map_get OperatorPrecedence (type t) 0)%Z
    && (0 <? precedence t)%Z
    && match opType t, Map_get OperatorType (type t) unary with
       | unary, unary | binary, binary => true
       | _, _ => false
       end
  else
    (precedence t =? 0)%Z
    && match opType t with unary => true | binary => false end.

(** A token as the tokeniser makes it, given the names of the
    callables. *)
Definition token_fits (fns : list string) (t : Token) : bool :=
  text_fits fns t && attributes_fit t.

(** The operators the [switch] of [BinaryExpression.eval] has a case
    for. *)
Definition known_operator (op : string) : bool :=
  existsb (String.eqb op) ["+"; "-"; "*"; "/"; "^"; "E"].

(** Every binary node of [e] has an operator the [switch] knows. *)
Fixpoint operators_known (e : Expression) : bool :=
  match e with
  | ConstantExpression _ | VariableExpression _ | BuiltinExpression _ => true
  | BinaryExpression op l r =>
      known_operator op && operators_known l && operators_known r
  | FactorialExpression o => operators_known o
  | FunctionCallExpression _ a => operators_known a
  end.

(** Every function [e] calls has its name in [fns]. *)
Fixpoint calls_within (fns : list string) (e : Expression) : bool :=
  match e with
  | ConstantExpression _ | VariableExpression _ | BuiltinExpression _ => true
  | BinaryExpression _ l r => calls_within fns l && calls_within fns r
  | FactorialExpression o => calls_within fns o
  | FunctionCallExpression f a =>
      existsb (String.eqb f) fns && calls_within fns a
  end.

(** [e] has no node of a built-in expression class. *)
Fixpoint user_written (e : Expression) : bool :=
  match e with
  | ConstantExpression _ | VariableExpression _ => true
  | BuiltinExpression _ => false
  | BinaryExpression _ l r => user_written l && user_written r
  | FactorialExpression o => user_written o
  | FunctionCallExpression _ a => user_written a
  end.

(** The body of every callable calls stored callables only, through
    operators the evaluator knows. *)
Definition bodies_closed (st : SymbolsTable) : bool :=
  forallb (fun c => calls_within (map name (callables st)) (value c)
                    && operators_known (value c))
          (callables st).

(** [vs'] is what [setSymbol] calls that store numbers under names of [ns]
    make of [vs]. *)
Inductive writes (ns : list string)
  : list (Variable_ float) -> list (Variable_ float) -> Prop :=
| writes_none (vs : list (Variable_ float)) : writes ns vs vs
| writes_more (vs vs' : list (Variable_ float)) (n : string) (x : float) :
    writes ns vs vs' -> In n ns ->
    writes ns vs (fst (SymbolsTableOps.setIn n x vs')).







(** Where the parser's methods stop, at a given depth budget: inside the
    token sequence or at its end, and [parse] and [continueParsing] at a
    closing bracket when not at the end. *)
Definition stops (fuel : nat) : Prop :=
  forall i tokens,
    (forall r, Parser.parse fuel i tokens = Ok (Obj r) ->
               (nextStartIndex r <= List.length tokens)%nat
               /\ forall t, nth_error tokens (nextStartIndex r) = Some t ->
                            isClosingBracket t = true)
    /\ (forall l r, (i <= List.length tokens)%nat ->
                    Parser.continueParsing fuel l i tokens = Ok (Obj r) ->
                    (nextStartIndex r <= List.length tokens)%nat
                    /\ forall t, nth_error tokens (nextStartIndex r) = Some t ->
                                 isClosingBracket t = true)
    /\ (forall r, Parser.nextAsRightOperand fuel i tokens = Ok r ->
                  (nextStartIndex r <= List.length tokens)%nat)
    /\ (forall r, Parser.parseBrackets fuel i tokens = Ok r ->
                  (nextStartIndex r <= List.length tokens)%nat)
    /\ (forall r, Parser.parseFunctionCall fuel i tokens = Ok r ->
                  (nextStartIndex r <= List.length tokens)%nat).

(** n! as an integer. *)
Fixpoint factorial_of (n : nat) : Z :=
  match n with
  | O => 1%Z
  | S k => (Z.of_nat n * factorial_of k)%Z
  end.

(** Two token sequences of one length with the same tokens from index [j]
    on. *)
Definition same_from (j : nat) (ts ts' : list Token) : Prop :=
  List.length ts = List.length ts'
  /\ forall k, (j <= k)%nat -> nth_error ts k = nth_error ts' k.

(** The parser's methods started at [i] give the same on two token
    sequences that are the same from [i] on. *)
Definition reads_forward (fuel : nat) : Prop :=
  forall i ts ts',
    same_from i ts ts' ->
    Parser.parse fuel i ts = Parser.parse fuel i ts'
    /\ (forall l, Parser.continueParsing fuel l i ts
                  = Parser.continueParsing fuel l i ts')
    /\ Parser.nextAsRightOperand fuel i ts = Parser.nextAsRightOperand fuel i ts'
    /\ Parser.parseBrackets fuel i ts = Parser.parseBrackets fuel i ts'
    /\ Parser.parseFunctionCall fuel i ts = Parser.parseFunctionCall fuel i ts'.

(** The tokens of operators and operands that follow a first operand:
    [o1 n1 o2 n2 ...]. *)
Definition chain (rest : list (Token * Token)) : list Token :=
  flat_map (fun p => [fst p; snd p]) rest.

(** The expression of a left operand and the operators and numbers that
    follow it, in closed form: an operator whose precedence is higher than
    the next operator's takes the number after it, and any other operator
    but the last takes all the rest. *)
Fixpoint group (left_ : Expression) (rest : list (Token * Token)) : Expression :=
  match rest with
  | [] => BinaryExpression "+" left_ (ConstantExpression 0%float)
  | (o, n) :: rest' =>
      let operand := ConstantExpression (JSNumber.parseFloat (text n)) in
      match rest' with
      | [] => group (BinaryExpression (text o) left_ operand) rest'
      | (o', _) :: _ =>
          if hasHigherPrecedenceThan o o'
          then group (BinaryExpression (text o) left_ operand) rest'
          else BinaryExpression "+"
                 (BinaryExpression (text o) left_ (group operand rest'))
                 (ConstantExpression 0%float)
      end
  end.

(** A binary operator token and a number token, as the tokeniser makes
    them. *)
Definition operator_and_number (fns : list string) (p : Token * Token) : bool :=
  token_fits fns (fst p) && isBinaryOperator (fst p)
  && token_fits fns (snd p) && isUnsignedNumber (snd p).

(** * Properties *)

(** ** Strings *)

Section StringLemmas.

Import JSString.

Lemma split_before (c : ascii) (s : string) :
  exists us, split c s = before c s :: us
             /\ (contains c s = true -> us = split c (after c s)).
Proof.
  induction s as [|d r IH]; simpl.
  - exists []. split; [reflexivity|discriminate].
  - destruct IH as [us [Hs Hc]]. rewrite Hs.
    destruct (Ascii.eqb c d) eqn:E; simpl.
    + exists (before c r :: us). split; [reflexivity|]. intros _. now rewrite Hs.
    + exists us. split; [reflexivity|exact Hc].
Qed.

(** [units[0]] and [units[1]] of [text.split(c)] when [c] occurs. *)
Lemma split_units (c : ascii) (s : string) :
  contains c s = true ->
  item (split c s) 0 = Obj (before c s)
  /\ item (split c s) 1 = Obj (before c (after c s)).
Proof.
  intros Hc. destruct (split_before c s) as [us [Hs Hu]].
  rewrite Hs. unfold item. simpl. split; [reflexivity|].
  rewrite (Hu Hc). destruct (split_before c (after c s)) as [us' [Hs' _]].
  now rewrite Hs'.
Qed.

Lemma span_all (p : ascii -> bool) (s : string) :
  all p s = true -> span p s = (s, EmptyString).
Proof.
  induction s as [|d r IH]; simpl; intros H; [reflexivity|].
  apply andb_true_iff in H. destruct H as [Hd Hr].
  now rewrite Hd, (IH Hr).
Qed.

Lemma span_app (p : ascii -> bool) (a : string) (d : ascii) (r : string) :
  all p a = true -> p d = false ->
  span p (a ++ String d r) = (a, String d r).
Proof.
  induction a as [|x a IH]; simpl; intros Ha Hd.
  - now rewrite Hd.
  - apply andb_true_iff in Ha. destruct Ha as [Hx Ha].
    now rewrite Hx, (IH Ha Hd).
Qed.

Lemma span_fst_all (p : ascii -> bool) (s : string) :
  all p (fst (span p s)) = true.
Proof.
  induction s as [|d r IH]; simpl; [reflexivity|].
  destruct (p d) eqn:E; [|reflexivity].
  destruct (span p r) as [a b]. simpl in *. now rewrite E, IH.
Qed.

Lemma span_append (p : ascii -> bool) (s : string) :
  (fst (span p s) ++ snd (span p s))%string = s.
Proof.
  induction s as [|d r IH]; simpl; [reflexivity|].
  destruct (p d); [|reflexivity].
  destruct (span p r) as [a b]. simpl in *. now rewrite IH.
Qed.

Lemma before_name (nm : string) (r : string) :
  all is_lower nm = true -> before "(" (nm ++ String "(" r) = nm.
Proof.
  induction nm as [|x a IH]; intros H; [reflexivity|].
  cbn [all] in H. apply andb_true_iff in H. destruct H as [Hx Ha].
  cbn [append before].
  destruct (Ascii.eqb "(" x) eqn:E.
  - apply Ascii.eqb_eq in E. subst x. discriminate.
  - now rewrite (IH Ha).
Qed.

End StringLemmas.

(** ** The tokeniser and the parser always return *)

Section TokeniserTotal.
Import JSString Tokeniser.

Lemma substring_length (s : string) :
  forall n m, (n + m <= String.length s)%nat -> String.length (substring n m s) = m.
Proof.
  induction s as [|c s IH]; intros n m H; simpl in H.
  - assert (n = 0 /\ m = 0)%nat as [-> ->] by lia. reflexivity.
  - destruct n as [|n]; simpl.
    + destruct m as [|m]; simpl; [reflexivity|]. rewrite IH by lia. reflexivity.
    + apply IH. lia.
Qed.

Lemma prefix_length (pat s : string) :
  String.prefix pat s = true -> (String.length pat <= String.length s)%nat.
Proof.
  revert s. induction pat as [|c pat IH]; intros s H; simpl; [lia|].
  destruct s as [|d s]; simpl in H; [discriminate|].
  destruct (ascii_dec c d); [|discriminate].
  specialize (IH s H). simpl. lia.
Qed.

Lemma replace_first_length (pat s : string) :
  String.prefix pat s = true ->
  (String.length (replace_first pat s) + String.length pat = String.length s)%nat.
Proof.
  intros H. pose proof (prefix_length pat s H) as Hl.
  destruct s as [|d s]; cbn [replace_first]; rewrite H;
    rewrite substring_length by lia; lia.
Qed.

Lemma trimStart_length (s : string) :
  (String.length (trimStart s) <= String.length s)%nat.
Proof.
  induction s as [|c s IH]; simpl; [lia|].
  destruct (is_space c); simpl; lia.
Qed.

Lemma trimEnd_length (s : string) :
  (String.length (trimEnd s) <= String.length s)%nat.
Proof.
  induction s as [|c s IH]; simpl; [lia|].
  destruct (trimEnd s); [destruct (is_space c)|]; simpl in *; lia.
Qed.

Lemma trim_length (s : string) : (String.length (trim s) <= String.length s)%nat.
Proof.
  unfold trim. pose proof (trimEnd_length (trimStart s)).
  pose proof (trimStart_length s). lia.
Qed.

Lemma span_prefix (p : ascii -> bool) (s : string) :
  String.prefix (fst (span p s)) s = true.
Proof.
  induction s as [|c s IH]; simpl; [reflexivity|].
  destruct (p c); [|reflexivity].
  destruct (span p s) as [a b]. simpl in *.
  destruct (ascii_dec c c); [exact IH|congruence].
Qed.

Lemma prefix_append (a b s : string) :
  String.prefix b s = true -> String.prefix (a ++ b) (a ++ s) = true.
Proof.
  intros H. induction a as [|c a IH]; simpl; [exact H|].
  destruct (ascii_dec c c); [exact IH|congruence].
Qed.

Lemma match_number_sound : sound_matcher match_number.
Proof.
  intros input txt H. unfold match_number in H.
  pose proof (span_prefix is_digit input) as Hp.
  pose proof (span_append is_digit input) as Ha.
  destruct (span is_digit input) as [ip rest]. simpl in *.
  destruct ip as [|c ip]; [discriminate|].
  assert (Hip : String.prefix (String c ip) input = true
                /\ (0 < String.length (String c ip))%nat)
    by (split; [exact Hp|simpl; lia]).
  destruct rest as [|d r]; [inversion H; subst; exact Hip|].
  destruct (Ascii.eqb d ".") eqn:Ed; [|inversion H; subst; exact Hip].
  pose proof (span_prefix is_digit r) as Hr.
  destruct (fst (span is_digit r)) as [|f fp] eqn:Ef;
    [inversion H; subst; exact Hip|].
  inversion H. subst txt. split; [|simpl; lia].
  rewrite <- Ha. apply Ascii.eqb_eq in Ed. subst d.
  change (String.prefix (String c ip ++ String "." (String f fp))
                        (String c ip ++ String "." r) = true).
  apply prefix_append. simpl. exact Hr.
Qed.

Lemma match_lower_sound : sound_matcher match_lower.
Proof.
  intros input txt H. unfold match_lower in H.
  pose proof (span_prefix is_lower input) as Hp.
  destruct (fst (span is_lower input)) as [|c s]; [discriminate|].
  inversion H. subst. split; [exact Hp|simpl; lia].
Qed.

Lemma match_char_sound (c : ascii) : sound_matcher (match_char c).
Proof.
  intros input txt H. unfold match_char in H.
  destruct input as [|d r]; [discriminate|].
  destruct (Ascii.eqb c d) eqn:E; [|discriminate].
  inversion H. subst. apply Ascii.eqb_eq in E. subst d. split; [|simpl; lia].
  simpl. destruct (ascii_dec c c); [|congruence]. now destruct r.
Qed.

Lemma first_match_sound (input txt : string) (ty : TokenType) :
  first_match _getMatchers input = Some (txt, ty) ->
  String.prefix txt input = true /\ (0 < String.length txt)%nat.
Proof.
  assert (Hall : Forall (fun m => sound_matcher (fst m)) _getMatchers).
  { unfold _getMatchers.
    repeat (apply Forall_cons;
            [first [apply match_number_sound | apply match_lower_sound
                   | apply match_char_sound]|]).
    apply Forall_nil. }
  induction Hall as [|[m t] ms Hm _ IH]; simpl; [discriminate|].
  destruct (m input) as [s|] eqn:E; [|exact IH].
  intros H. inversion H. subst. exact (Hm input txt E).
Qed.

Lemma make_token_text (txt : string) (ty : TokenType) (fns : list string) :
  text (make_token txt ty fns) = txt.
Proof.
  unfold make_token.
  destruct (_isOperator (if _isIdentifier ty && _isAFunction txt fns
                         then OperatorFunctionCall else ty)); reflexivity.
Qed.

Lemma tokenise_loop_total (fuel : nat) :
  forall input fns out,
    (String.length input < fuel)%nat ->
    tokenise_loop fuel input fns out <> OutOfFuel.
Proof.
  induction fuel as [|fuel IH]; intros input fns out Hlt; [lia|].
  simpl. unfold _nextMatchingToken.
  destruct (first_match _getMatchers input) as [[txt ty]|] eqn:E.
  - destruct (first_match_sound input txt ty E) as [Hp Hn].
    apply IH. rewrite make_token_text.
    pose proof (trim_length (replace_first txt input)).
    pose proof (replace_first_length txt input Hp). lia.
  - destruct (0 <? String.length input)%nat; discriminate.
Qed.

(** The loop of [tokenise] ends: the tokeniser never runs out. *)
Theorem tokenise_total (input : string) (fns : list string) :
  tokenise input fns <> OutOfFuel.
Proof. apply tokenise_loop_total. lia. Qed.

End TokeniserTotal.

Section ParserTotal.
Import Parser.

(** Case analysis on a result of the parser held as a hypothesis. *)
Ltac split_cases :=
  repeat match goal with
    | H : Ok _ = Ok _ |- _ => inversion H; subst; clear H
    | H : Throw _ = Ok _ |- _ => discriminate H
    | H : OutOfFuel = Ok _ |- _ => discriminate H
    | H : context [match nth_error ?t ?i with _ => _ end] |- _ =>
        destruct (nth_error t i) eqn:?
    | H : context [if ?b then _ else _] |- _ => destruct b eqn:?
    | H : context [bindR ?r _] |- _ => destruct r eqn:?; cbn [bindR] in H
    | H : context [match ?x with _ => _ end] |- _ => destruct x eqn:?
    | H : deref ?p = Ok _ |- _ => destruct p; cbn [deref] in H
    end.

(** The bounds the induction hypothesis gives on the results in context. *)
Ltac use_progress IH :=
  repeat match goal with
    | E : parse _ ?j ?t = Ok (Obj ?r) |- _ =>
        generalize (proj1 (IH j t) r E); clear E; intro
    | E : continueParsing _ ?l ?j ?t = Ok (Obj ?r) |- _ =>
        generalize (proj1 (proj2 (IH j t)) l r E); clear E; intro
    | E : nextAsRightOperand _ ?j ?t = Ok ?r |- _ =>
        generalize (proj1 (proj2 (proj2 (IH j t))) r E); clear E; intro
    | E : parseBrackets _ ?j ?t = Ok ?r |- _ =>
        generalize (proj1 (proj2 (proj2 (proj2 (IH j t)))) r E); clear E; intro
    | E : parseFunctionCall _ ?j ?t = Ok ?r |- _ =>
        generalize (proj2 (proj2 (proj2 (proj2 (IH j t)))) r E); clear E; intro
    end.

Lemma parser_progresses : forall fuel, progresses fuel.
Proof.
  induction fuel as [|fuel IH]; intros i tokens.
  - repeat split; intros; discriminate.
  - split; [|split; [|split; [|split]]].
    + intros r H. cbn [parse] in H. split_cases; use_progress IH; simpl in *; lia.
    + intros l r H. cbn [continueParsing] in H.
      unfold buildUnaryExpression in H.
      split_cases; use_progress IH; simpl in *; lia.
    + intros r H. cbn [nextAsRightOperand] in H.
      split_cases; use_progress IH; simpl in *; lia.
    + intros r H. cbn [parseBrackets] in H.
      split_cases; use_progress IH; simpl in *; lia.
    + intros r H. cbn [parseFunctionCall] in H.
      split_cases; use_progress IH; simpl in *; lia.
Qed.

(** Case analysis on a call of the parser standing in the goal. *)
Ltac goal_cases :=
  repeat match goal with
    | |- Ok _ <> OutOfFuel => discriminate
    | |- Throw _ <> OutOfFuel => discriminate
    | |- context [match nth_error ?t ?i with _ => _ end] =>
        destruct (nth_error t i) eqn:?
    | |- context [_nextOperator ?j ?t] => destruct (_nextOperator j t) eqn:?
    | |- context [if ?b then _ else _] => destruct b eqn:?
    | |- context [bindR (parse ?f ?j ?t) _] =>
        destruct (parse f j t) eqn:?; cbn [bindR]
    | |- context [bindR (nextAsRightOperand ?f ?j ?t) _] =>
        destruct (nextAsRightOperand f j t) eqn:?; cbn [bindR]
    | |- context [bindR (parseBrackets ?f ?j ?t) _] =>
        destruct (parseBrackets f j t) eqn:?; cbn [bindR]
    | |- context [bindR (parseFunctionCall ?f ?j ?t) _] =>
        destruct (parseFunctionCall f j t) eqn:?; cbn [bindR]
    | |- context [bindR (Ok _) _] => cbn [bindR]
    | |- context [bindR (Throw _) _] => cbn [bindR]
    | |- context [deref ?p] => destruct p; cbn [deref]
    | |- context [match ?x with _ => _ end] => destruct x eqn:?
    end.

(** Reads of [tokens] and length tests, as inequalities. *)
Ltac index_facts :=
  repeat match goal with
    | E : nth_error ?t ?i = Some _ |- _ =>
        assert (i < List.length t)%nat by (apply nth_error_Some; congruence);
        clear E
    | E : nth_error ?t ?i = None |- _ => apply nth_error_None in E
    | E : (_ <=? _)%nat = true |- _ => apply Nat.leb_le in E
    | E : (_ <=? _)%nat = false |- _ => apply Nat.leb_gt in E
    end.

(** The recursive call that remains, by the induction hypothesis. *)
Ltac use_suffices IH :=
  match goal with
  | E : parse _ ?j ?t = OutOfFuel |- _ =>
      exfalso; revert E; apply (proj1 (IH j t))
  | E : continueParsing _ ?l ?j ?t = OutOfFuel |- _ =>
      exfalso; revert E; apply (proj1 (proj2 (IH j t)))
  | E : nextAsRightOperand _ ?j ?t = OutOfFuel |- _ =>
      exfalso; revert E; apply (proj1 (proj2 (proj2 (IH j t))))
  | E : parseBrackets _ ?j ?t = OutOfFuel |- _ =>
      exfalso; revert E; apply (proj1 (proj2 (proj2 (proj2 (IH j t)))))
  | E : parseFunctionCall _ ?j ?t = OutOfFuel |- _ =>
      exfalso; revert E; apply (proj2 (proj2 (proj2 (proj2 (IH j t)))))
  | |- parse _ ?j ?t <> OutOfFuel => apply (proj1 (IH j t))
  | |- continueParsing _ ?l ?j ?t <> OutOfFuel =>
      apply (proj1 (proj2 (IH j t)))
  | |- nextAsRightOperand _ ?j ?t <> OutOfFuel =>
      apply (proj1 (proj2 (proj2 (IH j t))))
  | |- parseBrackets _ ?j ?t <> OutOfFuel =>
      apply (proj1 (proj2 (proj2 (proj2 (IH j t)))))
  | |- parseFunctionCall _ ?j ?t <> OutOfFuel =>
      apply (proj2 (proj2 (proj2 (proj2 (IH j t)))))
  end.

(** The same bounds as [use_progress], from [parser_progresses]. *)
Ltac progress_facts :=
  repeat match goal with
    | E : parse ?f ?j ?t = Ok (Obj ?r) |- _ =>
        generalize (proj1 (parser_progresses f j t) r E); clear E; intro
    | E : continueParsing ?f ?l ?j ?t = Ok (Obj ?r) |- _ =>
        generalize (proj1 (proj2 (parser_progresses f j t)) l r E); clear E; intro
    | E : nextAsRightOperand ?f ?j ?t = Ok ?r |- _ =>
        generalize (proj1 (proj2 (proj2 (parser_progresses f j t))) r E);
        clear E; intro
    | E : parseBrackets ?f ?j ?t = Ok ?r |- _ =>
        generalize (proj1 (proj2 (proj2 (proj2 (parser_progresses f j t)))) r E);
        clear E; intro
    | E : parseFunctionCall ?f ?j ?t = Ok ?r |- _ =>
        generalize (proj2 (proj2 (proj2 (proj2 (parser_progresses f j t)))) r E);
        clear E; intro
    end.

Ltac finish IH :=
  index_facts; progress_facts; use_suffices IH; simpl in *; intros; lia.

Lemma parser_suffices : forall fuel, suffices fuel.
Proof.
  induction fuel as [|fuel IH]; intros i tokens d.
  - repeat split; intros; subst d; lia.
  - subst d. split; [|split; [|split; [|split]]].
    + intros H0 H1. cbn [parse]. goal_cases; finish IH.
    + intros H1 l. cbn [continueParsing]. unfold buildUnaryExpression.
      goal_cases; finish IH.
    + intros H1. cbn [nextAsRightOperand]. goal_cases; finish IH.
    + intros H1. cbn [parseBrackets]. goal_cases; finish IH.
    + intros H1. cbn [parseFunctionCall]. goal_cases; finish IH.
Qed.

(** [parse_budget] is enough: the parser never runs out on it. *)
Theorem parse_total (tokens : list Token) :
  parse (parse_budget tokens) 0 tokens <> OutOfFuel.
Proof.
  apply (proj1 (parser_suffices (parse_budget tokens) 0 tokens));
    unfold parse_budget; lia.
Qed.

End ParserTotal.

(** ** The depth budget: a result does not depend on it *)

Section FuelMonotone.

Context {host : Host}.
Import SymbolsTableOps ComputeEngine.

Lemma factorialise_mono (n : nat) :
  forall v r, factorialise n v = r -> r <> OutOfFuel ->
  forall m, (n <= m)%nat -> factorialise m v = r.
Proof.
  induction n as [|n IH]; intros v r Hr Hne m Hle.
  - simpl in Hr. congruence.
  - destruct m as [|m]; [lia|].
    simpl in *.
    destruct (PrimFloat.ltb v 0); [exact Hr|].
    destruct (PrimFloat.eqb v 0); [exact Hr|].
    destruct (factorialise n (v - 1)) as [a| e |] eqn:E.
    + rewrite (IH _ _ E) by (try discriminate; lia). exact Hr.
    + rewrite (IH _ _ E) by (try discriminate; lia). exact Hr.
    + simpl in Hr. congruence.
Qed.

Lemma eval_mono (n : nat) :
  forall e st r st', eval n e st = (r, st') -> r <> OutOfFuel ->
  forall m, (n <= m)%nat -> eval m e st = (r, st').
Proof.
  induction n as [|n IH]; intros e st r st' Hr Hne m Hle.
  - simpl in Hr. unfold out_of_fuel in Hr. congruence.
  - destruct m as [|m]; [lia|].
    assert (Hnm : (n <= m)%nat) by lia.
    destruct e as [v | vn | op l r0 | o | f a | b]; simpl in *.
    + exact Hr.
    + exact Hr.
    + unfold bind in *.
      destruct (eval n l st) as [[lv | e | ] st1] eqn:El;
        try (inversion Hr; subst; congruence);
        rewrite (IH _ _ _ _ El) by (try discriminate; assumption);
        [|exact Hr].
      destruct (eval n r0 st1) as [[rv | e | ] st2] eqn:Er;
        try (inversion Hr; subst; congruence);
        rewrite (IH _ _ _ _ Er) by (try discriminate; assumption);
        exact Hr.
    + unfold bind in *.
      destruct (eval n o st) as [[ov | e | ] st1] eqn:Eo;
        try (inversion Hr; subst; congruence);
        rewrite (IH _ _ _ _ Eo) by (try discriminate; assumption);
        [|exact Hr].
      unfold lift in *. inversion Hr; subst.
      f_equal. apply factorialise_mono with (n := n); auto.
    + unfold bind in *.
      destruct (eval n a st) as [[av | e | ] st1] eqn:Ea;
        try (inversion Hr; subst; congruence);
        rewrite (IH _ _ _ _ Ea) by (try discriminate; assumption);
        [|exact Hr].
      destruct (setSymbol "x" (NumberValue av) st1) as [[u | e | ] st2];
        try exact Hr.
      destruct (getCallable f st2) as [[c | e | ] st3]; try exact Hr.
      apply IH with (m := m) in Hr; assumption.
    + exact Hr.
Qed.

Lemma evalString_mono (n : nat) (text : string) (st : SymbolsTable) :
  forall r st', evalString n text st = (r, st') -> r <> OutOfFuel ->
  forall m, (n <= m)%nat -> evalString m text st = (r, st').
Proof.
  intros r st' Hr Hne m Hle. unfold evalString, bind in *.
  destruct (parseText text st) as [[e | e | ] st1]; try exact Hr.
  eapply eval_mono; eauto.
Qed.

Lemma _handleAssignment_mono (n : nat) (l r : string) (st : SymbolsTable) :
  forall res st', _handleAssignment n l r st = (res, st') -> res <> OutOfFuel ->
  forall m, (n <= m)%nat -> _handleAssignment m l r st = (res, st').
Proof.
  intros res st' Hr Hne m Hle. unfold _handleAssignment in *.
  destruct (funcRegExp l); [exact Hr|].
  destruct (varNameRegExp l); [|exact Hr].
  unfold bind in *.
  destruct (evalString n r st) as [[v | e | ] st1] eqn:E;
    try (inversion Hr; subst; congruence);
    rewrite (evalString_mono _ _ _ _ _ E) by (try discriminate; assumption);
    exact Hr.
Qed.

Lemma run_mono (n : nat) (text : string) (st : SymbolsTable) :
  forall r st', run n text st = (r, st') -> r <> OutOfFuel ->
  forall m, (n <= m)%nat -> run m text st = (r, st').
Proof.
  intros r st' Hr Hne m Hle. unfold run in *.
  destruct (JSString.contains "=" text).
  - unfold bind in *.
    destruct (lift (deref (JSString.item (JSString.split "=" text) 0)) st)
      as [[u0 | e | ] st1]; try exact Hr.
    destruct (lift (deref (JSString.item (JSString.split "=" text) 1)) st1)
      as [[u1 | e | ] st2]; try exact Hr.
    eapply _handleAssignment_mono; eauto.
  - unfold bind in *.
    destruct (evalString n text st) as [[v | e | ] st1] eqn:E;
      try (inversion Hr; subst; congruence);
      rewrite (evalString_mono _ _ _ _ _ E) by (try discriminate; assumption);
      exact Hr.
Qed.

(** A budget at which [run] does not run out is enough: a larger one
    changes neither the result nor the table. *)
Lemma run_enough (n : nat) (text : string) (st : SymbolsTable) :
  fst (run n text st) <> OutOfFuel ->
  forall m, (n <= m)%nat -> run m text st = run n text st.
Proof.
  intros Hne m Hle. destruct (run n text st) as [r st'] eqn:E.
  eapply run_mono; eauto.
Qed.

End FuelMonotone.

(** [run] of the text [t] at any budget from [n] on, by running it at [n]. *)
Ltac enough_fuel n t :=
  rewrite (run_enough n t) by (try assumption; vm_compute; discriminate).

Section Examples.

Context {host : Host}.
Import SymbolsTableOps ComputeEngine JSNumber.

(** C1 (amended). On a fresh engine [2+3*4] is 14 and [(2+3)*4] is 20;
    [2^3^2] is parsed with the second power as the right operand of the
    first, 2^(3^2), and is 512. *)
Theorem C1_precedence_examples :
  forall fuel, (5 <= fuel)%nat ->
    fst (run fuel "2+3*4" getDefaultSymbolsTable) = Ok 14%float
    /\ fst (run fuel "(2+3)*4" getDefaultSymbolsTable) = Ok 20%float
    /\ fst (run fuel "2^3^2" getDefaultSymbolsTable) = Ok 512%float
    /\ fst (parseText "2^3^2" getDefaultSymbolsTable)
       = Ok (BinaryExpression "+"
               (BinaryExpression "^" (ConstantExpression 2)
                  (BinaryExpression "+"
                     (BinaryExpression "^" (ConstantExpression 3)
                                           (ConstantExpression 2))
                     (ConstantExpression 0)))
               (ConstantExpression 0)).
Proof.
  intros fuel Hle.
  enough_fuel 5%nat "2+3*4". enough_fuel 5%nat "(2+3)*4". enough_fuel 5%nat "2^3^2".
  vm_compute. repeat split; reflexivity.
Qed.

(** C5. On a fresh engine, after [x=5] the query [x] is 5, and after
    [f(x)=x^2] the query [f(3)] is 9; both assignments return 0. *)
Theorem C5_assignment_round_trip :
  forall fuel, (6 <= fuel)%nat ->
    (let (r, st1) := run fuel "x=5" getDefaultSymbolsTable in
     r = Ok 0%float /\ fst (run fuel "x" st1) = Ok 5%float)
    /\
    (let (r, st1) := run fuel "f(x)=x^2" getDefaultSymbolsTable in
     r = Ok 0%float /\ fst (run fuel "f(3)" st1) = Ok 9%float).
Proof.
  intros fuel Hle.
  enough_fuel 6%nat "x=5". enough_fuel 6%nat "f(x)=x^2".
  destruct (run 6 "x=5" getDefaultSymbolsTable) as [r1 s1] eqn:E1.
  destruct (run 6 "f(x)=x^2" getDefaultSymbolsTable) as [r2 s2] eqn:E2.
  vm_compute in E1, E2.
  inversion E1; subst r1 s1. inversion E2; subst r2 s2.
  enough_fuel 6%nat "x". enough_fuel 6%nat "f(3)".
  vm_compute. repeat split; reflexivity.
Qed.

(** C8. On a fresh engine [5!] is 120, [0!] is 1, and [(-3)!] returns
    the number -1: a value, not a throw. *)
Theorem C8_factorial_examples :
  forall fuel, (8 <= fuel)%nat ->
    fst (run fuel "5!" getDefaultSymbolsTable) = Ok 120%float
    /\ fst (run fuel "0!" getDefaultSymbolsTable) = Ok 1%float
    /\ fst (run fuel "(-3)!" getDefaultSymbolsTable) = Ok (-1)%float.
Proof.
  intros fuel Hle.
  enough_fuel 8%nat "5!". enough_fuel 8%nat "0!". enough_fuel 8%nat "(-3)!".
  vm_compute. repeat split; reflexivity.
Qed.

(** C6. A division node whose operands evaluate to [lv] and [rv] throws
    "Cannot divide by zero." exactly when [|rv| < 0.00000001], and is the
    quotient [lv / rv] otherwise. On a fresh engine [1/0.000000001]
    throws that error, of class ArithmeticError, and [1/0.0001] is
    10000. *)
Theorem C6_division_guard :
  (forall fuel l r st lv st1 rv st2,
      eval fuel l st = (Ok lv, st1) ->
      eval fuel r st1 = (Ok rv, st2) ->
      eval (S fuel) (BinaryExpression "/" l r) st
      = (if PrimFloat.ltb (abs rv) epsilon
         then Throw CannotDivideByZero else Ok (lv / rv)%float, st2))
  /\ epsilon = parseFloat "0.00000001"
  /\ taxonomy CannotDivideByZero = Some ArithmeticError
  /\ (forall fuel, (3 <= fuel)%nat ->
        fst (run fuel "1/0.000000001" getDefaultSymbolsTable)
        = Throw CannotDivideByZero
        /\ fst (run fuel "1/0.0001" getDefaultSymbolsTable) = Ok 10000%float).
Proof.
  split; [|split; [|split]].
  - intros fuel l r st lv st1 rv st2 Hl Hr.
    simpl. unfold bind. rewrite Hl, Hr. reflexivity.
  - vm_compute. reflexivity.
  - reflexivity.
  - intros fuel Hle.
    enough_fuel 3%nat "1/0.000000001". enough_fuel 3%nat "1/0.0001".
    vm_compute. split; reflexivity.
Qed.

End Examples.

(** ** The symbol table under [setSymbol] *)

Section TableLemmas.

Import SymbolsTableOps.

Context {A : Type}.

Lemma setEach_names (n : string) (x : A) (entries : list (Variable_ A)) :
  map name (fst (fst (setEach n x entries))) = map name entries.
Proof.
  induction entries as [|v rest IH]; simpl; [reflexivity|].
  destruct (String.eqb (name v) n).
  - unfold setTo. destruct (isFinal v); simpl; [reflexivity|].
    destruct (setEach n x rest) as [[rest' ex] err]. simpl in *.
    now rewrite IH.
  - destruct (setEach n x rest) as [[rest' ex] err]. simpl in *.
    now rewrite IH.
Qed.

Lemma setEach_finals (n : string) (x : A) (entries : list (Variable_ A)) :
  map isFinal (fst (fst (setEach n x entries))) = map isFinal entries.
Proof.
  induction entries as [|v rest IH]; simpl; [reflexivity|].
  destruct (String.eqb (name v) n).
  - unfold setTo. destruct (isFinal v) eqn:F; simpl; [now rewrite F|].
    destruct (setEach n x rest) as [[rest' ex] err]. simpl in *.
    now rewrite IH.
  - destruct (setEach n x rest) as [[rest' ex] err]. simpl in *.
    now rewrite IH.
Qed.

Lemma setEach_exists (n : string) (x : A) (entries : list (Variable_ A)) :
  snd (fst (setEach n x entries)) = stored n entries.
Proof.
  induction entries as [|v rest IH]; simpl; [reflexivity|].
  destruct (String.eqb (name v) n); simpl.
  - unfold setTo. destruct (isFinal v); simpl; [reflexivity|].
    destruct (setEach n x rest) as [[rest' ex] err]. reflexivity.
  - destruct (setEach n x rest) as [[rest' ex] err]. simpl in *. exact IH.
Qed.

Lemma setEach_error (n : string) (x : A) (entries : list (Variable_ A)) :
  snd (setEach n x entries)
  = if blocked n entries then Some (CannotModify n) else None.
Proof.
  induction entries as [|v rest IH]; simpl; [reflexivity|].
  destruct (String.eqb (name v) n) eqn:E; simpl.
  - unfold setTo. destruct (isFinal v); simpl.
    + apply String.eqb_eq in E. now rewrite E.
    + destruct (setEach n x rest) as [[rest' ex] err]. simpl in *. exact IH.
  - destruct (setEach n x rest) as [[rest' ex] err]. simpl in *. exact IH.
Qed.

Lemma setEach_others (n : string) (x : A) (entries : list (Variable_ A)) :
  others_than n (fst (fst (setEach n x entries))) = others_than n entries.
Proof.
  induction entries as [|v rest IH]; simpl; [reflexivity|].
  destruct (String.eqb (name v) n) eqn:E; simpl.
  - unfold setTo. destruct (isFinal v); simpl.
    + now rewrite E.
    + destruct (setEach n x rest) as [[rest' ex] err]. simpl in *.
      now rewrite E.
  - destruct (setEach n x rest) as [[rest' ex] err]. simpl in *.
    rewrite E. simpl. now rewrite IH.
Qed.

(** After a visit that did not throw, every entry named [n] holds the new
    value. *)
Lemma setEach_values (n : string) (x : A) (entries : list (Variable_ A)) :
  snd (setEach n x entries) = None ->
  Forall (fun v => value v = x)
         (filter (name_is (NameText n)) (fst (fst (setEach n x entries)))).
Proof.
  induction entries as [|v rest IH]; simpl; intros Hnone; [constructor|].
  destruct (String.eqb (name v) n) eqn:E; simpl in *.
  - unfold setTo in *. destruct (isFinal v); simpl in *; [discriminate|].
    destruct (setEach n x rest) as [[rest' ex] err]. simpl in *.
    rewrite E. constructor; [reflexivity|]. apply IH. exact Hnone.
  - destruct (setEach n x rest) as [[rest' ex] err]. simpl in *.
    rewrite E. apply IH. exact Hnone.
Qed.

Lemma name_is_others (m n : string) (entries : list (Variable_ A)) :
  m <> n ->
  filter (name_is (NameText m)) (others_than n entries)
  = filter (name_is (NameText m)) entries.
Proof.
  intros Hmn. induction entries as [|v rest IH]; simpl; [reflexivity|].
  destruct (String.eqb (name v) n) eqn:E; simpl.
  - apply String.eqb_eq in E.
    destruct (String.eqb (name v) m) eqn:E'; [|exact IH].
    apply String.eqb_eq in E'. congruence.
  - now rewrite IH.
Qed.

(** [setIn], as a whole. *)
Lemma setIn_error (n : string) (x : A) (entries : list (Variable_ A)) :
  snd (setIn n x entries)
  = if blocked n entries then Some (CannotModify n) else None.
Proof.
  unfold setIn. pose proof (setEach_error n x entries) as He.
  destruct (setEach n x entries) as [[es ex] err]. simpl in *.
  destruct err as [e|], ex; simpl; exact He.
Qed.

Lemma setIn_others (n : string) (x : A) (entries : list (Variable_ A)) :
  others_than n (fst (setIn n x entries)) = others_than n entries.
Proof.
  unfold setIn. pose proof (setEach_others n x entries) as Ho.
  destruct (setEach n x entries) as [[es ex] err]. simpl in *.
  destruct err as [e|], ex; simpl; try exact Ho.
  unfold others_than in *. rewrite filter_app. simpl.
  rewrite String.eqb_refl. simpl. now rewrite app_nil_r.
Qed.

Lemma setIn_other_name (m n : string) (x : A) (entries : list (Variable_ A)) :
  m <> n ->
  filter (name_is (NameText m)) (fst (setIn n x entries))
  = filter (name_is (NameText m)) entries.
Proof.
  intros Hmn.
  rewrite <- (name_is_others m n (fst (setIn n x entries)) Hmn).
  rewrite setIn_others. now apply name_is_others.
Qed.

(** After a [setSymbol] that did not throw, the first entry named [n]
    exists and holds the new value. *)
Lemma setIn_first (n : string) (x : A) (entries : list (Variable_ A)) :
  snd (setIn n x entries) = None ->
  exists v rest,
    filter (name_is (NameText n)) (fst (setIn n x entries)) = v :: rest
    /\ value v = x.
Proof.
  unfold setIn.
  pose proof (setEach_values n x entries) as Hv.
  pose proof (setEach_exists n x entries) as Hex.
  pose proof (setEach_names n x entries) as Hn.
  destruct (setEach n x entries) as [[es ex] err]. simpl in *.
  destruct err as [e|]; [destruct ex; simpl; discriminate|]. intros _.
  specialize (Hv eq_refl).
  destruct ex; simpl.
  - destruct (filter (name_is (NameText n)) es) as [|v rest] eqn:F.
    + exfalso. symmetry in Hex. unfold stored in Hex.
      apply existsb_exists in Hex. destruct Hex as [w [Hin Hw]].
      assert (Hin' : In (name w) (map name es))
        by (rewrite Hn; now apply in_map).
      apply in_map_iff in Hin'. destruct Hin' as [w' [Hw' Hin']].
      assert (Hf : In w' (filter (name_is (NameText n)) es)).
      { apply filter_In. split; [exact Hin'|]. simpl. now rewrite Hw'. }
      rewrite F in Hf. exact Hf.
    + exists v, rest. split; [reflexivity|]. now inversion Hv.
  - rewrite filter_app. simpl. rewrite String.eqb_refl.
    destruct (filter (name_is (NameText n)) es) as [|v rest] eqn:F; simpl.
    + eexists _, _. split; reflexivity.
    + exists v, (rest ++ [mkVariable n x false]). split; [reflexivity|].
      now inversion Hv.
Qed.

Lemma setIn_names_blocked (m n : string) (x : A) (entries : list (Variable_ A)) :
  blocked m (fst (setIn n x entries)) = blocked m entries.
Proof.
  assert (Hgen : forall es es' : list (Variable_ A),
             map name es' = map name es -> map isFinal es' = map isFinal es ->
             blocked m es' = blocked m es).
  { unfold blocked.
    induction es as [|v r IH]; intros [|v' r'] Hn Hf; simpl in *;
      try discriminate; [reflexivity|].
    inversion Hn as [[Hn1 Hn2]]. inversion Hf as [[Hf1 Hf2]].
    now rewrite Hn1, Hf1, (IH _ Hn2 Hf2). }
  unfold setIn.
  pose proof (setEach_names n x entries) as Hn.
  pose proof (setEach_finals n x entries) as Hf.
  destruct (setEach n x entries) as [[es ex] err]. simpl in *.
  destruct err as [e|], ex; simpl; try (now apply Hgen).
  unfold blocked. rewrite existsb_app. simpl.
  rewrite andb_false_r, !orb_false_r. now apply Hgen.
Qed.

Lemma setIn_stored (m n : string) (x : A) (entries : list (Variable_ A)) :
  stored m entries = true -> stored m (fst (setIn n x entries)) = true.
Proof.
  assert (Hgen : forall es es' : list (Variable_ A),
             map name es' = map name es -> stored m es' = stored m es).
  { unfold stored.
    induction es as [|v r IH]; intros [|v' r'] Hn; simpl in *;
      try discriminate; [reflexivity|].
    inversion Hn as [[Hn1 Hn2]]. now rewrite Hn1, (IH _ Hn2). }
  unfold setIn.
  pose proof (setEach_names n x entries) as Hn.
  destruct (setEach n x entries) as [[es ex] err]. simpl in *.
  intros Hs. rewrite <- (Hgen _ _ Hn) in Hs.
  destruct err as [e|], ex; simpl; try exact Hs.
  unfold stored in *. rewrite existsb_app, Hs. reflexivity.
Qed.

End TableLemmas.

(** ** What evaluation leaves of the table *)

Section EvalLemmas.

Context {host : Host}.
Import SymbolsTableOps ComputeEngine.

Lemma setSymbol_number (n : string) (x : float) (st : SymbolsTable) :
  setSymbol n (NumberValue x) st
  = (match snd (setIn n x (variables st)) with
     | Some e => Throw e
     | None => Ok tt
     end,
     mkSymbolsTable (fst (setIn n x (variables st))) (callables st)).
Proof.
  unfold setSymbol. destruct (setIn n x (variables st)). reflexivity.
Qed.

Lemma setSymbol_expression (n : string) (e : Expression) (st : SymbolsTable) :
  setSymbol n (ExpressionValue e) st
  = (match snd (setIn n e (callables st)) with
     | Some er => Throw er
     | None => Ok tt
     end,
     mkSymbolsTable (variables st) (fst (setIn n e (callables st)))).
Proof.
  unfold setSymbol. destruct (setIn n e (callables st)). reflexivity.
Qed.

Lemma getVariable_state (n : VarName) (st : SymbolsTable) :
  snd (getVariable n st) = st.
Proof.
  unfold getVariable. now destruct (filter (name_is n) (variables st)).
Qed.

Lemma getCallable_state (n : string) (st : SymbolsTable) :
  snd (getCallable n st) = st.
Proof.
  unfold getCallable.
  now destruct (filter (name_is (NameText n)) (callables st)).
Qed.

Lemma parseText_state (text : string) (st : SymbolsTable) :
  snd (parseText text st) = st.
Proof. reflexivity. Qed.

(** Evaluation writes the argument slot [x] and nothing else. *)
Lemma eval_preserves (fuel : nat) :
  forall e st r st',
    eval fuel e st = (r, st') ->
    callables st' = callables st
    /\ others_than "x" (variables st') = others_than "x" (variables st).
Proof.
  induction fuel as [|fuel IH]; intros e st r st' He.
  - inversion He. subst. split; reflexivity.
  - destruct e as [v | vn | op l r0 | o | f a | b]; simpl in He.
    + inversion He. subst. split; reflexivity.
    + unfold bind in He. pose proof (getVariable_state vn st) as Hs.
      destruct (getVariable vn st) as [[s | e | ] st1]; simpl in Hs;
        inversion He; subst; split; reflexivity.
    + unfold bind in He.
      destruct (eval fuel l st) as [[lv | e | ] st1] eqn:El;
        try (inversion He; subst; now apply (IH _ _ _ _ El)).
      destruct (IH _ _ _ _ El) as [Hc1 Ho1].
      destruct (eval fuel r0 st1) as [[rv | e | ] st2] eqn:Er;
        destruct (IH _ _ _ _ Er) as [Hc2 Ho2];
        inversion He; subst; split; congruence.
    + unfold bind in He.
      destruct (eval fuel o st) as [[ov | e | ] st1] eqn:Eo;
        inversion He; subst; now apply (IH _ _ _ _ Eo).
    + unfold bind in He.
      destruct (eval fuel a st) as [[av | e | ] st1] eqn:Ea;
        try (inversion He; subst; now apply (IH _ _ _ _ Ea)).
      destruct (IH _ _ _ _ Ea) as [Hc1 Ho1].
      rewrite setSymbol_number in He.
      set (st2 := mkSymbolsTable (fst (setIn "x" av (variables st1))) (callables st1)) in *.
      assert (H2 : callables st2 = callables st
                   /\ others_than "x" (variables st2) = others_than "x" (variables st)).
      { split; [exact Hc1|]. simpl. rewrite setIn_others. exact Ho1. }
      destruct (snd (setIn "x" av (variables st1))) as [er|];
        [inversion He; subst; exact H2|].
      pose proof (getCallable_state f st2) as Hs.
      destruct (getCallable f st2) as [[c | e | ] st3]; simpl in Hs; subst st3;
        try (inversion He; subst; exact H2).
      destruct (IH _ _ _ _ He) as [Hc3 Ho3]. destruct H2. split; congruence.
    + unfold getXValue, bind in He.
      pose proof (getVariable_state (NameText "x") st) as Hs.
      destruct (getVariable (NameText "x") st) as [[s | e | ] st1]; simpl in Hs;
        inversion He; subst; split; reflexivity.
Qed.

Lemma evalString_preserves (fuel : nat) (text : string) (st : SymbolsTable) :
  forall r st',
    evalString fuel text st = (r, st') ->
    callables st' = callables st
    /\ others_than "x" (variables st') = others_than "x" (variables st).
Proof.
  intros r st' He. unfold evalString, bind in He.
  pose proof (parseText_state text st) as Hs.
  destruct (parseText text st) as [[e | e | ] st1]; simpl in Hs; subst st1;
    try (inversion He; subst; split; reflexivity).
  eapply eval_preserves; eauto.
Qed.

(** The anatomy of a plain query that succeeds. *)
Lemma run_plain_ok (fuel : nat) (text : string) (st st' : SymbolsTable) (r : float) :
  JSString.contains "=" text = false ->
  run fuel text st = (Ok r, st') ->
  exists st1 a,
    evalString fuel text st = (Ok r, st1)
    /\ getVariable (NameText "ans") st1 = (Ok a, st1)
    /\ snd (setIn "preans" (asNumber a) (variables st1)) = None
    /\ snd (setIn "ans" r (fst (setIn "preans" (asNumber a) (variables st1)))) = None
    /\ variables st'
       = fst (setIn "ans" r (fst (setIn "preans" (asNumber a) (variables st1))))
    /\ callables st' = callables st1.
Proof.
  intros Hplain Hrun. unfold run in Hrun. rewrite Hplain in Hrun.
  unfold bind in Hrun.
  destruct (evalString fuel text st) as [[v | e | ] st1] eqn:Ee; try discriminate.
  pose proof (getVariable_state (NameText "ans") st1) as Hs.
  destruct (getVariable (NameText "ans") st1) as [[a | e | ] st1'] eqn:Ea;
    simpl in Hs; subst st1'; try discriminate.
  rewrite setSymbol_number in Hrun.
  destruct (snd (setIn "preans" (asNumber a) (variables st1))) eqn:E1; try discriminate.
  rewrite setSymbol_number in Hrun. simpl in Hrun.
  destruct (snd (setIn "ans" v (fst (setIn "preans" (asNumber a) (variables st1)))))
    eqn:E2; try discriminate.
  unfold ret in Hrun. inversion Hrun. subst.
  exists st1, a. repeat split; auto.
Qed.

End EvalLemmas.

(** ** History *)

Section History.

Context {host : Host}.
Import SymbolsTableOps ComputeEngine.

(** C4. When a plain query returns [r], the table held a variable [ans]
    before the call; after the call [preans] holds the number [ans] held
    before, and [ans] holds [r]. On a fresh engine [3+3] returns 6 and
    [ans*2], run next, returns 12. *)
Theorem C4_history_roll :
  (forall fuel text st st' r,
      JSString.contains "=" text = false ->
      run fuel text st = (Ok r, st') ->
      exists old_ans new_preans new_ans,
        getVariable (NameText "ans") st = (Ok old_ans, st)
        /\ getVariable (NameText "preans") st' = (Ok new_preans, st')
        /\ asNumber new_preans = asNumber old_ans
        /\ getVariable (NameText "ans") st' = (Ok new_ans, st')
        /\ asNumber new_ans = r)
  /\ (forall fuel, (3 <= fuel)%nat ->
        let (r1, st1) := run fuel "3+3" getDefaultSymbolsTable in
        r1 = Ok 6%float /\ fst (run fuel "ans*2" st1) = Ok 12%float).
Proof.
  split.
  - intros fuel text st st' r Hplain Hrun.
    destruct (run_plain_ok _ _ _ _ _ Hplain Hrun)
      as (st1 & a & He & Ha & Hp & Hq & Hv & Hc).
    destruct (evalString_preserves _ _ _ _ _ He) as [_ Ho].
    assert (Hans : filter (name_is (NameText "ans")) (variables st1)
                   = filter (name_is (NameText "ans")) (variables st)).
    { rewrite <- (name_is_others "ans" "x") by discriminate.
      rewrite Ho. apply name_is_others. discriminate. }
    destruct (setIn_first "preans" (asNumber a) (variables st1) Hp)
      as (p & prest & Hpf & Hpv).
    destruct (setIn_first "ans" r _ Hq) as (n & nrest & Hnf & Hnv).
    exists a, p, n. repeat split.
    + unfold getVariable in *. rewrite <- Hans.
      destruct (filter (name_is (NameText "ans")) (variables st1));
        inversion Ha; subst; reflexivity.
    + unfold getVariable. rewrite Hv.
      rewrite setIn_other_name by discriminate. now rewrite Hpf.
    + exact Hpv.
    + unfold getVariable. rewrite Hv. now rewrite Hnf.
    + exact Hnv.
  - intros fuel Hle.
    enough_fuel 3%nat "3+3".
    destruct (run 3 "3+3" getDefaultSymbolsTable) as [r1 s1] eqn:E1.
    vm_compute in E1. inversion E1; subst r1 s1.
    enough_fuel 3%nat "ans*2".
    vm_compute. split; reflexivity.
Qed.

End History.

(** ** Repeating a plain query *)

Section Repeat.

Context {host : Host}.
Import SymbolsTableOps ComputeEngine.

Lemma filter_stored {A : Type} (n : string) (entries : list (Variable_ A)) :
  stored n entries = negb (match filter (name_is (NameText n)) entries with
                           | [] => true
                           | _ => false
                           end).
Proof.
  induction entries as [|v rest IH]; simpl; [reflexivity|].
  destruct (String.eqb (name v) n); simpl; [reflexivity|exact IH].
Qed.

Lemma setIn_stored_other {A : Type} (m n : string) (x : A)
      (entries : list (Variable_ A)) :
  m <> n -> stored m (fst (setIn n x entries)) = stored m entries.
Proof.
  intros Hmn. rewrite !filter_stored. now rewrite setIn_other_name.
Qed.

Lemma eval_pure (fuel : nat) :
  forall e st, calls_function e = false -> snd (eval fuel e st) = st.
Proof.
  induction fuel as [|fuel IH]; intros e st Hc; [reflexivity|].
  destruct e as [v | vn | op l r0 | o | f a | b]; simpl in *.
  - reflexivity.
  - unfold bind. pose proof (getVariable_state vn st) as Hs.
    destruct (getVariable vn st) as [[s | e | ] st1]; exact Hs.
  - apply orb_false_iff in Hc. destruct Hc as [Hl Hr]. unfold bind.
    pose proof (IH l st Hl) as H1.
    destruct (eval fuel l st) as [[lv | e | ] st1]; simpl in H1; subst st1;
      try reflexivity.
    pose proof (IH r0 st Hr) as H2.
    destruct (eval fuel r0 st) as [[rv | e | ] st2]; simpl in H2; subst st2;
      reflexivity.
  - unfold bind. pose proof (IH o st Hc) as H1.
    destruct (eval fuel o st) as [[ov | e | ] st1]; simpl in H1; subst st1;
      reflexivity.
  - discriminate.
  - unfold getXValue, bind.
    pose proof (getVariable_state (NameText "x") st) as Hs.
    destruct (getVariable (NameText "x") st) as [[s | e | ] st1]; exact Hs.
Qed.

Lemma getVariable_agree (vn : VarName) (st st' : SymbolsTable) :
  filter (name_is vn) (variables st) = filter (name_is vn) (variables st') ->
  fst (getVariable vn st) = fst (getVariable vn st').
Proof.
  intros H. unfold getVariable. rewrite H.
  now destruct (filter (name_is vn) (variables st')).
Qed.

Lemma filter_token {A : Type} (t : Token) (entries : list (Variable_ A)) :
  filter (name_is (NameToken t)) entries = [].
Proof. induction entries; simpl; auto. Qed.

(** The value of an expression that calls no function depends on the
    variables it mentions, and on nothing else of the table. *)
Lemma eval_agree (fuel : nat) :
  forall e st st',
    calls_function e = false ->
    (forall m, mentions m e = true ->
               filter (name_is (NameText m)) (variables st)
               = filter (name_is (NameText m)) (variables st')) ->
    fst (eval fuel e st) = fst (eval fuel e st').
Proof.
  induction fuel as [|fuel IH]; intros e st st' Hc Hm; [reflexivity|].
  destruct e as [v | vn | op l r0 | o | f a | b]; simpl in *.
  - reflexivity.
  - assert (Hg : fst (getVariable vn st) = fst (getVariable vn st')).
    { apply getVariable_agree. destruct vn as [s|t].
      - apply Hm. apply String.eqb_refl.
      - now rewrite !filter_token. }
    unfold bind.
    destruct (getVariable vn st) as [[s | e | ] st1];
      destruct (getVariable vn st') as [[s' | e' | ] st1'];
      simpl in Hg; try discriminate; inversion Hg; reflexivity.
  - apply orb_false_iff in Hc. destruct Hc as [Hl Hr]. unfold bind.
    assert (H1 : fst (eval fuel l st) = fst (eval fuel l st')).
    { apply IH; auto. intros m Hmm. apply Hm. now rewrite Hmm. }
    assert (H2 : fst (eval fuel r0 st) = fst (eval fuel r0 st')).
    { apply IH; auto. intros m Hmm. apply Hm. rewrite Hmm. apply orb_true_r. }
    pose proof (eval_pure fuel l st Hl) as P1.
    pose proof (eval_pure fuel l st' Hl) as P1'.
    destruct (eval fuel l st) as [[lv | e | ] st1];
      destruct (eval fuel l st') as [[lv' | e' | ] st1'];
      simpl in *; try discriminate; try exact H1.
    subst st1 st1'. inversion H1; subst lv'.
    destruct (eval fuel r0 st) as [[rv | e | ] st2];
      destruct (eval fuel r0 st') as [[rv' | e' | ] st2'];
      simpl in *; try discriminate; inversion H2; reflexivity.
  - unfold bind.
    assert (H1 : fst (eval fuel o st) = fst (eval fuel o st')) by (apply IH; auto).
    destruct (eval fuel o st) as [[ov | e | ] st1];
      destruct (eval fuel o st') as [[ov' | e' | ] st1'];
      simpl in *; try discriminate; inversion H1; reflexivity.
  - discriminate.
  - assert (Hg : fst (getVariable (NameText "x") st)
                 = fst (getVariable (NameText "x") st')).
    { apply getVariable_agree. apply Hm. reflexivity. }
    unfold getXValue, bind.
    destruct (getVariable (NameText "x") st) as [[s | e | ] st1];
      destruct (getVariable (NameText "x") st') as [[s' | e' | ] st1'];
      simpl in Hg; try discriminate; inversion Hg; reflexivity.
Qed.

Lemma parseText_callables (text : string) (st st' : SymbolsTable) :
  callables st = callables st' ->
  fst (parseText text st) = fst (parseText text st').
Proof. intros H. unfold parseText. simpl. now rewrite H. Qed.

(** A plain query whose expression calls no function: the result of
    [run], and what the table after it has in common with the table
    before. *)
Lemma run_plain_pure (fuel : nat) (text : string) (st : SymbolsTable) (e : Expression) :
  JSString.contains "=" text = false ->
  fst (parseText text st) = Ok e ->
  calls_function e = false ->
  fst (run fuel text st) = roll_outcome (variables st) (fst (eval fuel e st))
  /\ callables (snd (run fuel text st)) = callables st
  /\ (forall m, m <> "ans" -> m <> "preans" ->
        filter (name_is (NameText m)) (variables (snd (run fuel text st)))
        = filter (name_is (NameText m)) (variables st))
  /\ (forall m, blocked m (variables (snd (run fuel text st)))
                = blocked m (variables st))
  /\ stored "ans" (variables (snd (run fuel text st))) = stored "ans" (variables st).
Proof.
  intros Hplain Hparse Hc.
  unfold run. rewrite Hplain. unfold evalString, bind.
  pose proof (parseText_state text st) as Hs.
  destruct (parseText text st) as [[e' | er | ] st0]; simpl in Hs, Hparse;
    subst st0; try discriminate.
  inversion Hparse; subst e'. clear Hparse.
  pose proof (eval_pure fuel e st Hc) as Hp.
  destruct (eval fuel e st) as [[v | er | ] st1]; simpl in Hp; subst st1;
    cbn [fst snd roll_outcome]; try (repeat split; reflexivity).
  unfold getVariable.
  pose proof (filter_stored "ans" (variables st)) as Hstored.
  destruct (filter (name_is (NameText "ans")) (variables st)) as [|a rest];
    simpl in Hstored; cbn [fst snd]; rewrite ?Hstored; [repeat split; reflexivity|].
  rewrite setSymbol_number. rewrite setIn_error.
  destruct (blocked "preans" (variables st)) eqn:Bp; cbn [fst snd variables callables].
  - repeat split.
    + intros m Ha Hq. now apply setIn_other_name.
    + intros m. apply setIn_names_blocked.
    + rewrite setIn_stored_other by discriminate. exact Hstored.
  - rewrite setSymbol_number. cbn [fst snd variables callables]. rewrite setIn_error.
    rewrite setIn_names_blocked.
    assert (Hst :
               (forall m, m <> "ans" -> m <> "preans" ->
                  filter (name_is (NameText m))
                    (fst (setIn "ans" v (fst (setIn "preans" (asNumber a) (variables st)))))
                  = filter (name_is (NameText m)) (variables st))
               /\ (forall m,
                  blocked m (fst (setIn "ans" v (fst (setIn "preans" (asNumber a) (variables st)))))
                  = blocked m (variables st))
               /\ stored "ans"
                    (fst (setIn "ans" v (fst (setIn "preans" (asNumber a) (variables st)))))
                  = true).
    { repeat split.
      - intros m Ha Hq. rewrite setIn_other_name by assumption.
        now apply setIn_other_name.
      - intros m. now rewrite !setIn_names_blocked.
      - apply setIn_stored. rewrite setIn_stored_other by discriminate.
        exact Hstored. }
    destruct Hst as (H1 & H2 & H3).
    destruct (blocked "ans" (variables st)); cbn [fst snd variables callables];
     repeat split; auto.
Qed.

End Repeat.

Section RepeatClaim.

Context {host : Host}.
Import SymbolsTableOps ComputeEngine.

Lemma mentions_other (m n : string) (e : Expression) :
  mentions n e = false -> mentions m e = true -> m <> n.
Proof. intros Hn Hm Heq. subst m. congruence. Qed.

(** C3 (amended). A plain query whose expression mentions neither [ans]
    nor [preans] and calls no function gives, run twice in succession,
    the same result both times (the same number, or the same failure). *)
Theorem C3_repeat_query :
  forall fuel text st e,
    JSString.contains "=" text = false ->
    fst (parseText text st) = Ok e ->
    calls_function e = false ->
    mentions "ans" e = false ->
    mentions "preans" e = false ->
    fst (run fuel text (snd (run fuel text st))) = fst (run fuel text st).
Proof.
  intros fuel text st e Hplain Hparse Hc Ha Hp.
  destruct (run_plain_pure fuel text st e Hplain Hparse Hc)
    as (R1 & C1 & L1 & B1 & S1).
  set (st1 := snd (run fuel text st)) in *.
  assert (Hparse1 : fst (parseText text st1) = Ok e).
  { rewrite (parseText_callables text st1 st C1). exact Hparse. }
  destruct (run_plain_pure fuel text st1 e Hplain Hparse1 Hc) as (R2 & _).
  rewrite R2, R1.
  rewrite (eval_agree fuel e st1 st Hc).
  - unfold roll_outcome. now rewrite S1, !B1.
  - intros m Hm. apply L1; eapply mentions_other; eauto.
Qed.

End RepeatClaim.

(** ** Assignments that fail *)

Section Atomicity.

Import SymbolsTableOps.

Lemma stored_names {A : Type} (n : string) (entries : list (Variable_ A)) :
  stored n entries = existsb (String.eqb n) (map name entries).
Proof.
  induction entries as [|v rest IH]; simpl; [reflexivity|].
  now rewrite IH, (String.eqb_sym (name v) n).
Qed.

Lemma setEach_absent {A : Type} (n : string) (x : A) (entries : list (Variable_ A)) :
  stored n entries = false -> setEach n x entries = (entries, false, None).
Proof.
  induction entries as [|v rest IH]; simpl; intros Hs; [reflexivity|].
  apply orb_false_iff in Hs. destruct Hs as [Hv Hr].
  rewrite Hv, (IH Hr). reflexivity.
Qed.

(** With distinct names a [setSymbol] that throws has changed nothing. *)
Lemma setEach_atomic {A : Type} (n : string) (x : A) (entries : list (Variable_ A)) :
  distinct (map name entries) = true ->
  forall e, snd (setEach n x entries) = Some e ->
  fst (fst (setEach n x entries)) = entries.
Proof.
  induction entries as [|v rest IH]; simpl; intros Hd e He; [reflexivity|].
  apply andb_true_iff in Hd. destruct Hd as [Hv Hr].
  destruct (String.eqb (name v) n) eqn:E.
  - unfold setTo in *. destruct (isFinal v); simpl in *; [reflexivity|].
    apply String.eqb_eq in E. subst n.
    rewrite setEach_absent in He |- *;
      try (rewrite stored_names; now apply negb_true_iff in Hv).
    discriminate.
  - specialize (IH Hr e).
    destruct (setEach n x rest) as [[rest' ex] err]. simpl in *.
    now rewrite IH.
Qed.

Lemma setIn_atomic {A : Type} (n : string) (x : A) (entries : list (Variable_ A)) :
  distinct (map name entries) = true ->
  forall e, snd (setIn n x entries) = Some e ->
  fst (setIn n x entries) = entries.
Proof.
  intros Hd e He. unfold setIn in *.
  pose proof (setEach_atomic n x entries Hd) as Ha.
  destruct (setEach n x entries) as [[es ex] err]. simpl in *.
  destruct err as [er|], ex; simpl in *; try discriminate; now apply (Ha er).
Qed.

Lemma distinct_snoc (l : list string) (n : string) :
  distinct (l ++ [n]) = distinct l && negb (existsb (String.eqb n) l).
Proof.
  induction l as [|y r IH]; simpl; [reflexivity|].
  rewrite IH, existsb_app. simpl. rewrite orb_false_r.
  rewrite (String.eqb_sym n y).
  destruct (existsb (String.eqb y) r), (String.eqb y n), (distinct r),
    (existsb (String.eqb n) r); reflexivity.
Qed.

Lemma setIn_distinct {A : Type} (n : string) (x : A) (entries : list (Variable_ A)) :
  distinct (map name entries) = true ->
  distinct (map name (fst (setIn n x entries))) = true.
Proof.
  intros Hd. unfold setIn.
  pose proof (setEach_names n x entries) as Hn.
  pose proof (setEach_exists n x entries) as Hex.
  destruct (setEach n x entries) as [[es ex] err]. simpl in *.
  destruct err as [er|], ex; simpl; try (now rewrite Hn).
  rewrite map_app. simpl. rewrite distinct_snoc, Hn, Hd. simpl.
  rewrite <- stored_names, <- Hex. reflexivity.
Qed.

End Atomicity.

Section FailedAssignment.

Context {host : Host}.
Import SymbolsTableOps ComputeEngine JSNumber.

Lemma eval_distinct (fuel : nat) :
  forall e st,
    distinct (map name (variables st)) = true ->
    distinct (map name (variables (snd (eval fuel e st)))) = true.
Proof.
  induction fuel as [|fuel IH]; intros e st Hd; [exact Hd|].
  destruct e as [v | vn | op l r0 | o | f a | b]; simpl.
  - exact Hd.
  - unfold bind. pose proof (getVariable_state vn st) as Hs.
    destruct (getVariable vn st) as [[s | e | ] st1]; simpl in *; now subst.
  - unfold bind. pose proof (IH l st Hd) as H1.
    destruct (eval fuel l st) as [[lv | e | ] st1]; simpl in *; try exact H1.
    pose proof (IH r0 st1 H1) as H2.
    destruct (eval fuel r0 st1) as [[rv | e | ] st2]; simpl in *; exact H2.
  - unfold bind. pose proof (IH o st Hd) as H1.
    destruct (eval fuel o st) as [[ov | e | ] st1]; simpl in *; exact H1.
  - unfold bind. pose proof (IH a st Hd) as H1.
    destruct (eval fuel a st) as [[av | e | ] st1]; simpl in H1; try exact H1.
    rewrite setSymbol_number.
    set (st2 := mkSymbolsTable (fst (setIn "x" av (variables st1))) (callables st1)).
    assert (H2 : distinct (map name (variables st2)) = true)
      by (apply setIn_distinct; exact H1).
    destruct (snd (setIn "x" av (variables st1))); [exact H2|].
    pose proof (getCallable_state f st2) as Hs.
    destruct (getCallable f st2) as [[c | e | ] st3]; simpl in Hs; subst st3;
      try exact H2.
    now apply IH.
  - unfold getXValue, bind.
    pose proof (getVariable_state (NameText "x") st) as Hs.
    destruct (getVariable (NameText "x") st) as [[s | e | ] st1]; simpl in *;
      now subst.
Qed.

(** An assignment that does not return leaves every callable, and every
    variable other than [x], as it was, on a table with distinct names. *)
Lemma _handleAssignment_failure (fuel : nat) (l r : string) (st st' : SymbolsTable)
      (res : Result float) :
  well_formed st = true ->
  _handleAssignment fuel l r st = (res, st') ->
  (forall v, res <> Ok v) ->
  callables st' = callables st
  /\ others_than "x" (variables st') = others_than "x" (variables st).
Proof.
  intros Hwf Hrun Hfail. unfold well_formed in Hwf.
  apply andb_true_iff in Hwf. destruct Hwf as [Hdv Hdc].
  unfold _handleAssignment in Hrun.
  destruct (funcRegExp l).
  - unfold bind, lift in Hrun.
    destruct (deref (JSString.item (JSString.split "(" l) 0)) as [fn | e | ];
      try (inversion Hrun; subst; split; reflexivity).
    unfold _getExpression in Hrun.
    pose proof (parseText_state r st) as Hs.
    destruct (parseText r st) as [[e | e | ] st1]; simpl in Hs; subst st1;
      try (inversion Hrun; subst; split; reflexivity).
    rewrite setSymbol_expression in Hrun.
    destruct (snd (setIn fn e (callables st))) as [er|] eqn:Es.
    + rewrite (setIn_atomic fn e (callables st) Hdc er Es) in Hrun.
      inversion Hrun; subst. split; reflexivity.
    + inversion Hrun; subst. exfalso. now apply (Hfail 0%float).
  - destruct (varNameRegExp l);
      [|inversion Hrun; subst; split; reflexivity].
    unfold bind in Hrun.
    destruct (evalString fuel r st) as [[v | e | ] st1] eqn:Ee;
      try (inversion Hrun; subst; now apply (evalString_preserves _ _ _ _ _ Ee)).
    destruct (evalString_preserves _ _ _ _ _ Ee) as [Hc Ho].
    assert (Hd1 : distinct (map name (variables st1)) = true).
    { unfold evalString, bind in Ee.
      pose proof (parseText_state r st) as Hs.
      destruct (parseText r st) as [[e | e | ] st0]; simpl in Hs; subst st0;
        try discriminate.
      pose proof (eval_distinct fuel e st Hdv) as H. now rewrite Ee in H. }
    rewrite setSymbol_number in Hrun.
    destruct (snd (setIn l v (variables st1))) as [er|] eqn:Es.
    + rewrite (setIn_atomic l v (variables st1) Hd1 er Es) in Hrun.
      inversion Hrun; subst. simpl. split; assumption.
    + inversion Hrun; subst. exfalso. now apply (Hfail 0%float).
Qed.

(** C7 (amended). On a fresh engine [pi=3] throws "Cannot modify pi", of
    class SymbolMutationError, and leaves the table as it was, [pi]
    included. On a table with distinct names, an assignment that fails
    leaves every callable and every variable other than the argument
    slot [x] as it was: the assigned symbol is written last, after the
    right-hand side has been parsed and evaluated, and the function calls
    of the right-hand side write [x] while it is evaluated. *)
Theorem C7_failed_assignment :
  (forall fuel, (2 <= fuel)%nat ->
      run fuel "pi=3" getDefaultSymbolsTable
      = (Throw (CannotModify "pi"), getDefaultSymbolsTable))
  /\ taxonomy (CannotModify "pi") = Some SymbolMutationError
  /\ fst (getVariable (NameText "pi") getDefaultSymbolsTable)
     = Ok (mkVariable "pi" Math_PI true)
  /\ (forall fuel text st res st',
        well_formed st = true ->
        JSString.contains "=" text = true ->
        run fuel text st = (res, st') ->
        (forall v, res <> Ok v) ->
        callables st' = callables st
        /\ others_than "x" (variables st') = others_than "x" (variables st)).
Proof.
  split; [|split; [|split]].
  - intros fuel Hle.
    enough_fuel 2%nat "pi=3".
    vm_compute. reflexivity.
  - reflexivity.
  - vm_compute. reflexivity.
  - intros fuel text st res st' Hwf Heq Hrun Hfail.
    unfold run in Hrun. rewrite Heq in Hrun. unfold bind, lift in Hrun.
    destruct (deref (JSString.item (JSString.split "=" text) 0)) as [u0 | e | ];
      try (inversion Hrun; subst; split; reflexivity).
    destruct (deref (JSString.item (JSString.split "=" text) 1)) as [u1 | e | ];
      try (inversion Hrun; subst; split; reflexivity).
    eapply _handleAssignment_failure; eauto.
Qed.

End FailedAssignment.

Section Invariant.

Context {host : Host}.
Import SymbolsTableOps ComputeEngine.

Lemma setSymbol_well_formed (n : string) (v : SymbolValue) (st : SymbolsTable) :
  well_formed st = true -> well_formed (snd (setSymbol n v st)) = true.
Proof.
  unfold well_formed. intros H. apply andb_true_iff in H. destruct H as [Hv Hc].
  destruct v as [x | e].
  - rewrite setSymbol_number. simpl. now rewrite setIn_distinct, Hc.
  - rewrite setSymbol_expression. simpl. now rewrite setIn_distinct, Hv.
Qed.

Lemma eval_well_formed (fuel : nat) (e : Expression) (st : SymbolsTable) :
  well_formed st = true -> well_formed (snd (eval fuel e st)) = true.
Proof.
  unfold well_formed. intros H. apply andb_true_iff in H. destruct H as [Hv Hc].
  rewrite (eval_distinct fuel e st Hv). simpl.
  destruct (eval fuel e st) as [r st'] eqn:E.
  destruct (eval_preserves fuel e st r st' E) as [Hcs _]. simpl. now rewrite Hcs.
Qed.

Lemma evalString_well_formed (fuel : nat) (text : string) (st : SymbolsTable) :
  well_formed st = true -> well_formed (snd (evalString fuel text st)) = true.
Proof.
  intros H. unfold evalString, bind.
  pose proof (parseText_state text st) as Hs.
  destruct (parseText text st) as [[e | e | ] st1]; simpl in Hs; subst st1;
    try exact H.
  now apply eval_well_formed.
Qed.

Lemma _handleAssignment_well_formed (fuel : nat) (l r : string) (st : SymbolsTable) :
  well_formed st = true ->
  well_formed (snd (_handleAssignment fuel l r st)) = true.
Proof.
  intros H. unfold _handleAssignment.
  destruct (funcRegExp l).
  - unfold bind, lift, _getExpression.
    destruct (deref (JSString.item (JSString.split "(" l) 0)) as [fn | e | ];
      try exact H.
    pose proof (parseText_state r st) as Hs.
    destruct (parseText r st) as [[e | e | ] st1]; simpl in Hs; subst st1;
      try exact H.
    pose proof (setSymbol_well_formed fn (ExpressionValue e) st H) as Hw.
    destruct (setSymbol fn (ExpressionValue e) st) as [[u | er | ] st2]; exact Hw.
  - destruct (varNameRegExp l); [|exact H].
    unfold bind.
    pose proof (evalString_well_formed fuel r st H) as H1.
    destruct (evalString fuel r st) as [[v | e | ] st1]; try exact H1.
    pose proof (setSymbol_well_formed l (NumberValue v) st1 H1) as Hw.
    destruct (setSymbol l (NumberValue v) st1) as [[u | er | ] st2]; exact Hw.
Qed.

(** Distinct names are kept by every [run]. *)
Lemma run_well_formed (fuel : nat) (text : string) (st : SymbolsTable) :
  well_formed st = true -> well_formed (snd (run fuel text st)) = true.
Proof.
  intros H. unfold run.
  destruct (JSString.contains "=" text).
  - unfold bind, lift.
    destruct (deref (JSString.item (JSString.split "=" text) 0)) as [u0 | e | ];
      try exact H.
    destruct (deref (JSString.item (JSString.split "=" text) 1)) as [u1 | e | ];
      try exact H.
    now apply _handleAssignment_well_formed.
  - unfold bind.
    pose proof (evalString_well_formed fuel text st H) as H1.
    destruct (evalString fuel text st) as [[v | e | ] st1]; try exact H1.
    pose proof (getVariable_state (NameText "ans") st1) as Hs.
    destruct (getVariable (NameText "ans") st1) as [[a | e | ] st1'];
      simpl in Hs; subst st1'; try exact H1.
    pose proof (setSymbol_well_formed "preans" (NumberValue (asNumber a)) st1 H1) as H2.
    destruct (setSymbol "preans" (NumberValue (asNumber a)) st1) as [[u | e | ] st2];
      try exact H2.
    pose proof (setSymbol_well_formed "ans" (NumberValue v) st2 H2) as H3.
    destruct (setSymbol "ans" (NumberValue v) st2) as [[u' | e | ] st3]; exact H3.
Qed.

(** Every table an engine can hold has distinct names. *)
Theorem reachable_well_formed (st : SymbolsTable) :
  reachable st -> well_formed st = true.
Proof.
  induction 1 as [|fuel text st _ IH]; [reflexivity|].
  now apply run_well_formed.
Qed.

End Invariant.

(** ** Assignment syntax *)

Section Patterns.

Import JSString ComputeEngine.

(** [/^[a-z]+\(x\)$/] matches exactly a name followed by [(x)]. *)
Lemma funcRegExp_spec (l : string) :
  funcRegExp l = true <-> exists nm, is_name nm = true /\ l = (nm ++ "(x)")%string.
Proof.
  unfold funcRegExp, is_name. split.
  - intros H. pose proof (span_fst_all is_lower l) as Ha.
    pose proof (span_append is_lower l) as Hl.
    destruct (span is_lower l) as [nm rest]. simpl in *.
    apply andb_true_iff in H. destruct H as [Hn Hr].
    apply String.eqb_eq in Hr. subst rest.
    exists nm. rewrite Hn, Ha. auto.
  - intros [nm [Hn Hl]]. subst l.
    apply andb_true_iff in Hn. destruct Hn as [Hn Ha].
    rewrite (span_app is_lower nm "(" "x)" Ha eq_refl).
    now rewrite Hn.
Qed.

Lemma append_empty (s : string) : (s ++ "")%string = s.
Proof. induction s; simpl; congruence. Qed.

(** [/^[a-z]+$/] matches exactly a name. *)
Lemma varNameRegExp_spec (l : string) : varNameRegExp l = is_name l.
Proof.
  unfold varNameRegExp, is_name.
  destruct (all is_lower l) eqn:Hall.
  - rewrite (span_all _ _ Hall). reflexivity.
  - pose proof (span_fst_all is_lower l) as Ha.
    pose proof (span_append is_lower l) as Hl.
    destruct (span is_lower l) as [nm rest]. simpl in *.
    destruct (String.eqb rest "") eqn:E.
    + apply String.eqb_eq in E. subst rest.
      rewrite append_empty in Hl. subst nm. congruence.
    + now rewrite !andb_false_r.
Qed.

(** The function name [left.split("(")[0]] of a function definition. *)
Lemma function_name (nm : string) :
  is_name nm = true ->
  item (split "(" (nm ++ "(x)")) 0 = Obj nm.
Proof.
  intros Hn. unfold is_name in Hn.
  apply andb_true_iff in Hn. destruct Hn as [_ Ha].
  destruct (split_before "(" (nm ++ "(x)")) as [us [Hs _]].
  rewrite Hs. unfold item. simpl. now rewrite before_name.
Qed.

End Patterns.

Section AssignmentClaim.

Context {host : Host}.
Import JSString SymbolsTableOps ComputeEngine.
Local Open Scope engine_scope.

(** The two parts [run] hands to [_handleAssignment]: the text before the
    first [=], and the text between the first [=] and the second (or the
    end), both trimmed. *)
Lemma run_assignment (fuel : nat) (text : string) (st : SymbolsTable) :
  contains "=" text = true ->
  run fuel text st
  = _handleAssignment fuel (trim (before "=" text))
                      (trim (before "=" (after "=" text))) st.
Proof.
  intros Hc. unfold run. rewrite Hc.
  destruct (split_units "=" text Hc) as [H0 H1].
  unfold bind, lift. rewrite H0, H1. reflexivity.
Qed.

Lemma name_not_function (l : string) : is_name l = true -> funcRegExp l = false.
Proof.
  unfold is_name, funcRegExp. intros H.
  apply andb_true_iff in H. destruct H as [_ Ha].
  rewrite (span_all _ _ Ha). apply andb_false_r.
Qed.

(** C2 (amended). When the input contains [=], the left part is the text
    before the first [=] and the right part is the text between the first
    [=] and the second one, or the end of the input when there is no
    second one; both are trimmed, and the text after a second [=] is not
    read. A left part that is a name followed by [(x)] stores the parsed
    right part as the callable of that name; a left part that is a name
    evaluates the right part and stores the number as the variable of
    that name; any other left part throws "Unknown assignment." and
    leaves the table as it was. An assignment that returns, returns 0. *)
Theorem C2_assignment_forms :
  forall fuel text st,
    contains "=" text = true ->
    let left_ := trim (before "=" text) in
    let right_ := trim (before "=" (after "=" text)) in
    (forall nm, is_name nm = true -> left_ = (nm ++ "(x)")%string ->
       run fuel text st
       = (e <- _getExpression right_ ;;
          setSymbol nm (ExpressionValue e) ;;; ret 0%float) st
       /\ (forall v st', run fuel text st = (Ok v, st') ->
             v = 0%float
             /\ exists c, fst (parseText right_ st) = Ok (asExpression c)
                          /\ getCallable nm st' = (Ok c, st')))
    /\ (is_name left_ = true ->
        run fuel text st
        = (v <- evalString fuel right_ ;;
           setSymbol left_ (NumberValue v) ;;; ret 0%float) st
        /\ (forall v st', run fuel text st = (Ok v, st') ->
              v = 0%float
              /\ exists x, fst (evalString fuel right_ st) = Ok (asNumber x)
                           /\ getVariable (NameText left_) st' = (Ok x, st')))
    /\ ((forall nm, is_name nm = true -> left_ <> (nm ++ "(x)")%string) ->
        is_name left_ = false ->
        run fuel text st = (Throw UnknownAssignment, st)).
Proof.
  intros fuel text st Hc left_ right_.
  rewrite (run_assignment fuel text st Hc). fold left_ right_.
  split; [|split].
  - intros nm Hn Hl.
    assert (Hf : funcRegExp left_ = true)
      by (apply funcRegExp_spec; exists nm; auto).
    assert (Heq : _handleAssignment fuel left_ right_ st
                  = (e <- _getExpression right_ ;;
                     setSymbol nm (ExpressionValue e) ;;; ret 0%float) st).
    { unfold _handleAssignment. rewrite Hf.
      unfold bind at 1. unfold lift. rewrite Hl, (function_name nm Hn).
      reflexivity. }
    split; [exact Heq|].
    intros v st' Hrun. rewrite Heq in Hrun.
    unfold bind, _getExpression in Hrun.
    pose proof (parseText_state right_ st) as Hs.
    destruct (parseText right_ st) as [[e | e | ] st1]; simpl in Hs; subst st1;
      try discriminate.
    rewrite setSymbol_expression in Hrun.
    destruct (snd (setIn nm e (callables st))) eqn:Es; try discriminate.
    unfold ret in Hrun. inversion Hrun; subst v st'. split; [reflexivity|].
    destruct (setIn_first nm e (callables st) Es) as (c & rest & Hfil & Hval).
    exists c. split; [simpl; unfold asExpression; now rewrite Hval|].
    unfold getCallable. simpl. now rewrite Hfil.
  - intros Hn.
    assert (Heq : _handleAssignment fuel left_ right_ st
                  = (v <- evalString fuel right_ ;;
                     setSymbol left_ (NumberValue v) ;;; ret 0%float) st).
    { unfold _handleAssignment.
      now rewrite (name_not_function _ Hn), varNameRegExp_spec, Hn. }
    split; [exact Heq|].
    intros v st' Hrun. rewrite Heq in Hrun. unfold bind in Hrun.
    destruct (evalString fuel right_ st) as [[x | e | ] st1]; try discriminate.
    rewrite setSymbol_number in Hrun.
    destruct (snd (setIn left_ x (variables st1))) eqn:Es; try discriminate.
    unfold ret in Hrun. inversion Hrun; subst v st'. split; [reflexivity|].
    destruct (setIn_first left_ x (variables st1) Es) as (c & rest & Hfil & Hval).
    exists c. split; [simpl; unfold asNumber; now rewrite Hval|].
    unfold getVariable. simpl. now rewrite Hfil.
  - intros Hnf Hnn. unfold _handleAssignment.
    destruct (funcRegExp left_) eqn:Hf.
    + apply funcRegExp_spec in Hf. destruct Hf as [nm [Hn Hl]].
      exfalso. exact (Hnf nm Hn Hl).
    + now rewrite varNameRegExp_spec, Hnn.
Qed.

End AssignmentClaim.

(** ** The empty input *)

Section EmptyInput.

Context {host : Host}.
Import JSString SymbolsTableOps ComputeEngine.

(** Neither the tokeniser nor the parser runs out of budget, so
    [parseText] always returns or throws. *)
Lemma parseText_total (text : string) (st : SymbolsTable) :
  fst (parseText text st) <> OutOfFuel.
Proof.
  unfold parseText. simpl.
  pose proof (tokenise_total text (map name (callables st))) as Ht.
  destruct (Tokeniser.tokenise text (map name (callables st))) as [tokens | e | ];
    simpl; try discriminate; [|congruence].
  pose proof (parse_total tokens) as Hp.
  destruct (Parser.parse (Parser.parse_budget tokens) 0 tokens) as [p | e | ];
    simpl; try discriminate; [|congruence].
  destruct p; simpl; discriminate.
Qed.

(** C10. The empty input tokenises to the empty sequence, whose parse is
    [null]. [run] on the empty input, and on an assignment whose left part
    is a name or a name followed by [(x)] and whose right part is empty
    (as in [a=] and [f(x)=]), reads a property of that [null]: the outcome
    is the host's TypeError, which is no number and none of the error
    classes of the specification, and the table is as it was. This holds
    for every table and every depth budget. *)
Theorem C10_empty_input_dereferences_null :
  (forall fns, Tokeniser.tokenise "" fns = Ok [])
  /\ Parser.parse (Parser.parse_budget []) 0 [] = Ok Null
  /\ (forall fuel st, run fuel "" st = (Throw (TypeError JSnull), st))
  /\ (forall fuel text st,
        contains "=" text = true ->
        trim (before "=" (after "=" text)) = "" ->
        is_name (trim (before "=" text)) = true
        \/ (exists nm, is_name nm = true
                       /\ trim (before "=" text) = (nm ++ "(x)")%string) ->
        run fuel text st = (Throw (TypeError JSnull), st))
  /\ (forall fuel st, run fuel "a=" st = (Throw (TypeError JSnull), st))
  /\ (forall fuel st, run fuel "f(x)=" st = (Throw (TypeError JSnull), st))
  /\ taxonomy (TypeError JSnull) = None.
Proof.
  repeat match goal with |- _ /\ _ => split end; try (intros; reflexivity).
  intros fuel text st Hc Hr Hl.
  rewrite (run_assignment fuel text st Hc), Hr.
  unfold _handleAssignment. destruct Hl as [Hn | [nm [Hn Hl]]].
  - now rewrite (name_not_function _ Hn), varNameRegExp_spec, Hn.
  - assert (Hf : funcRegExp (trim (before "=" text)) = true)
      by (apply funcRegExp_spec; exists nm; auto).
    rewrite Hf. unfold bind at 1. unfold lift.
    rewrite Hl, (function_name nm Hn). reflexivity.
Qed.

End EmptyInput.

(** ** The factorial recursion *)

Section Factorial.

Lemma factorialise_negative (fuel : nat) (v : float) :
  PrimFloat.ltb v 0 = true ->
  factorialise (S fuel) v = Ok (-1)%float
  /\ factorialise_calls (S fuel) v = [v].
Proof. intros H. simpl. now rewrite H. Qed.

Lemma no_recursion_below_zero (v : float) : ~ recurses_below_zero v.
Proof.
  intros (fuel & pre & a & b & post & Hcalls & Ha).
  revert v pre Hcalls.
  induction fuel as [|fuel IH]; intros v pre Hcalls; simpl in Hcalls.
  - destruct pre; discriminate.
  - destruct pre as [|p pre]; simpl in Hcalls.
    + inversion Hcalls as [[Hv Hrest]]. subst v.
      rewrite Ha in Hrest. discriminate.
    + inversion Hcalls as [[Hv Hrest]]. clear Hcalls.
      destruct (PrimFloat.ltb p 0); [destruct pre; discriminate|].
      destruct (PrimFloat.eqb p 0); [destruct pre; discriminate|].
      exact (IH _ _ Hrest).
Qed.

Lemma factorialise_calls_mono (n : nat) :
  forall v, factorialise n v <> OutOfFuel ->
  forall m, (n <= m)%nat -> factorialise_calls m v = factorialise_calls n v.
Proof.
  induction n as [|n IH]; intros v Hne m Hle.
  - simpl in Hne. congruence.
  - destruct m as [|m]; [lia|]. simpl in *.
    destruct (PrimFloat.ltb v 0); [reflexivity|].
    destruct (PrimFloat.eqb v 0); [reflexivity|].
    f_equal. apply IH; [|lia].
    intros H. rewrite H in Hne. simpl in Hne. congruence.
Qed.

(** The recursion on NaN and on positive infinity never returns: the
    argument is neither below nor equal to zero, and subtracting 1 leaves
    it as it is. *)
Lemma factorialise_stuck (v : float) :
  PrimFloat.ltb v 0 = false -> PrimFloat.eqb v 0 = false ->
  (v - 1)%float = v ->
  forall fuel, factorialise fuel v = OutOfFuel.
Proof.
  intros Hlt Heq Hsub fuel. induction fuel as [|fuel IH]; simpl; [reflexivity|].
  now rewrite Hlt, Heq, Hsub, IH.
Qed.

(** C9 (amended). A call of [factorialise] on a negative argument returns
    -1 at once, so the recursion never goes on below the first negative
    argument. From the non-integer operand 2.5 the calls are on 2.5, 1.5,
    0.5 and -0.5: no call is on 0, the last one ends the recursion in the
    negative branch, and the result is -1.875. The recursion never returns
    on the non-integer operands NaN and positive infinity, which
    subtracting 1 leaves unchanged. *)
Theorem C9_factorial_of_non_integers :
  (forall fuel v, PrimFloat.ltb v 0 = true ->
      factorialise (S fuel) v = Ok (-1)%float
      /\ factorialise_calls (S fuel) v = [v])
  /\ (forall v, ~ recurses_below_zero v)
  /\ is_integer 2.5 = false
  /\ (forall fuel, (4 <= fuel)%nat ->
        factorialise_calls fuel 2.5 = [2.5; 1.5; 0.5; -0.5]%float
        /\ factorialise fuel 2.5 = Ok (-1.875)%float)
  /\ is_integer nan = false
  /\ is_integer infinity = false
  /\ (forall fuel, factorialise fuel nan = OutOfFuel)
  /\ (forall fuel, factorialise fuel infinity = OutOfFuel).
Proof.
  repeat match goal with |- _ /\ _ => split end.
  - apply factorialise_negative.
  - apply no_recursion_below_zero.
  - vm_compute. reflexivity.
  - intros fuel Hle. split.
    + rewrite (factorialise_calls_mono 4) by (try assumption; vm_compute; discriminate).
      vm_compute. reflexivity.
    + apply factorialise_mono with (n := 4%nat);
        [vm_compute; reflexivity | discriminate | assumption].
  - vm_compute. reflexivity.
  - vm_compute. reflexivity.
  - apply factorialise_stuck; vm_compute; reflexivity.
  - apply factorialise_stuck; vm_compute; reflexivity.
Qed.

End Factorial.

(** ** A variable as right operand *)

Section RightOperand.

Context {host : Host}.
Import SymbolsTableOps ComputeEngine Parser.

(** [nextAsRightOperand] builds the expression of a variable from the
    token itself, not from its text, and no stored name is equal to a
    token: a variable that stands as the single right operand of a binary
    operator is never found. On a fresh engine [ans*2] is 0 and [2*ans]
    throws "... is not a stored variable". *)
Theorem right_operand_variable_is_not_found :
  (forall fuel i tokens token,
      nth_error tokens i = Some token ->
      isVariable token = true ->
      nextAsRightOperand (S fuel) i tokens
      = Ok (mkParsingResult (VariableExpression (NameToken token)) (i + 1)))
  /\ (forall fuel token st,
        eval (S fuel) (VariableExpression (NameToken token)) st
        = (Throw (NotStoredVariable (NameToken token)), st))
  /\ (forall fuel, (3 <= fuel)%nat ->
        fst (run fuel "ans*2" getDefaultSymbolsTable) = Ok 0%float
        /\ fst (run fuel "2*ans" getDefaultSymbolsTable)
           = Throw (NotStoredVariable
                      (NameToken (mkToken "ans" Identifier 0%Z unary)))).
Proof.
  split; [|split].
  - intros fuel i tokens token Hn Hv. cbn [nextAsRightOperand].
    rewrite Hn, Hv. reflexivity.
  - intros fuel token st. simpl. unfold bind, getVariable.
    now rewrite filter_token.
  - intros fuel Hle.
    enough_fuel 3%nat "ans*2". enough_fuel 3%nat "2*ans".
    vm_compute. split; reflexivity.
Qed.

End RightOperand.

(** ** The operator maps *)

Section OperatorMaps.

(** Every operator type is a key of [OperatorPrecedence] and of
    [OperatorType]: the default of [Map_get] is never read for an
    operator. *)
Lemma operator_maps_total (tokenType : TokenType) :
  Tokeniser._isOperator tokenType = true ->
  In tokenType (map fst OperatorPrecedence)
  /\ In tokenType (map fst OperatorType).
Proof.
  destruct tokenType; intros H; try discriminate H; cbn; tauto.
Qed.

End OperatorMaps.

(** ** The tokens of the tokeniser *)

Section TokeniserTexts.
Import JSString Tokeniser.

Lemma prefix_split (pat s : string) :
  String.prefix pat s = true -> s = (pat ++ replace_first pat s)%string.
Proof.
  intros H.
  assert (Hs : forall p t, String.prefix p t = true ->
                 t = (p ++ substring (String.length p)
                                     (String.length t - String.length p) t)%string).
  { induction p as [|c p IH]; intros t Hp; simpl.
    - rewrite Nat.sub_0_r. clear Hp. induction t as [|d t IHt]; simpl; [reflexivity|].
      now rewrite <- IHt.
    - destruct t as [|d t]; simpl in Hp; [discriminate|].
      destruct (ascii_dec c d) as [->|]; [|discriminate].
      simpl. now rewrite <- (IH t Hp). }
  destruct s as [|d s]; cbn [replace_first]; rewrite H; apply Hs; exact H.
Qed.

Lemma without_spaces_app (a b : string) :
  without_spaces (a ++ b) = (without_spaces a ++ without_spaces b)%string.
Proof.
  induction a as [|c a IH]; simpl; [reflexivity|].
  destruct (is_space c); simpl; now rewrite IH.
Qed.

Lemma without_spaces_trimStart (s : string) :
  without_spaces (trimStart s) = without_spaces s.
Proof.
  induction s as [|c s IH]; simpl; [reflexivity|].
  destruct (is_space c) eqn:E; [exact IH|]. simpl. now rewrite E.
Qed.

Lemma without_spaces_trimEnd (s : string) :
  without_spaces (trimEnd s) = without_spaces s.
Proof.
  induction s as [|c s IH]; simpl; [reflexivity|].
  destruct (trimEnd s) as [|d r] eqn:E.
  - rewrite <- IH. destruct (is_space c) eqn:Ec; simpl; now rewrite ?Ec.
  - rewrite <- IH. cbn [without_spaces]. reflexivity.
Qed.

Lemma without_spaces_trim (s : string) : without_spaces (trim s) = without_spaces s.
Proof.
  unfold trim. now rewrite without_spaces_trimEnd, without_spaces_trimStart.
Qed.

Lemma without_spaces_all (p : ascii -> bool) (s : string) :
  (forall c, p c = true -> is_space c = false) ->
  all p s = true -> without_spaces s = s.
Proof.
  intros Hp. induction s as [|c s IH]; simpl; [reflexivity|].
  intros H. apply andb_prop in H. destruct H as [Hc Hs].
  now rewrite (Hp c Hc), (IH Hs).
Qed.

Lemma digit_not_space (c : ascii) : is_digit c = true -> is_space c = false.
Proof.
  unfold is_digit, is_space. intros H. apply andb_prop in H. destruct H as [H1 H2].
  apply Nat.leb_le in H1, H2.
  repeat (apply orb_false_intro); [apply andb_false_intro2|..];
    first [apply Nat.leb_gt | apply Nat.eqb_neq]; lia.
Qed.

Lemma lower_not_space (c : ascii) : is_lower c = true -> is_space c = false.
Proof.
  unfold is_lower, is_space. intros H. apply andb_prop in H. destruct H as [H1 H2].
  apply Nat.leb_le in H1, H2.
  repeat (apply orb_false_intro); [apply andb_false_intro2|..];
    first [apply Nat.leb_gt | apply Nat.eqb_neq]; lia.
Qed.

Lemma all_append (p : ascii -> bool) (a b : string) :
  all p (a ++ b) = all p a && all p b.
Proof. induction a as [|c a IH]; simpl; [reflexivity|]. now rewrite IH, andb_assoc. Qed.

Lemma span_nonempty (p : ascii -> bool) (s : string) (c : ascii) (r : string) :
  fst (span p s) = String c r -> exists t, s = String c t /\ p c = true /\ r = fst (span p t).
Proof.
  destruct s as [|d s]; simpl; [discriminate|].
  destruct (p d) eqn:E; [|discriminate].
  destruct (span p s) as [a b] eqn:Es. simpl. intros H. inversion H. subst.
  exists s. rewrite Es. auto.
Qed.

End TokeniserTexts.

Section TokeniserTokens.
Import JSString Tokeniser.

Lemma match_number_matched (input txt : string) :
  match_number input = Some txt ->
  is_number txt = true /\ without_spaces txt = txt.
Proof.
  unfold match_number. intros H.
  pose proof (span_fst_all is_digit input) as Hd.
  destruct (span is_digit input) as [ip rest]. simpl in Hd.
  destruct ip as [|c ip]; [discriminate|].
  assert (Hip : is_number (String c ip) = true
                /\ without_spaces (String c ip) = String c ip).
  { split.
    - unfold is_number. now rewrite (span_all _ _ Hd).
    - exact (without_spaces_all _ _ digit_not_space Hd). }
  destruct rest as [|d r]; [inversion H; subst; exact Hip|].
  destruct (Ascii.eqb d ".") eqn:Ed; [|inversion H; subst; exact Hip].
  pose proof (span_fst_all is_digit r) as Hf.
  destruct (fst (span is_digit r)) as [|f fp] eqn:Ef;
    [inversion H; subst; exact Hip|].
  assert (Et : txt = (String c ip ++ String "." (String f fp))%string)
    by (inversion H; reflexivity).
  rewrite Et. clear H Et. split.
  - unfold is_number.
    rewrite (span_app is_digit (String c ip) "." (String f fp) Hd eq_refl).
    cbn [String.eqb negb andb]. rewrite Hf. reflexivity.
  - rewrite without_spaces_app.
    change (String "." (String f fp)) with ("." ++ String f fp)%string.
    rewrite without_spaces_app.
    rewrite (without_spaces_all _ _ digit_not_space Hd).
    rewrite (without_spaces_all _ _ digit_not_space Hf). reflexivity.
Qed.

Lemma match_lower_matched (input txt : string) :
  match_lower input = Some txt ->
  is_name txt = true /\ without_spaces txt = txt.
Proof.
  unfold match_lower. intros H.
  pose proof (span_fst_all is_lower input) as Hd.
  destruct (fst (span is_lower input)) as [|c s]; [discriminate|].
  inversion H. subst. split.
  - unfold is_name. now rewrite Hd.
  - exact (without_spaces_all _ _ lower_not_space Hd).
Qed.

Lemma match_char_text (c : ascii) (input txt : string) :
  match_char c input = Some txt -> txt = String c EmptyString.
Proof.
  unfold match_char. destruct input as [|d r]; [discriminate|].
  destruct (Ascii.eqb c d); [|discriminate]. now inversion 1.
Qed.

(** What the first matching matcher returns has the shape of its type and
    no white space. *)
Lemma first_match_matched (input txt : string) (ty : TokenType) :
  first_match _getMatchers input = Some (txt, ty) ->
  matched txt ty = true /\ without_spaces txt = txt.
Proof.
  unfold _getMatchers. cbn [first_match].
  destruct (match_number input) as [s|] eqn:E0.
  { inversion 1. subst. exact (match_number_matched _ _ E0). }
  destruct (match_lower input) as [s|] eqn:E1.
  { inversion 1. subst. exact (match_lower_matched _ _ E1). }
  repeat match goal with
    | |- context [match_char ?c input] =>
        let E := fresh "E" in
        destruct (match_char c input) as [s|] eqn:E;
        [apply match_char_text in E; subst s; inversion 1; subst; split; reflexivity|]
    end.
  discriminate.
Qed.

Lemma make_token_fits (txt : string) (ty : TokenType) (fns : list string) :
  matched txt ty = true -> token_fits fns (make_token txt ty fns) = true.
Proof.
  intros H. unfold make_token.
  destruct ty; try discriminate H; cbn [matched] in H;
    cbn [_isIdentifier TokenType_eqb andb];
    try (unfold token_fits, text_fits, attributes_fit;
         cbn -[is_number is_name _isAFunction]; rewrite H; reflexivity).
  destruct (_isAFunction txt fns) eqn:F;
    unfold token_fits, text_fits, attributes_fit;
    cbn -[_isAFunction is_name]; now rewrite H, F.
Qed.

Lemma texts_snoc (l : list Token) (t : Token) :
  texts (l ++ [t]) = (texts l ++ text t)%string.
Proof.
  induction l as [|a l IH]; simpl.
  - now rewrite append_empty.
  - rewrite IH. induction (text a) as [|c s IHs]; simpl; [reflexivity|].
    now rewrite IHs.
Qed.

Lemma append_assoc (a b c : string) : ((a ++ b) ++ c = a ++ (b ++ c))%string.
Proof. induction a as [|x a IH]; simpl; [reflexivity|]. now rewrite IH. Qed.

Lemma tokenise_loop_texts (fuel : nat) :
  forall input fns out tokens,
    tokenise_loop fuel input fns out = Ok tokens ->
    texts tokens = (texts (rev out) ++ without_spaces input)%string.
Proof.
  induction fuel as [|fuel IH]; intros input fns out tokens H; [discriminate|].
  simpl in H. unfold _nextMatchingToken in H.
  destruct (first_match _getMatchers input) as [[txt ty]|] eqn:E.
  - destruct (first_match_sound input txt ty E) as [Hp _].
    destruct (first_match_matched input txt ty E) as [_ Hs].
    apply IH in H. rewrite H. rewrite make_token_text.
    cbn [rev]. rewrite texts_snoc, make_token_text, without_spaces_trim.
    rewrite (prefix_split txt input Hp) at 2.
    now rewrite without_spaces_app, Hs, append_assoc.
  - destruct (0 <? String.length input)%nat eqn:L; [discriminate|].
    inversion H. subst. destruct input; [|discriminate].
    simpl. now rewrite append_empty.
Qed.

Lemma tokenise_loop_fits (fuel : nat) :
  forall input fns out tokens,
    tokenise_loop fuel input fns out = Ok tokens ->
    forallb (token_fits fns) out = true ->
    forallb (token_fits fns) tokens = true.
Proof.
  induction fuel as [|fuel IH]; intros input fns out tokens H Hout; [discriminate|].
  simpl in H. unfold _nextMatchingToken in H.
  destruct (first_match _getMatchers input) as [[txt ty]|] eqn:E.
  - destruct (first_match_matched input txt ty E) as [Hm _].
    apply IH in H; [exact H|]. cbn [forallb].
    now rewrite (make_token_fits txt ty fns Hm), Hout.
  - destruct (0 <? String.length input)%nat eqn:L; [discriminate|].
    inversion H. subst. rewrite forallb_forall in *. intros t Ht.
    apply Hout. now apply in_rev.
Qed.

Lemma tokenise_fits (input : string) (fns : list string) (tokens : list Token) :
  tokenise input fns = Ok tokens -> forallb (token_fits fns) tokens = true.
Proof. intros H. exact (tokenise_loop_fits _ _ _ _ _ H eq_refl). Qed.

(** What no matcher matches: an input that starts with white space. *)
Lemma first_match_space (c : ascii) (s : string) :
  is_space c = true -> first_match _getMatchers (String c s) = None.
Proof.
  destruct c as [b0 b1 b2 b3 b4 b5 b6 b7].
  destruct b0, b1, b2, b3, b4, b5, b6, b7; intros H;
    first [reflexivity | vm_compute in H; discriminate H].
Qed.

End TokeniserTokens.

(** ** The expressions of the parser *)

Section ParserBuilds.
Import Parser.

Variable tokens : list Token.
Variable P : Expression -> Prop.

Hypothesis P_constant : forall v, P (ConstantExpression v).
Hypothesis P_variable :
  forall t, In t tokens -> isVariable t = true ->
            P (VariableExpression (NameText (text t))).
Hypothesis P_operand :
  forall t, In t tokens -> isVariable t = true ->
            P (VariableExpression (NameToken t)).
Hypothesis P_sign :
  forall t e, In t tokens -> isPlusOrMinus t = true -> P e ->
              P (BinaryExpression (text t) (ConstantExpression 0%float) e).
Hypothesis P_binary :
  forall t l r, In t tokens -> isBinaryOperator t = true -> P l -> P r ->
                P (BinaryExpression (text t) l r).
Hypothesis P_end :
  forall l, P l -> P (BinaryExpression "+" l (ConstantExpression 0%float)).
Hypothesis P_factorial : forall e, P e -> P (FactorialExpression e).
Hypothesis P_call :
  forall t a, In t tokens -> isFunctionCall t = true -> P a ->
              P (FunctionCallExpression (text t) a).

Ltac split_cases :=
  repeat match goal with
    | H : Ok _ = Ok _ |- _ => inversion H; subst; clear H
    | H : Throw _ = Ok _ |- _ => discriminate H
    | H : OutOfFuel = Ok _ |- _ => discriminate H
    | H : Some _ = Some _ |- _ => inversion H; subst; clear H
    | H : context [match nth_error ?t ?i with _ => _ end] |- _ =>
        destruct (nth_error t i) eqn:?
    | H : context [if ?b then _ else _] |- _ => destruct b eqn:?
    | H : context [bindR ?r _] |- _ => destruct r eqn:?; cbn [bindR] in H
    | H : context [match ?x with _ => _ end] |- _ => destruct x eqn:?
    | H : deref ?p = Ok _ |- _ => destruct p; cbn [deref] in H
    end.

Ltac token_facts :=
  repeat match goal with
    | E : nth_error tokens _ = Some ?t |- _ =>
        lazymatch goal with
        | _ : In t tokens |- _ => fail
        | _ => pose proof (nth_error_In _ _ E)
        end
    end.

Ltac build IH :=
  cbn [expression buildBinaryExpression buildConstantExpression
       buildVariableExpression buildFunctionCallExpression addToken text] in *;
  repeat first
    [ assumption
    | match goal with
      | E : parse _ ?j tokens = Ok (Obj ?r) |- P (expression ?r) =>
          exact (proj1 (IH j) r E)
      | E : continueParsing _ ?l ?j tokens = Ok (Obj ?r) |- P (expression ?r) =>
          apply (proj1 (proj2 (IH j)) l r); [|exact E]
      | E : nextAsRightOperand _ ?j tokens = Ok ?r |- P (expression ?r) =>
          exact (proj1 (proj2 (proj2 (IH j))) r E)
      | E : parseBrackets _ ?j tokens = Ok ?r |- P (expression ?r) =>
          exact (proj1 (proj2 (proj2 (proj2 (IH j)))) r E)
      | E : parseFunctionCall _ ?j tokens = Ok ?r,
        N : nth_error tokens ?j = Some ?t |- P (expression ?r) =>
          apply (proj2 (proj2 (proj2 (proj2 (IH j)))) r t N); [|exact E]
      end
    | match goal with
      | |- P (if ?b then _ else _) =>
          destruct b eqn:?;
          cbn [buildConstantExpression buildVariableExpression]
      end
    | apply P_constant
    | apply P_factorial
    | apply P_end
    | apply P_variable
    | apply P_operand
    | apply P_call
    | apply P_sign
    | apply P_binary ].

(** Every expression the parser returns is built by the eight
    constructions above, and so has every property they keep. *)
Lemma parser_builds :
  forall fuel i,
    (forall r, parse fuel i tokens = Ok (Obj r) -> P (expression r))
    /\ (forall l r, P l -> continueParsing fuel l i tokens = Ok (Obj r) ->
                    P (expression r))
    /\ (forall r, nextAsRightOperand fuel i tokens = Ok r -> P (expression r))
    /\ (forall r, parseBrackets fuel i tokens = Ok r -> P (expression r))
    /\ (forall r t, nth_error tokens i = Some t -> isFunctionCall t = true ->
                    parseFunctionCall fuel i tokens = Ok r -> P (expression r)).
Proof.
  induction fuel as [|fuel IH]; intros i.
  - repeat split; intros; discriminate.
  - split; [|split; [|split; [|split]]].
    + intros r H. cbn [parse] in H. split_cases; token_facts; build IH.
    + intros l r Hl H. cbn [continueParsing] in H.
      unfold buildUnaryExpression in H.
      split_cases; token_facts; build IH.
    + intros r H. cbn [nextAsRightOperand] in H.
      split_cases; token_facts; build IH.
    + intros r H. cbn [parseBrackets] in H.
      split_cases; token_facts; build IH.
    + intros r t N F H. cbn [parseFunctionCall] in H.
      split_cases; token_facts; build IH.
Qed.

End ParserBuilds.

Section ParsedExpressions.
Import JSString Tokeniser Parser SymbolsTableOps ComputeEngine.

Lemma fits_sign (fns : list string) (t : Token) :
  token_fits fns t = true -> isPlusOrMinus t = true ->
  known_operator (text t) = true.
Proof.
  destruct t as [tx ty pr op]. unfold token_fits, text_fits, isPlusOrMinus, isPlus, isMinus.
  cbn [type text]. intros H S. apply andb_prop in H. destruct H as [H _].
  destruct ty; try discriminate S; apply String.eqb_eq in H; subst; reflexivity.
Qed.

Lemma fits_binary (fns : list string) (t : Token) :
  token_fits fns t = true -> isBinaryOperator t = true ->
  known_operator (text t) = true.
Proof.
  destruct t as [tx ty pr op].
  unfold token_fits, text_fits, attributes_fit, isBinaryOperator.
  cbn [type text opType precedence]. intros H S.
  apply andb_prop in H. destruct H as [H A].
  destruct ty, op; try discriminate S; cbn in A;
    try (apply andb_prop in A; destruct A as [_ A]; discriminate A);
    apply String.eqb_eq in H; subst; reflexivity.
Qed.

Lemma fits_variable (fns : list string) (t : Token) :
  token_fits fns t = true -> isVariable t = true ->
  is_name (text t) = true /\ _isAFunction (text t) fns = false.
Proof.
  destruct t as [tx ty pr op]. unfold token_fits, text_fits, isVariable.
  cbn [type text]. intros H S. apply andb_prop in H. destruct H as [H _].
  destruct ty; try discriminate S. apply andb_prop in H. destruct H as [H1 H2].
  split; [exact H1|]. now destruct (_isAFunction tx fns).
Qed.

Lemma fits_call (fns : list string) (t : Token) :
  token_fits fns t = true -> isFunctionCall t = true ->
  is_name (text t) = true /\ _isAFunction (text t) fns = true.
Proof.
  destruct t as [tx ty pr op]. unfold token_fits, text_fits, isFunctionCall.
  cbn [type text]. intros H S. apply andb_prop in H. destruct H as [H _].
  destruct ty; try discriminate S. apply andb_prop in H. exact H.
Qed.

Lemma fits_in (fns : list string) (tokens : list Token) (t : Token) :
  forallb (token_fits fns) tokens = true -> In t tokens -> token_fits fns t = true.
Proof. intros H. rewrite forallb_forall in H. apply H. Qed.

(** What the parser makes of a token sequence of the tokeniser. *)
Lemma parse_fitting (fns : list string) (tokens : list Token) (fuel i : nat)
      (r : ParsingResult) :
  forallb (token_fits fns) tokens = true ->
  parse fuel i tokens = Ok (Obj r) ->
  operators_known (expression r) = true
  /\ calls_within fns (expression r) = true
  /\ user_written (expression r) = true
  /\ (forall n, In n fns -> mentions n (expression r) = false).
Proof.
  intros Hfit H.
  pose (P := fun e => operators_known e = true
                      /\ calls_within fns e = true
                      /\ user_written e = true
                      /\ (forall n, In n fns -> mentions n e = false)).
  refine (proj1 (parser_builds tokens P _ _ _ _ _ _ _ _ fuel i) r H);
    unfold P; clear P H.
  - intros v. repeat split.
  - intros t Ht Hv. repeat split. intros n Hn. cbn [mentions].
    destruct (fits_variable fns t (fits_in _ _ _ Hfit Ht) Hv) as [_ Hf].
    destruct (String.eqb (text t) n) eqn:E; [|reflexivity].
    apply String.eqb_eq in E. subst n. unfold _isAFunction in Hf.
    assert (existsb (String.eqb (text t)) fns = true); [|congruence].
    apply existsb_exists. exists (text t). split; [exact Hn|apply String.eqb_refl].
  - intros t Ht Hv. repeat split.
  - intros t e Ht Hs (H1 & H2 & H3 & H4). cbn [operators_known calls_within user_written mentions].
    rewrite (fits_sign fns t (fits_in _ _ _ Hfit Ht) Hs), H1, H2, H3.
    repeat split. intros n Hn. now apply H4.
  - intros t l r0 Ht Hb (H1 & H2 & H3 & H4) (K1 & K2 & K3 & K4). cbn [operators_known calls_within user_written mentions].
    rewrite (fits_binary fns t (fits_in _ _ _ Hfit Ht) Hb), H1, H2, H3, K1, K2, K3.
    repeat split. intros n Hn. now rewrite H4, K4.
  - intros l (H1 & H2 & H3 & H4).
    cbn [operators_known calls_within user_written mentions].
    change (known_operator "+") with true. rewrite H1, H2, H3.
    repeat split. intros n Hn. now rewrite H4.
  - intros e (H1 & H2 & H3 & H4). cbn [operators_known calls_within user_written mentions]. now rewrite H1, H2, H3.
  - intros t a Ht Hc (H1 & H2 & H3 & H4). cbn [operators_known calls_within user_written mentions].
    destruct (fits_call fns t (fits_in _ _ _ Hfit Ht) Hc) as [_ Hf].
    unfold _isAFunction in Hf. now rewrite Hf, H1, H2, H3.
Qed.

Lemma parseText_fitting (text : string) (st : SymbolsTable) (e : Expression) :
  fst (parseText text st) = Ok e ->
  operators_known e = true
  /\ calls_within (map name (callables st)) e = true
  /\ user_written e = true
  /\ (forall n, In n (map name (callables st)) -> mentions n e = false).
Proof.
  unfold parseText. cbn [fst]. intros H.
  destruct (tokenise text (map name (callables st))) as [tokens| |] eqn:T;
    try discriminate H. cbn [bindR] in H.
  destruct (parse (parse_budget tokens) 0 tokens) as [[| |r]| |] eqn:Pr;
    try discriminate H. cbn [bindR deref] in H. inversion H. subst e.
  exact (parse_fitting _ _ _ _ _ (tokenise_fits _ _ _ T) Pr).
Qed.

End ParsedExpressions.

(** ** What a run writes *)

Section Writes.

Context {host : Host}.
Import JSString SymbolsTableOps ComputeEngine.

Lemma writes_weaken (ns ns' : list string) (vs vs' : list (Variable_ float)) :
  (forall n, In n ns -> In n ns') -> writes ns vs vs' -> writes ns' vs vs'.
Proof.
  intros Hsub H. induction H as [|vs vs' n x _ IH Hn]; [apply writes_none|].
  apply writes_more; auto.
Qed.

Lemma writes_trans (ns : list string) (a b c : list (Variable_ float)) :
  writes ns a b -> writes ns b c -> writes ns a c.
Proof.
  intros Hab Hbc. induction Hbc as [|b c n x _ IH Hn]; [exact Hab|].
  apply writes_more; auto.
Qed.

(** Evaluation stores numbers under [x] and does nothing else to the
    table. *)
Lemma eval_writes (fuel : nat) :
  forall e st r st',
    eval fuel e st = (r, st') -> writes ["x"] (variables st) (variables st').
Proof.
  induction fuel as [|fuel IH]; intros e st r st' He.
  - inversion He. subst. apply writes_none.
  - destruct e as [v | vn | op l r0 | o | f a | b]; simpl in He.
    + inversion He. subst. apply writes_none.
    + unfold bind in He. pose proof (getVariable_state vn st) as Hs.
      destruct (getVariable vn st) as [[s | e | ] st1]; simpl in Hs;
        inversion He; subst; apply writes_none.
    + unfold bind in He.
      destruct (eval fuel l st) as [[lv | e | ] st1] eqn:El;
        try (inversion He; subst; now apply (IH _ _ _ _ El)).
      pose proof (IH _ _ _ _ El) as H1.
      destruct (eval fuel r0 st1) as [[rv | e | ] st2] eqn:Er;
        pose proof (IH _ _ _ _ Er) as H2;
        inversion He; subst; exact (writes_trans _ _ _ _ H1 H2).
    + unfold bind in He.
      destruct (eval fuel o st) as [[ov | e | ] st1] eqn:Eo;
        inversion He; subst; now apply (IH _ _ _ _ Eo).
    + unfold bind in He.
      destruct (eval fuel a st) as [[av | e | ] st1] eqn:Ea;
        try (inversion He; subst; now apply (IH _ _ _ _ Ea)).
      pose proof (IH _ _ _ _ Ea) as H1.
      rewrite setSymbol_number in He.
      set (st2 := mkSymbolsTable (fst (setIn "x" av (variables st1))) (callables st1)) in *.
      assert (H2 : writes ["x"] (variables st) (variables st2)).
      { simpl. apply writes_more; [exact H1|now left]. }
      destruct (snd (setIn "x" av (variables st1))) as [er|];
        [inversion He; subst; exact H2|].
      pose proof (getCallable_state f st2) as Hs.
      destruct (getCallable f st2) as [[c | e | ] st3]; simpl in Hs; subst st3;
        try (inversion He; subst; exact H2).
      exact (writes_trans _ _ _ _ H2 (IH _ _ _ _ He)).
    + unfold getXValue, bind in He.
      pose proof (getVariable_state (NameText "x") st) as Hs.
      destruct (getVariable (NameText "x") st) as [[s | e | ] st1]; simpl in Hs;
        inversion He; subst; apply writes_none.
Qed.

Lemma evalString_writes (fuel : nat) (text : string) (st : SymbolsTable) :
  forall r st',
    evalString fuel text st = (r, st') ->
    callables st' = callables st /\ writes ["x"] (variables st) (variables st').
Proof.
  intros r st' He. split; [exact (proj1 (evalString_preserves _ _ _ _ _ He))|].
  unfold evalString, bind in He.
  pose proof (parseText_state text st) as Hs.
  destruct (parseText text st) as [[e | e | ] st1]; simpl in Hs; subst st1;
    try (inversion He; subst; apply writes_none).
  eapply eval_writes; eauto.
Qed.

(** What a [run] does to the table, by the form of its text: a plain query
    stores numbers under [x], [preans] and [ans]; an assignment to a
    variable stores numbers under [x] and the variable; a function
    definition stores the parsed right-hand side, or nothing. *)
Lemma run_anatomy (fuel : nat) (text : string) (st : SymbolsTable) :
  let st' := snd (run fuel text st) in
  let left_ := trim (before "=" text) in
  let right_ := trim (before "=" (after "=" text)) in
  if contains "=" text then
    if funcRegExp left_ then
      st' = st
      \/ exists nm e,
           item (split "(" left_) 0 = Obj nm
           /\ fst (parseText right_ st) = Ok e
           /\ st' = mkSymbolsTable (variables st) (fst (setIn nm e (callables st)))
    else
      callables st' = callables st
      /\ writes ["x"; left_] (variables st) (variables st')
  else
    callables st' = callables st
    /\ writes ["x"; "preans"; "ans"] (variables st) (variables st').
Proof.
  intros st' left_ right_.
  destruct (contains "=" text) eqn:Hc.
  - subst st'. rewrite (run_assignment fuel text st Hc).
    fold left_ right_. unfold _handleAssignment.
    destruct (funcRegExp left_) eqn:Hf.
    + unfold bind, lift, _getExpression.
      destruct (item (split "(" left_) 0) as [| |nm] eqn:Hi; cbn [deref];
        try (left; reflexivity).
      pose proof (parseText_state right_ st) as Hs.
      destruct (parseText right_ st) as [[e | e | ] st1] eqn:Hp; simpl in Hs;
        subst st1; try (left; reflexivity).
      right. exists nm, e. split; [reflexivity|]. split; [reflexivity|].
      rewrite setSymbol_expression.
      now destruct (snd (setIn nm e (callables st))).
    + destruct (varNameRegExp left_); [|split; [reflexivity|apply writes_none]].
      unfold bind.
      destruct (evalString fuel right_ st) as [[v | e | ] st1] eqn:He;
        destruct (evalString_writes _ _ _ _ _ He) as [H1 H2];
        try (split; [exact H1|];
             apply (writes_weaken ["x"]); [|exact H2];
             intros n [<-|[]]; now left).
      rewrite setSymbol_number.
      assert (writes ["x"; left_] (variables st)
                     (fst (setIn left_ v (variables st1)))).
      { apply writes_more; [|right; now left].
        apply (writes_weaken ["x"]); [|exact H2]. intros n [<-|[]]; now left. }
      now destruct (snd (setIn left_ v (variables st1))).
  - subst st'. unfold run. rewrite Hc. unfold bind.
    destruct (evalString fuel text st) as [[v | e | ] st1] eqn:He;
      destruct (evalString_writes _ _ _ _ _ He) as [H1 H2];
      assert (H3 : writes ["x"; "preans"; "ans"] (variables st) (variables st1))
        by (apply (writes_weaken ["x"]); [|exact H2]; intros n [<-|[]]; now left);
      try (split; [exact H1|exact H3]).
    pose proof (getVariable_state (NameText "ans") st1) as Hs.
    destruct (getVariable (NameText "ans") st1) as [[a | e | ] st1'];
      simpl in Hs; subst st1'; try (split; [exact H1|exact H3]).
    rewrite setSymbol_number.
    assert (H4 : writes ["x"; "preans"; "ans"] (variables st)
                        (fst (setIn "preans" (asNumber a) (variables st1))))
      by (apply writes_more; [exact H3|right; now left]).
    destruct (snd (setIn "preans" (asNumber a) (variables st1)));
      [split; [exact H1|exact H4]|].
    rewrite setSymbol_number. cbn [variables callables].
    assert (H5 : writes ["x"; "preans"; "ans"] (variables st)
                   (fst (setIn "ans" v
                           (fst (setIn "preans" (asNumber a) (variables st1))))))
      by (apply writes_more; [exact H4|right; right; now left]).
    destruct (snd (setIn "ans" v (fst (setIn "preans" (asNumber a) (variables st1)))));
      (split; [exact H1|exact H5]).
Qed.

End Writes.

Section WritesLemmas.

Import JSString SymbolsTableOps ComputeEngine.

Lemma setEach_final_entries {A : Type} (n : string) (x : A)
      (entries : list (Variable_ A)) :
  filter isFinal (fst (fst (setEach n x entries))) = filter isFinal entries.
Proof.
  induction entries as [|v rest IH]; simpl; [reflexivity|].
  destruct (String.eqb (name v) n).
  - unfold setTo. destruct (isFinal v) eqn:F; simpl; [now rewrite F|].
    destruct (setEach n x rest) as [[rest' ex] err]. simpl in *.
    rewrite ?F. exact IH.
  - destruct (setEach n x rest) as [[rest' ex] err]. simpl in *.
    now rewrite IH.
Qed.

(** [setSymbol] leaves every final entry as it is, and where it is among
    the final entries. *)
Lemma setIn_final_entries {A : Type} (n : string) (x : A)
      (entries : list (Variable_ A)) :
  filter isFinal (fst (setIn n x entries)) = filter isFinal entries.
Proof.
  unfold setIn. pose proof (setEach_final_entries n x entries) as H.
  destruct (setEach n x entries) as [[es ex] err]. simpl in *.
  destruct err as [e|], ex; simpl; try exact H.
  rewrite filter_app. simpl. now rewrite app_nil_r.
Qed.

Lemma writes_final_entries (ns : list string) (vs vs' : list (Variable_ float)) :
  writes ns vs vs' -> filter isFinal vs' = filter isFinal vs.
Proof.
  induction 1 as [|vs vs' n x _ IH _]; [reflexivity|].
  now rewrite setIn_final_entries.
Qed.

Lemma writes_blocked (ns : list string) (vs vs' : list (Variable_ float)) (m : string) :
  writes ns vs vs' -> blocked m vs' = blocked m vs.
Proof.
  induction 1 as [|vs vs' n x _ IH _]; [reflexivity|].
  now rewrite setIn_names_blocked.
Qed.

Lemma writes_stored (ns : list string) (vs vs' : list (Variable_ float)) (m : string) :
  writes ns vs vs' -> stored m vs = true -> stored m vs' = true.
Proof.
  induction 1 as [|vs vs' n x _ IH _]; [auto|].
  intros Hs. apply setIn_stored. auto.
Qed.

Lemma writes_others (ns : list string) (vs vs' : list (Variable_ float)) (m : string) :
  writes ns vs vs' -> ~ In m ns ->
  filter (name_is (NameText m)) vs' = filter (name_is (NameText m)) vs.
Proof.
  induction 1 as [|vs vs' n x _ IH Hn]; [reflexivity|].
  intros Hm. rewrite setIn_other_name; [auto|]. intros ->. contradiction.
Qed.

Lemma writes_distinct (ns : list string) (vs vs' : list (Variable_ float)) :
  writes ns vs vs' -> distinct (map name vs) = true -> distinct (map name vs') = true.
Proof.
  induction 1 as [|vs vs' n x _ IH _]; [auto|].
  intros Hd. apply setIn_distinct. auto.
Qed.

End WritesLemmas.

Section RunInvariants.

Context {host : Host}.
Import JSString SymbolsTableOps ComputeEngine.

Lemma run_final_entries (fuel : nat) (text : string) (st : SymbolsTable) :
  filter isFinal (variables (snd (run fuel text st))) = filter isFinal (variables st)
  /\ filter isFinal (callables (snd (run fuel text st)))
     = filter isFinal (callables st).
Proof.
  pose proof (run_anatomy fuel text st) as H. cbv zeta in H.
  destruct (contains "=" text).
  - destruct (funcRegExp (trim (before "=" text))).
    + destruct H as [-> | (nm & e & _ & _ & ->)]; [split; reflexivity|].
      cbn [variables callables]. split; [reflexivity|apply setIn_final_entries].
    + destruct H as [-> W]. split; [|reflexivity].
      exact (writes_final_entries _ _ _ W).
  - destruct H as [-> W]. split; [|reflexivity].
    exact (writes_final_entries _ _ _ W).
Qed.

Lemma run_blocked (fuel : nat) (text : string) (st : SymbolsTable) (m : string) :
  blocked m (variables (snd (run fuel text st))) = blocked m (variables st)
  /\ blocked m (callables (snd (run fuel text st))) = blocked m (callables st).
Proof.
  pose proof (run_anatomy fuel text st) as H. cbv zeta in H.
  destruct (contains "=" text).
  - destruct (funcRegExp (trim (before "=" text))).
    + destruct H as [-> | (nm & e & _ & _ & ->)]; [split; reflexivity|].
      cbn [variables callables]. split; [reflexivity|apply setIn_names_blocked].
    + destruct H as [-> W]. split; [|reflexivity].
      exact (writes_blocked _ _ _ _ W).
  - destruct H as [-> W]. split; [|reflexivity].
    exact (writes_blocked _ _ _ _ W).
Qed.

Lemma run_stored (fuel : nat) (text : string) (st : SymbolsTable) (m : string) :
  (stored m (variables st) = true ->
   stored m (variables (snd (run fuel text st))) = true)
  /\ (stored m (callables st) = true ->
      stored m (callables (snd (run fuel text st))) = true).
Proof.
  pose proof (run_anatomy fuel text st) as H. cbv zeta in H.
  destruct (contains "=" text).
  - destruct (funcRegExp (trim (before "=" text))).
    + destruct H as [-> | (nm & e & _ & _ & ->)]; [split; auto|].
      cbn [variables callables]. split; [auto|apply setIn_stored].
    + destruct H as [-> W]. split; [|auto].
      exact (writes_stored _ _ _ _ W).
  - destruct H as [-> W]. split; [|auto].
    exact (writes_stored _ _ _ _ W).
Qed.

(** What every table an engine can hold has kept of the default one. *)
Lemma reachable_defaults (st : SymbolsTable) :
  reachable st ->
  filter isFinal (variables st) = filter isFinal (variables getDefaultSymbolsTable)
  /\ filter isFinal (callables st) = callables getDefaultSymbolsTable
  /\ (forall m, blocked m (variables st)
                = blocked m (variables getDefaultSymbolsTable))
  /\ (forall m, blocked m (callables st)
                = blocked m (callables getDefaultSymbolsTable))
  /\ stored "ans" (variables st) = true
  /\ stored "preans" (variables st) = true.
Proof.
  induction 1 as [|fuel text st _ (H1 & H2 & H3 & H4 & H5 & H6)].
  - repeat split; reflexivity.
  - destruct (run_final_entries fuel text st) as [F1 F2].
    split; [now rewrite F1|]. split; [now rewrite F2|].
    split; [intros m; now rewrite (proj1 (run_blocked fuel text st m))|].
    split; [intros m; now rewrite (proj2 (run_blocked fuel text st m))|].
    split; now apply run_stored.
Qed.

End RunInvariants.

(** ** What is thrown *)

Section ParserErrors.
Import Parser.





End ParserErrors.

Section EvaluationErrors.

Context {host : Host}.
Import JSString JSNumber SymbolsTableOps ComputeEngine.



Lemma bodies_closed_callables (st st' : SymbolsTable) :
  callables st' = callables st -> bodies_closed st' = bodies_closed st.
Proof. unfold bodies_closed. now intros ->. Qed.

Lemma calls_within_incl (fns fns' : list string) (e : Expression) :
  (forall m, In m fns -> In m fns') ->
  calls_within fns e = true -> calls_within fns' e = true.
Proof.
  intros Hi. induction e as [v | vn | op l IHl r IHr | o IHo | f a IHa | b];
    simpl; auto.
  - intros H. apply andb_prop in H. destruct H as [H1 H2].
    now rewrite IHl, IHr.
  - intros H. apply andb_prop in H. destruct H as [H1 H2].
    rewrite (IHa H2), andb_true_r.
    apply existsb_exists in H1. destruct H1 as (m & Hm & E).
    apply existsb_exists. exists m. split; auto.
Qed.



Lemma setEach_member {A : Type} (n : string) (x : A) (entries : list (Variable_ A))
      (c : Variable_ A) :
  In c (fst (fst (setEach n x entries))) -> In c entries \/ value c = x.
Proof.
  induction entries as [|v rest IH]; simpl; [auto|].
  destruct (String.eqb (name v) n).
  - unfold setTo. destruct (isFinal v); simpl; [auto|].
    destruct (setEach n x rest) as [[rest' ex] err]. simpl in *.
    intros [<-|H]; [now right|]. destruct (IH H); auto.
  - destruct (setEach n x rest) as [[rest' ex] err]. simpl in *.
    intros [<-|H]; [auto|]. destruct (IH H); auto.
Qed.

(** An entry of the array after a [setSymbol] was there before, or holds
    the new value. *)
Lemma setIn_member {A : Type} (n : string) (x : A) (entries : list (Variable_ A))
      (c : Variable_ A) :
  In c (fst (setIn n x entries)) -> In c entries \/ value c = x.
Proof.
  unfold setIn. pose proof (setEach_member n x entries c) as H.
  destruct (setEach n x entries) as [[es ex] err]. simpl in *.
  destruct err as [e|], ex; simpl; try exact H.
  intros Hin. apply in_app_or in Hin. destruct Hin as [Hin|[<-|[]]]; auto.
Qed.

Lemma setIn_names_kept {A : Type} (n : string) (x : A) (entries : list (Variable_ A))
      (m : string) :
  In m (map name entries) -> In m (map name (fst (setIn n x entries))).
Proof.
  unfold setIn. pose proof (setEach_names n x entries) as H.
  destruct (setEach n x entries) as [[es ex] err]. simpl in *.
  destruct err as [e|], ex; simpl; rewrite ?map_app, ?in_app_iff, H; auto.
Qed.

Lemma run_bodies_closed (fuel : nat) (text : string) (st : SymbolsTable) :
  bodies_closed st = true -> bodies_closed (snd (run fuel text st)) = true.
Proof.
  intros Hb. pose proof (run_anatomy fuel text st) as H. cbv zeta in H.
  destruct (contains "=" text).
  - destruct (funcRegExp (trim (before "=" text))).
    + destruct H as [-> | (nm & e & _ & Hp & ->)]; [exact Hb|].
      destruct (parseText_fitting _ _ _ Hp) as (K & C & _).
      unfold bodies_closed in *. cbn [callables].
      rewrite forallb_forall in *. intros c Hin.
      assert (Hi : forall m, In m (map name (callables st)) ->
                             In m (map name (fst (setIn nm e (callables st)))))
        by (intros m; apply setIn_names_kept).
      destruct (setIn_member _ _ _ _ Hin) as [Hold | ->].
      * specialize (Hb c Hold). apply andb_prop in Hb. destruct Hb as [H1 H2].
        now rewrite (calls_within_incl _ _ _ Hi H1), H2.
      * now rewrite (calls_within_incl _ _ _ Hi C), K.
    + destruct H as [H _]. now rewrite (bodies_closed_callables _ _ H).
  - destruct H as [H _]. now rewrite (bodies_closed_callables _ _ H).
Qed.

End EvaluationErrors.

Section QueryErrors.

Context {host : Host}.
Import JSString JSNumber Tokeniser SymbolsTableOps ComputeEngine.

(** Where [ans] is stored and neither [ans] nor [preans] is final, the
    history roll of a plain query cannot fail. *)
Lemma run_plain_roll (fuel : nat) (text : string) (st : SymbolsTable) :
  contains "=" text = false ->
  stored "ans" (variables st) = true ->
  blocked "preans" (variables st) = false ->
  blocked "ans" (variables st) = false ->
  fst (run fuel text st) = fst (evalString fuel text st).
Proof.
  intros Hplain Ha Hp Hb. unfold run. rewrite Hplain. unfold bind.
  destruct (evalString fuel text st) as [[v | e | ] st1] eqn:He; try reflexivity.
  destruct (evalString_writes _ _ _ _ _ He) as [_ W].
  pose proof (writes_stored _ _ _ "ans" W Ha) as Ha1.
  unfold getVariable. rewrite filter_stored in Ha1.
  destruct (filter (name_is (NameText "ans")) (variables st1)) as [|a rest];
    [discriminate|].
  rewrite setSymbol_number, setIn_error, (writes_blocked _ _ _ _ W), Hp.
  rewrite setSymbol_number. cbn [variables]. rewrite setIn_error.
  rewrite setIn_names_blocked, (writes_blocked _ _ _ _ W), Hb. reflexivity.
Qed.

Lemma reachable_closed (st : SymbolsTable) :
  reachable st -> bodies_closed st = true /\ well_formed st = true.
Proof.
  induction 1 as [|fuel text st _ [H1 H2]]; [split; reflexivity|].
  split; [now apply run_bodies_closed|now apply run_well_formed].
Qed.





Lemma before_absent (c : ascii) (s : string) :
  contains c s = false -> before c s = s.
Proof.
  induction s as [|d s IH]; simpl; [reflexivity|].
  intros H. apply orb_false_iff in H. destruct H as [H1 H2].
  now rewrite H1, (IH H2).
Qed.

End QueryErrors.

(** ** Runs on the tables an engine can hold *)

Section RunProperties.

Context {host : Host}.
Import JSString JSNumber SymbolsTableOps ComputeEngine.

Lemma distinct_absent {A : Type} (n : string) (entries : list (Variable_ A)) :
  existsb (String.eqb n) (map name entries) = false ->
  filter (name_is (NameText n)) entries = [].
Proof.
  induction entries as [|v rest IH]; simpl; [reflexivity|].
  intros H. apply orb_false_iff in H. destruct H as [Hv Hr].
  rewrite String.eqb_sym, Hv. auto.
Qed.

(** With distinct names, an entry of the array is the one found under its
    name. *)
Lemma distinct_lookup {A : Type} (v : Variable_ A) (entries : list (Variable_ A)) :
  distinct (map name entries) = true -> In v entries ->
  filter (name_is (NameText (name v))) entries = [v].
Proof.
  induction entries as [|a rest IH]; simpl; intros Hd Hin; [contradiction|].
  apply andb_true_iff in Hd. destruct Hd as [Ha Hr].
  apply negb_true_iff in Ha. destruct Hin as [->|Hin].
  - rewrite String.eqb_refl. now rewrite (distinct_absent _ _ Ha).
  - destruct (String.eqb (name a) (name v)) eqn:E; [|auto].
    apply String.eqb_eq in E. exfalso.
    assert (existsb (String.eqb (name a)) (map name rest) = true); [|congruence].
    apply existsb_exists. exists (name v). split; [now apply in_map|].
    rewrite E. apply String.eqb_refl.
Qed.

Lemma final_entry_found {A : Type} (v : Variable_ A) (entries finals : list (Variable_ A)) :
  distinct (map name entries) = true ->
  filter isFinal entries = finals -> In v finals ->
  filter (name_is (NameText (name v))) entries = [v].
Proof.
  intros Hd <- Hin. apply filter_In in Hin. now apply distinct_lookup.
Qed.

Lemma getCallable_agree (n : string) (st st' : SymbolsTable) :
  filter (name_is (NameText n)) (callables st)
  = filter (name_is (NameText n)) (callables st') ->
  fst (getCallable n st) = fst (getCallable n st').
Proof.
  unfold getCallable. intros ->.
  now destruct (filter (name_is (NameText n)) (callables st')).
Qed.

(** No [run] changes a final entry: the final entries of both arrays are
    the same before and after, whatever the text and the outcome. On every
    table an engine can hold they are those of the default table, and the
    lookups find them: [pi] is [Math.PI], [e] is [Math.E], and the eleven
    built-in callables are in place. *)
Theorem final_entries_are_kept :
  (forall fuel text st,
      filter isFinal (variables (snd (run fuel text st)))
      = filter isFinal (variables st)
      /\ filter isFinal (callables (snd (run fuel text st)))
         = filter isFinal (callables st))
  /\ (forall st, reachable st ->
        filter isFinal (variables st)
        = [mkVariable "pi" Math_PI true; mkVariable "e" Math_E true]
        /\ filter isFinal (callables st) = callables getDefaultSymbolsTable
        /\ getVariable (NameText "pi") st = (Ok (mkVariable "pi" Math_PI true), st)
        /\ getVariable (NameText "e") st = (Ok (mkVariable "e" Math_E true), st)
        /\ (forall c, In c (callables getDefaultSymbolsTable) ->
              getCallable (name c) st = (Ok c, st))).
Proof.
  split; [intros; apply run_final_entries|].
  intros st Hr.
  destruct (reachable_defaults st Hr) as (H1 & H2 & _).
  pose proof (proj2 (reachable_closed st Hr)) as Hw.
  apply andb_true_iff in Hw. destruct Hw as [Hv Hc].
  split; [exact H1|]. split; [exact H2|].
  assert (Hpi := final_entry_found (mkVariable "pi" Math_PI true) _ _ Hv H1).
  assert (He := final_entry_found (mkVariable "e" Math_E true) _ _ Hv H1).
  cbn [name] in Hpi, He.
  split; [|split].
  - unfold getVariable. cbn [name_is]. rewrite Hpi; [reflexivity|]. cbn. auto.
  - unfold getVariable. cbn [name_is]. rewrite He; [reflexivity|]. cbn. auto.
  - intros c Hin. unfold getCallable.
    now rewrite (final_entry_found c _ _ Hc H2 Hin).
Qed.

(** On every table an engine can hold the history roll of a plain query
    cannot fail: [ans] is stored, and [ans] and [preans] are not final. So
    [run] returns what evaluating the text returns, value or error. *)
Theorem plain_query_returns_its_value (st : SymbolsTable) :
  reachable st ->
  forall fuel text,
    contains "=" text = false ->
    fst (run fuel text st) = fst (evalString fuel text st).
Proof.
  intros Hr fuel text Hplain.
  destruct (reachable_defaults st Hr) as (_ & _ & Hb & _ & Ha & _).
  apply run_plain_roll; auto; now rewrite Hb.
Qed.

(** What a [run] leaves alone. A plain query changes no callable and no
    variable other than [x], [preans] and [ans]; an assignment that is not
    a function definition changes no callable and no variable other than
    [x] and the one its left part names; a function definition changes no
    variable and no callable other than the one it names. *)
Theorem run_frame (fuel : nat) (text : string) (st : SymbolsTable) :
  let st' := snd (run fuel text st) in
  let left_ := trim (before "=" text) in
  (contains "=" text = false ->
     callables st' = callables st
     /\ forall m, m <> "x" -> m <> "preans" -> m <> "ans" ->
          fst (getVariable (NameText m) st') = fst (getVariable (NameText m) st))
  /\ (contains "=" text = true -> funcRegExp left_ = false ->
        callables st' = callables st
        /\ forall m, m <> "x" -> m <> left_ ->
             fst (getVariable (NameText m) st') = fst (getVariable (NameText m) st))
  /\ (contains "=" text = true -> funcRegExp left_ = true ->
        variables st' = variables st
        /\ forall m, m <> before "(" left_ ->
             fst (getCallable m st') = fst (getCallable m st)).
Proof.
  intros st' left_. pose proof (run_anatomy fuel text st) as H. cbv zeta in H.
  fold st' left_ in H.
  split; [|split].
  - intros Hc. rewrite Hc in H. destruct H as [H W]. split; [exact H|].
    intros m H1 H2 H3. apply getVariable_agree.
    apply (writes_others _ _ _ m W). intros [E|[E|[E|[]]]]; congruence.
  - intros Hc Hf. rewrite Hc, Hf in H. destruct H as [H W]. split; [exact H|].
    intros m H1 H2. apply getVariable_agree.
    apply (writes_others _ _ _ m W). intros [E|[E|[]]]; congruence.
  - intros Hc Hf. rewrite Hc, Hf in H.
    destruct H as [-> | (nm & e & Hi & _ & ->)]; [split; reflexivity|].
    split; [reflexivity|]. intros m Hm. apply getCallable_agree.
    cbn [callables]. apply setIn_other_name.
    destruct (split_before "(" left_) as (us & Hs & _).
    unfold item in Hi. rewrite Hs in Hi. cbn in Hi. congruence.
Qed.

(** An assignment to a name whose entry is final never succeeds: once the
    right part has been evaluated (or parsed, for a function definition)
    it throws [Cannot modify] with the name; and on every table an engine
    can hold [pi], [e] and the built-in callables are such names. *)
Theorem assignment_to_a_final_name :
  (forall fuel text st,
      contains "=" text = true ->
      is_name (trim (before "=" text)) = true ->
      blocked (trim (before "=" text)) (variables st) = true ->
      fst (run fuel text st)
      = match fst (evalString fuel (trim (before "=" (after "=" text))) st) with
        | Ok _ => Throw (CannotModify (trim (before "=" text)))
        | other => other
        end)
  /\ (forall fuel text st nm,
        contains "=" text = true ->
        is_name nm = true ->
        trim (before "=" text) = (nm ++ "(x)")%string ->
        blocked nm (callables st) = true ->
        fst (run fuel text st)
        = match fst (parseText (trim (before "=" (after "=" text))) st) with
          | Ok _ => Throw (CannotModify nm)
          | Throw e => Throw e
          | OutOfFuel => OutOfFuel
          end)
  /\ (forall st, reachable st ->
        blocked "pi" (variables st) = true
        /\ blocked "e" (variables st) = true
        /\ forall c, In c (callables getDefaultSymbolsTable) ->
                     blocked (name c) (callables st) = true).
Proof.
  split; [|split].
  - intros fuel text st Hc Hn Hb. rewrite (run_assignment fuel text st Hc).
    set (left_ := trim (before "=" text)) in *.
    set (right_ := trim (before "=" (after "=" text))) in *.
    unfold _handleAssignment.
    rewrite (name_not_function left_ Hn), varNameRegExp_spec, Hn. unfold bind.
    destruct (evalString fuel right_ st) as [[v | e | ] st1] eqn:He; try reflexivity.
    destruct (evalString_writes _ _ _ _ _ He) as [_ W].
    rewrite setSymbol_number, setIn_error, (writes_blocked _ _ _ left_ W), Hb.
    reflexivity.
  - intros fuel text st nm Hc Hn Hl Hb. rewrite (run_assignment fuel text st Hc).
    set (right_ := trim (before "=" (after "=" text))) in *.
    rewrite Hl. unfold _handleAssignment.
    assert (Hf : funcRegExp (nm ++ "(x)") = true)
      by (apply funcRegExp_spec; now exists nm).
    rewrite Hf. unfold bind, lift, _getExpression.
    rewrite (function_name nm Hn). cbn [deref].
    pose proof (parseText_state right_ st) as Hs.
    destruct (parseText right_ st) as [[e | e | ] st1]; simpl in Hs; subst st1;
      try reflexivity.
    rewrite setSymbol_expression, setIn_error, Hb. reflexivity.
  - intros st Hr.
    destruct (reachable_defaults st Hr) as (_ & _ & Hv & Hcs & _).
    rewrite !Hv. split; [reflexivity|]. split; [reflexivity|].
    intros c Hin. rewrite Hcs.
    cbn in Hin. repeat (destruct Hin as [<-|Hin]; [reflexivity|]). contradiction.
Qed.

End RunProperties.

Section RunErrors.

Context {host : Host}.
Import JSString JSNumber SymbolsTableOps ComputeEngine.


End RunErrors.

(** ** The tokeniser, from outside *)

Section TokeniserProperties.

Context {host : Host}.
Import JSString Tokeniser SymbolsTableOps ComputeEngine.

(** The tokeniser loses nothing but white space: when [tokenise] returns,
    the texts of its tokens, one after the other, are the input without its
    white space. *)
Theorem tokenise_keeps_the_text (input : string) (fns : list string)
        (tokens : list Token) :
  tokenise input fns = Ok tokens ->
  texts tokens = without_spaces input.
Proof.
  intros H. exact (tokenise_loop_texts _ _ _ _ _ H).
Qed.

(** Every token of [tokenise] is of a piece: an identifier token is a name
    that is none of the available functions and a function-call token is a
    name that is one of them; a number token is an unsigned decimal
    literal; an operator token has the precedence of its type in
    [OperatorPrecedence], which is positive, and every other token has
    precedence 0; a binary operator token has one of the six operator
    characters as its text. *)
Theorem tokenise_tokens_are_consistent (input : string) (fns : list string)
        (tokens : list Token) :
  tokenise input fns = Ok tokens ->
  forall t, In t tokens ->
    (isVariable t = true -> is_name (text t) = true /\ ~ In (text t) fns)
    /\ (isFunctionCall t = true -> is_name (text t) = true /\ In (text t) fns)
    /\ (isUnsignedNumber t = true -> is_number (text t) = true)
    /\ (isOperator t = true ->
        precedence t = Map_get OperatorPrecedence (type t) 0%Z
        /\ (0 < precedence t)%Z)
    /\ (isOperator t = false -> precedence t = 0%Z)
    /\ (isBinaryOperator t = true ->
        In (text t) ["+"; "-"; "*"; "/"; "^"; "E"]).
Proof.
  intros H t Hin.
  pose proof (fits_in _ _ _ (tokenise_fits _ _ _ H) Hin) as Hf.
  split; [|split; [|split; [|split; [|split]]]].
  - intros Hv. destruct (fits_variable _ _ Hf Hv) as [Hn Ha]. split; [exact Hn|].
    intros Hi. unfold _isAFunction in Ha.
    assert (existsb (String.eqb (text t)) fns = true); [|congruence].
    apply existsb_exists. exists (text t). split; [exact Hi|apply String.eqb_refl].
  - intros Hc. destruct (fits_call _ _ Hf Hc) as [Hn Ha]. split; [exact Hn|].
    unfold _isAFunction in Ha. apply existsb_exists in Ha.
    destruct Ha as (m & Hm & E). apply String.eqb_eq in E. now subst m.
  - intros Hn. unfold token_fits, text_fits in Hf. unfold isUnsignedNumber in Hn.
    apply andb_prop in Hf. destruct Hf as [Hf _].
    destruct (type t); try discriminate Hn. exact Hf.
  - intros Ho. unfold token_fits, attributes_fit in Hf. rewrite Ho in Hf.
    apply andb_prop in Hf. destruct Hf as [_ Hf].
    apply andb_prop in Hf. destruct Hf as [Hf _].
    apply andb_prop in Hf. destruct Hf as [H1 H2].
    apply Z.eqb_eq in H1. apply Z.ltb_lt in H2. auto.
  - intros Ho. unfold token_fits, attributes_fit in Hf. rewrite Ho in Hf.
    apply andb_prop in Hf. destruct Hf as [_ Hf].
    apply andb_prop in Hf. destruct Hf as [H1 _]. now apply Z.eqb_eq in H1.
  - intros Hb. pose proof (fits_binary _ _ Hf Hb) as Hk.
    unfold known_operator in Hk. apply existsb_exists in Hk.
    destruct Hk as (m & Hm & E). apply String.eqb_eq in E. now subst m.
Qed.

(** White space at the start of the input is an unknown token, whereas
    white space after a token is skipped: [tokenise] throws on every input
    that starts with white space, and so does [run] on every plain query
    that does, leaving the table as it was. *)
Theorem leading_white_space_is_unknown :
  (forall c s fns,
      is_space c = true -> tokenise (String c s) fns = Throw UnknownTokens)
  /\ (forall fuel c s st,
        is_space c = true -> contains "=" (String c s) = false ->
        run fuel (String c s) st = (Throw UnknownTokens, st))
  /\ (forall fns,
        tokenise "2 + 3 " fns
        = Ok [make_token "2" UnsignedNumber fns; make_token "+" OperatorAdd fns;
              make_token "3" UnsignedNumber fns]).
Proof.
  assert (Ht : forall c s fns,
             is_space c = true -> tokenise (String c s) fns = Throw UnknownTokens).
  { intros c s fns Hc. unfold tokenise. cbn [tokenise_loop].
    unfold _nextMatchingToken. now rewrite (first_match_space c s Hc). }
  split; [exact Ht|]. split; [|reflexivity].
  intros fuel c s st Hc Hplain. unfold run. rewrite Hplain.
  unfold bind, evalString, bind, parseText. now rewrite (Ht c s _ Hc).
Qed.

End TokeniserProperties.

Section ParsedProperties.

Context {host : Host}.
Import JSString Tokeniser SymbolsTableOps ComputeEngine.

(** The [-1] that [BinaryExpression.eval] returns for an operator it has
    no case for is never the value of a node of the engine: every binary
    node the parser builds from the tokeniser's tokens carries one of
    [+ - * / ^ E], and so does every node of the body of a callable in a
    table an engine can hold. *)
Theorem no_unknown_operator :
  (forall op a b, known_operator op = false -> applyOperator op a b = Ok (-1)%float)
  /\ (forall text st e,
        fst (parseText text st) = Ok e -> operators_known e = true)
  /\ (forall st, reachable st ->
        forall c, In c (callables st) -> operators_known (value c) = true).
Proof.
  split; [|split].
  - intros op a b H. unfold known_operator in H. cbn [existsb] in H.
    repeat (apply orb_false_iff in H; destruct H as [? H]).
    unfold applyOperator.
    repeat match goal with E : String.eqb _ _ = false |- _ => rewrite E; clear E end.
    reflexivity.
  - intros text st e H. exact (proj1 (parseText_fitting _ _ _ H)).
  - intros st Hr c Hin. destruct (reachable_closed st Hr) as [Hb _].
    unfold bodies_closed in Hb. rewrite forallb_forall in Hb.
    specialize (Hb c Hin). apply andb_prop in Hb. exact (proj2 Hb).
Qed.


End ParsedProperties.

(** ** Where the parser stops, and how it groups *)

Section ParserStops.
Import Parser.

Ltac split_cases :=
  repeat match goal with
    | H : Ok _ = Ok _ |- _ => inversion H; subst; clear H
    | H : Throw _ = Ok _ |- _ => discriminate H
    | H : OutOfFuel = Ok _ |- _ => discriminate H
    | H : context [match nth_error ?t ?i with _ => _ end] |- _ =>
        destruct (nth_error t i) eqn:?
    | H : context [if ?b then _ else _] |- _ => destruct b eqn:?
    | H : context [bindR ?r _] |- _ => destruct r eqn:?; cbn [bindR] in H
    | H : context [match ?x with _ => _ end] |- _ => destruct x eqn:?
    | H : deref ?p = Ok _ |- _ => destruct p; cbn [deref] in H
    end.

Ltac bounds IH :=
  repeat match goal with
    | E : nextAsRightOperand _ ?j ?t = Ok ?r |- _ =>
        generalize (proj1 (proj2 (proj2 (IH j t))) r E); clear E; intro
    | E : parseBrackets _ ?j ?t = Ok ?r |- _ =>
        generalize (proj1 (proj2 (proj2 (proj2 (IH j t)))) r E); clear E; intro
    | E : parseFunctionCall _ ?j ?t = Ok ?r |- _ =>
        generalize (proj2 (proj2 (proj2 (proj2 (IH j t)))) r E); clear E; intro
    | E : parse _ ?j ?t = Ok (Obj ?r) |- _ =>
        generalize (proj1 (IH j t) r E); clear E; intro
    end.

Ltac lengths :=
  repeat match goal with
    | E : nth_error ?t ?i = Some _ |- _ =>
        lazymatch goal with
        | _ : (i < List.length t)%nat |- _ => fail
        | _ => assert (i < List.length t)%nat by (apply nth_error_Some; congruence)
        end
    | E : nth_error ?t ?i = None |- _ => apply nth_error_None in E
    end.

Ltac conclude IH :=
  lengths; bounds IH; cbn [nextStartIndex expression] in *;
  first
    [ match goal with
      | E : continueParsing _ ?l ?j ?t = Ok (Obj ?r) |- _ =>
          apply (proj1 (proj2 (IH j t)) l r); [|exact E]; intuition lia
      end
    | split; [lia|]; intros;
      match goal with
      | A : nth_error ?t ?i = Some ?x, B : nth_error ?t ?i = Some ?y |- _ =>
          rewrite A in B; inversion B; subst; assumption
      | A : nth_error ?t ?i = Some ?x, B : (List.length ?t <= ?i)%nat |- _ =>
          exfalso; apply nth_error_None in B; congruence
      end
    | intuition lia ].

Lemma parser_stops : forall fuel, stops fuel.
Proof.
  induction fuel as [|fuel IH]; intros i tokens.
  - repeat split; intros; discriminate.
  - split; [|split; [|split; [|split]]].
    + intros r H. cbn [parse] in H. split_cases; conclude IH.
    + intros l r Hi H. cbn [continueParsing] in H.
      unfold buildUnaryExpression in H. split_cases; conclude IH.
    + intros r H. cbn [nextAsRightOperand] in H. split_cases; conclude IH.
    + intros r H. cbn [parseBrackets] in H. split_cases; conclude IH.
    + intros r H. cbn [parseFunctionCall] in H. split_cases; conclude IH.
Qed.

End ParserStops.

Section ParserGrouping.

Context {host : Host}.
Import JSString JSNumber Tokeniser Parser SymbolsTableOps ComputeEngine.

(** A [parse] that returns a result has moved on, and has stopped at the
    end of the tokens or at a closing bracket; [evalString] evaluates the
    result wherever it stopped, so a query with a closing bracket that
    matches no opening one is evaluated up to that bracket. *)
Theorem parse_stops_at_a_closing_bracket :
  (forall fuel i tokens r,
      parse fuel i tokens = Ok (Obj r) ->
      (i < nextStartIndex r <= List.length tokens)%nat
      /\ ((nextStartIndex r < List.length tokens)%nat ->
          exists t, nth_error tokens (nextStartIndex r) = Some t
                    /\ isClosingBracket t = true))
  /\ (forall fuel, (3 <= fuel)%nat ->
        fst (run fuel "1+2)*3" getDefaultSymbolsTable) = Ok 3%float
        /\ fst (run fuel "2)" getDefaultSymbolsTable) = Ok 2%float).
Proof.
  split.
  - intros fuel i tokens r H.
    pose proof (proj1 (parser_progresses fuel i tokens) r H) as Hp.
    destruct (proj1 (parser_stops fuel i tokens) r H) as [Hl Hc].
    split; [lia|]. intros Hlt.
    destruct (nth_error tokens (nextStartIndex r)) as [t|] eqn:E.
    + exists t. split; [reflexivity|]. now apply Hc.
    + apply nth_error_None in E. lia.
  - intros fuel Hf.
    enough_fuel 3%nat "1+2)*3". enough_fuel 3%nat "2)".
    split; vm_compute; reflexivity.
Qed.

(** A function call that follows an operand ends the parse in
    [undefined]: [continueParsing] has no branch for an operator that is
    neither the factorial nor binary, and falls off its end. [evalString]
    then reads [.expression] of [undefined], so [2sin(1)] ends in the
    host's [TypeError], which is none of the engine's own errors. *)
Theorem function_call_after_an_operand :
  (forall fuel l i tokens t,
      nth_error tokens i = Some t ->
      isFunctionCall t = true -> isBinaryOperator t = false ->
      continueParsing (S fuel) l i tokens = Ok Undefined)
  /\ (forall fuel n f rest,
        isUnsignedNumber n = true \/ isVariable n = true ->
        isFunctionCall f = true -> isBinaryOperator f = false ->
        parse (S (S fuel)) 0 (n :: f :: rest) = Ok Undefined)
  /\ (forall fuel,
        run fuel "2sin(1)" getDefaultSymbolsTable
        = (Throw (TypeError JSundefined), getDefaultSymbolsTable))
  /\ taxonomy (TypeError JSundefined) = None.
Proof.
  assert (Hc : forall fuel l i tokens t,
             nth_error tokens i = Some t ->
             isFunctionCall t = true -> isBinaryOperator t = false ->
             continueParsing (S fuel) l i tokens = Ok Undefined).
  { intros fuel l i tokens t Hn Hf Hb. cbn [continueParsing]. rewrite Hn.
    unfold isFunctionCall in Hf. apply andb_prop in Hf. destruct Hf as [Ho Ht].
    unfold isClosingBracket, isFactorial. rewrite Ho, Hb.
    destruct (type t); try discriminate Ht. reflexivity. }
  split; [exact Hc|]. split; [|split; [|reflexivity]].
  - intros fuel n f rest Hn Hf Hb. cbn [parse nth_error].
    assert (Hs : isPlusOrMinus n = false).
    { unfold isPlusOrMinus, isPlus, isMinus, isUnsignedNumber, isVariable in *.
      destruct (type n); destruct Hn as [Hn|Hn]; try discriminate Hn; reflexivity. }
    rewrite Hs.
    destruct (isUnsignedNumber n); [now apply (Hc fuel _ 1%nat (n :: f :: rest) f)|].
    destruct Hn as [Hn|Hn]; [discriminate|]. rewrite Hn.
    now apply (Hc fuel _ 1%nat (n :: f :: rest) f).
  - intros fuel. reflexivity.
Qed.

End ParserGrouping.

Section FlatExpressions.

Context {host : Host}.
Import JSString JSNumber Tokeniser Parser SymbolsTableOps ComputeEngine.

Lemma number_token (fns : list string) (n : Token) :
  token_fits fns n = true -> isUnsignedNumber n = true ->
  isPlusOrMinus n = false /\ isVariable n = false /\ isOperator n = false
  /\ isClosingBracket n = false.
Proof.
  destruct n as [a ty p k]. unfold isUnsignedNumber. cbn [type].
  intros _ H. destruct ty; try discriminate H. repeat split.
Qed.

Lemma operator_token (fns : list string) (o : Token) :
  token_fits fns o = true -> isBinaryOperator o = true ->
  isOperator o = true /\ isClosingBracket o = false /\ isFactorial o = false.
Proof.
  destruct o as [a ty p k].
  unfold token_fits, attributes_fit, isBinaryOperator. cbn [type opType precedence].
  intros F H. apply andb_prop in F. destruct F as [_ F].
  destruct ty, k; try discriminate H; cbn in F;
    try (apply andb_prop in F; destruct F as [_ F]; discriminate F);
    repeat split.
Qed.

Lemma operator_and_number_facts (fns : list string) (o n : Token) :
  operator_and_number fns (o, n) = true ->
  token_fits fns o = true /\ isBinaryOperator o = true
  /\ token_fits fns n = true /\ isUnsignedNumber n = true.
Proof.
  unfold operator_and_number. cbn [fst snd]. rewrite !andb_true_iff. tauto.
Qed.

Lemma nth_error_middle {A : Type} (pre : list A) (x : A) (post : list A) :
  nth_error (pre ++ x :: post) (List.length pre) = Some x.
Proof. rewrite nth_error_app2, Nat.sub_diag by lia. reflexivity. Qed.

Lemma nth_error_end {A : Type} (l : list A) : nth_error l (List.length l) = None.
Proof. apply nth_error_None. lia. Qed.

Lemma nextOperator_chain (fns : list string) (pre : list Token) (n : Token)
      (rest : list (Token * Token)) :
  token_fits fns n = true -> isUnsignedNumber n = true ->
  forallb (operator_and_number fns) rest = true ->
  _nextOperator (List.length pre) (pre ++ n :: chain rest)
  = match rest with
    | [] => None
    | (o, _) :: _ => Some o
    end.
Proof.
  intros Fn Hn Hrest. unfold _nextOperator.
  rewrite skipn_app, skipn_all, Nat.sub_diag. cbn [skipn app find].
  destruct (number_token fns n Fn Hn) as (_ & _ & Ho & _). rewrite Ho.
  destruct rest as [|[o m] rest]; [reflexivity|].
  cbn [forallb] in Hrest. apply andb_prop in Hrest. destruct Hrest as [Hp _].
  destruct (operator_and_number_facts fns o m Hp) as (Fo & Bo & _).
  cbn [chain flat_map fst snd app find].
  now rewrite (proj1 (operator_token fns o Fo Bo)).
Qed.

(** [continueParsing] on a left operand followed by operators and numbers
    builds the closed form. *)
Lemma continueParsing_chain (fns : list string) (rest : list (Token * Token)) :
  forallb (operator_and_number fns) rest = true ->
  forall fuel pre left_,
    (2 * List.length rest + 1 <= fuel)%nat ->
    continueParsing fuel left_ (List.length pre) (pre ++ chain rest)
    = Ok (Obj (mkParsingResult (group left_ rest)
                               (List.length pre + 2 * List.length rest))).
Proof.
  induction rest as [|[o n] rest IH]; intros Hrest fuel pre left_ Hfuel.
  - destruct fuel as [|fuel]; [simpl in Hfuel; lia|].
    cbn [chain flat_map]. rewrite app_nil_r. cbn [continueParsing].
    rewrite nth_error_end. cbn [List.length Nat.mul]. rewrite Nat.add_0_r.
    reflexivity.
  - cbn [forallb] in Hrest. apply andb_prop in Hrest. destruct Hrest as [Hp Hrest].
    destruct (operator_and_number_facts fns o n Hp) as (Fo & Bo & Fn & Nn).
    destruct (operator_token fns o Fo Bo) as (Oo & Co & Fa).
    destruct (number_token fns n Fn Nn) as (Sn & Vn & On & Cn).
    cbn [List.length] in Hfuel.
    destruct fuel as [|fuel]; [lia|].
    cbn [chain flat_map fst snd app]. fold (chain rest).
    cbn [continueParsing]. rewrite nth_error_middle, Oo, Co, Fa, Bo. cbn [orb].
    assert (Epre : (pre ++ o :: n :: chain rest) = ((pre ++ [o]) ++ n :: chain rest))
      by now rewrite <- app_assoc.
    assert (Lpre : (List.length pre + 1)%nat = List.length (pre ++ [o]))
      by (rewrite length_app; reflexivity).
    assert (Epre2 : (pre ++ o :: n :: chain rest) = ((pre ++ [o; n]) ++ chain rest))
      by now rewrite <- app_assoc.
    assert (Lpre2 : (List.length pre + 1 + 1)%nat = List.length (pre ++ [o; n]))
      by (rewrite length_app; cbn [List.length]; lia).
    assert (Hnar : forall f, nextAsRightOperand (S f) (List.length pre + 1)
                               (pre ++ o :: n :: chain rest)
                             = Ok (mkParsingResult
                                     (ConstantExpression (parseFloat (text n)))
                                     (List.length pre + 1 + 1))).
    { intros f. cbn [nextAsRightOperand]. rewrite Epre at 1. rewrite Lpre at 1.
      rewrite nth_error_middle, Vn, Nn. reflexivity. }
    assert (Hend : forall f l,
               (2 * List.length rest + 1 <= f)%nat ->
               continueParsing f l (List.length pre + 1 + 1)
                               (pre ++ o :: n :: chain rest)
               = Ok (Obj (mkParsingResult (group l rest)
                            (List.length pre + 2 * S (List.length rest))))).
    { intros f l Hf. rewrite Epre2, Lpre2, (IH Hrest f _ l Hf).
      rewrite length_app. cbn [List.length]. do 3 f_equal. lia. }
    rewrite Lpre, Epre at 1.
    rewrite (nextOperator_chain fns (pre ++ [o]) n rest Fn Nn Hrest).
    rewrite <- ?Lpre, <- ?Epre.
    destruct fuel as [|fuel]; [lia|].
    destruct rest as [|[o' n'] rest'].
    + rewrite Hnar. cbn [bindR expression nextStartIndex buildBinaryExpression].
      rewrite Hend by (cbn [List.length] in *; lia). reflexivity.
    + cbn [group]. destruct (hasHigherPrecedenceThan o o').
      * rewrite Hnar. cbn [bindR expression nextStartIndex buildBinaryExpression].
        rewrite Hend by (cbn [List.length] in *; lia). reflexivity.
      * assert (Hparse : forall f,
                   parse (S f) (List.length pre + 1)
                         (pre ++ o :: n :: chain ((o', n') :: rest'))
                   = continueParsing f (ConstantExpression (parseFloat (text n)))
                       (List.length pre + 1 + 1)
                       (pre ++ o :: n :: chain ((o', n') :: rest'))).
        { intros f. cbn [parse]. rewrite Epre at 1. rewrite Lpre at 1.
          rewrite nth_error_middle, Sn, Nn. reflexivity. }
        rewrite Hparse.
        rewrite Hend by (cbn [List.length] in *; lia).
        cbn [bindR deref expression nextStartIndex buildBinaryExpression].
        destruct fuel as [|fuel]; [cbn [List.length] in *; lia|].
        cbn [continueParsing].
        assert (Hlen : nth_error (pre ++ o :: n :: chain ((o', n') :: rest'))
                         (List.length pre + 2 * S (List.length ((o', n') :: rest')))
                       = None).
        { apply nth_error_None. rewrite length_app. cbn [List.length].
          assert (Hc : forall r, List.length (chain r) = (2 * List.length r)%nat).
          { induction r as [|p r IHr]; [reflexivity|].
            cbn [chain flat_map List.length app]. fold (chain r). rewrite IHr.
            cbn [List.length]. lia. }
          rewrite Hc. cbn [List.length]. lia. }
        rewrite Hlen. reflexivity.
Qed.

(** The expression of numbers joined by binary operators, in closed form.
    An operator whose precedence is strictly higher than the next
    operator's takes the single number after it as its right operand; every
    other operator but the last takes all the rest of the text. So a chain
    of one operator nests to the right ([2-3-4] is 2-(3-4) = 3, [8/4/2] is
    8/(4/2) = 4 and [10-1-1-1] is 10-(1-(1-1)) = 9),
    and a lower operator before a higher one takes everything after it
    ([1-2*3+4] is 1-((2*3)+4) = -9, and [2*3-4+1] is (2*3)-(4+1) = 1). *)
Theorem flat_expressions_group :
  (forall fns n rest,
      token_fits fns n = true -> isUnsignedNumber n = true ->
      forallb (operator_and_number fns) rest = true ->
      parse (parse_budget (n :: chain rest)) 0 (n :: chain rest)
      = Ok (Obj (mkParsingResult
                   (group (ConstantExpression (parseFloat (text n))) rest)
                   (1 + 2 * List.length rest))))
  /\ (forall fuel, (12 <= fuel)%nat ->
        fst (run fuel "2-3-4" getDefaultSymbolsTable) = Ok 3%float
        /\ fst (run fuel "8/4/2" getDefaultSymbolsTable) = Ok 4%float
        /\ fst (run fuel "10-1-1-1" getDefaultSymbolsTable) = Ok 9%float
        /\ fst (run fuel "1-2*3+4" getDefaultSymbolsTable) = Ok (-9)%float
        /\ fst (run fuel "2*3-4+1" getDefaultSymbolsTable) = Ok 1%float).
Proof.
  split.
  - intros fns n rest Fn Nn Hrest.
    destruct (number_token fns n Fn Nn) as (Sn & Vn & On & Cn).
    assert (Hc : forall r, List.length (chain r) = (2 * List.length r)%nat).
    { induction r as [|p r IHr]; [reflexivity|].
      cbn [chain flat_map List.length app]. fold (chain r). rewrite IHr.
      cbn [List.length]. lia. }
    assert (HF : exists F, parse_budget (n :: chain rest) = S F
                           /\ (2 * List.length rest + 1 <= F)%nat).
    { unfold parse_budget. cbn [List.length]. rewrite Hc.
      exists (3 * S (2 * List.length rest) + 2)%nat. split; lia. }
    destruct HF as (F & -> & HF).
    cbn [parse nth_error]. rewrite Sn, Nn.
    exact (continueParsing_chain fns rest Hrest F [n] _ HF).
  - intros fuel Hf.
    enough_fuel 12%nat "2-3-4". enough_fuel 12%nat "8/4/2".
    enough_fuel 12%nat "10-1-1-1". enough_fuel 12%nat "1-2*3+4".
    enough_fuel 12%nat "2*3-4+1".
    repeat split; vm_compute; reflexivity.
Qed.

End FlatExpressions.

Section MoreGrouping.

Context {host : Host}.
Import JSString JSNumber Tokeniser Parser SymbolsTableOps ComputeEngine.

Lemma nextOperator_here (j : nat) (tokens : list Token) (t : Token) :
  nth_error tokens j = Some t -> isOperator t = true ->
  _nextOperator j tokens = Some t.
Proof.
  intros Hn Ho. unfold _nextOperator.
  revert tokens Hn. induction j as [|j IH]; intros [|a tokens] Hn;
    try discriminate Hn; simpl in *.
  - inversion Hn. subst. now rewrite Ho.
  - now apply IH.
Qed.


(** A binary operator that is followed by a function call takes the parse
    of all the rest as its right operand, whatever its precedence: the
    lookahead of [continueParsing] finds the function-call token itself,
    whose precedence, 110, no binary operator exceeds. After [f(x)=x],
    [2*f(0)+1] is 2*(f(0)+1) = 2. *)
Theorem operator_before_a_function_call :
  (forall fns fuel l i tokens o f,
      nth_error tokens i = Some o ->
      nth_error tokens (i + 1) = Some f ->
      token_fits fns o = true -> token_fits fns f = true ->
      isBinaryOperator o = true -> isFunctionCall f = true ->
      continueParsing (S fuel) l i tokens
      = bindR (bindR (parse fuel (i + 1) tokens) deref)
              (fun right_ =>
                 continueParsing fuel
                   (BinaryExpression (text o) l (expression right_))
                   (nextStartIndex right_) tokens))
  /\ (forall fuel, (8 <= fuel)%nat ->
        let st1 := snd (run fuel "f(x)=x" getDefaultSymbolsTable) in
        fst (run fuel "2*f(0)+1" st1) = Ok 2%float
        /\ fst (run fuel "f(0)*2+1" st1) = Ok 1%float).
Proof.
  split.
  - intros fns fuel l i tokens o f Ho Hf Fo Ff Bo Cf.
    cbn [continueParsing]. rewrite Ho.
    assert (Hop : isOperator f = true)
      by (unfold isFunctionCall in Cf; now apply andb_prop in Cf).
    rewrite (nextOperator_here _ _ _ Hf Hop).
    destruct o as [b u q k], f as [g w p m].
    unfold token_fits, text_fits, attributes_fit, isBinaryOperator, isFunctionCall,
      isFactorial, isClosingBracket, hasHigherPrecedenceThan in *.
    cbn [type text precedence opType] in *.
    destruct w;
      try (apply andb_prop in Cf; destruct Cf as [_ Cf]; cbn in Cf; discriminate Cf).
    destruct u, k; try discriminate Bo;
      repeat match goal with
        | H : (if _ then _ else _) = true |- _ => progress cbn in H
        | H : _ && _ = true |- _ => apply andb_prop in H; destruct H
        | H : (_ =? _)%Z = true |- _ => apply Z.eqb_eq in H; cbn in H; subst
        | H : false = true |- _ => discriminate H
        end;
      try discriminate; cbn [isOperator existsb TokenType_eqb type orb andb
                             OperatorTokenTypes Z.ltb Z.compare Pos.compare
                             Pos.compare_cont bindR]; reflexivity.
  - intros fuel Hf. cbv zeta.
    enough_fuel 8%nat "f(x)=x".
    set (st1 := snd (run 8 "f(x)=x" getDefaultSymbolsTable)).
    rewrite (run_enough 8 "2*f(0)+1") by (try assumption; vm_compute; discriminate).
    rewrite (run_enough 8 "f(0)*2+1") by (try assumption; vm_compute; discriminate).
    split; vm_compute; reflexivity.
Qed.

End MoreGrouping.

(** ** Factorials and the symbol table *)

Section FactorialValues.

Context {host : Host}.
Import JSNumber.

(** On the integers from 0 to 22 the factorial is exact: [factorialise]
    returns n!, an integer that binary64 holds without rounding, and it
    takes n + 1 nested calls to do so, one per unit of the operand. *)
Theorem factorial_of_small_integers (n : nat) :
  (n <= 22)%nat ->
  factorialise (S n) (of_Z (Z.of_nat n)) = Ok (of_Z (factorial_of n))
  /\ to_Z (of_Z (factorial_of n)) = Some (factorial_of n)
  /\ factorialise n (of_Z (Z.of_nat n)) = OutOfFuel.
Proof.
  intros Hn.
  do 23 (destruct n as [|n]; [vm_compute; repeat split; reflexivity|]).
  lia.
Qed.

End FactorialValues.

Section SymbolRoundTrip.

Import SymbolsTableOps.

Lemma setIn_not_final {A : Type} (n : string) (x : A) (entries : list (Variable_ A)) :
  blocked n entries = false ->
  forall v, In v (filter (name_is (NameText n)) (fst (setIn n x entries))) ->
            isFinal v = false.
Proof.
  intros Hb v Hin. apply filter_In in Hin. destruct Hin as [Hin Hn].
  cbn [name_is] in Hn.
  assert (Hb' : blocked n (fst (setIn n x entries)) = false)
    by now rewrite setIn_names_blocked.
  unfold blocked in Hb'.
  destruct (isFinal v) eqn:F; [|reflexivity].
  assert (existsb (fun v => String.eqb (name v) n && isFinal v)
                  (fst (setIn n x entries)) = true); [|congruence].
  apply existsb_exists. exists v. split; [exact Hin|]. now rewrite Hn, F.
Qed.

(** [setSymbol] and the lookups. Storing a number under a name that no
    final variable has succeeds, and [getVariable] then finds a variable
    that holds the number and is not final; the lookup of every other
    name, and every callable, is as before. Under a name that a final
    variable has it throws [Cannot modify]. The same holds of expressions
    and [getCallable]. A lookup of a name that is not stored throws. *)
Theorem setSymbol_then_lookup :
  (forall n x st,
      blocked n (variables st) = false ->
      let st' := snd (setSymbol n (NumberValue x) st) in
      fst (setSymbol n (NumberValue x) st) = Ok tt
      /\ (exists v, getVariable (NameText n) st' = (Ok v, st')
                    /\ asNumber v = x /\ name v = n /\ isFinal v = false)
      /\ (forall m, m <> n ->
            fst (getVariable (NameText m) st') = fst (getVariable (NameText m) st))
      /\ callables st' = callables st)
  /\ (forall n e st,
        blocked n (callables st) = false ->
        let st' := snd (setSymbol n (ExpressionValue e) st) in
        fst (setSymbol n (ExpressionValue e) st) = Ok tt
        /\ (exists c, getCallable n st' = (Ok c, st')
                      /\ asExpression c = e /\ name c = n /\ isFinal c = false)
        /\ (forall m, m <> n ->
              fst (getCallable m st') = fst (getCallable m st))
        /\ variables st' = variables st)
  /\ (forall n x st,
        blocked n (variables st) = true ->
        fst (setSymbol n (NumberValue x) st) = Throw (CannotModify n))
  /\ (forall n e st,
        blocked n (callables st) = true ->
        fst (setSymbol n (ExpressionValue e) st) = Throw (CannotModify n))
  /\ (forall n st,
        stored n (variables st) = false ->
        getVariable (NameText n) st = (Throw (NotStoredVariable (NameText n)), st))
  /\ (forall n st,
        stored n (callables st) = false ->
        getCallable n st = (Throw (NotStoredFunction n), st)).
Proof.
  assert (Hfound : forall (A : Type) n (x : A) entries,
             blocked n entries = false ->
             exists v rest,
               filter (name_is (NameText n)) (fst (setIn n x entries)) = v :: rest
               /\ value v = x /\ name v = n /\ isFinal v = false).
  { intros A n x entries Hb.
    assert (He : snd (setIn n x entries) = None) by now rewrite setIn_error, Hb.
    destruct (setIn_first n x entries He) as (v & rest & Hf & Hv).
    exists v, rest. split; [exact Hf|]. split; [exact Hv|].
    assert (Hin : In v (filter (name_is (NameText n)) (fst (setIn n x entries))))
      by (rewrite Hf; now left).
    split; [|exact (setIn_not_final n x entries Hb v Hin)].
    apply filter_In in Hin. destruct Hin as [_ Hn]. now apply String.eqb_eq in Hn. }
  split; [|split; [|split; [|split; [|split]]]].
  - intros n x st Hb st'. subst st'. rewrite setSymbol_number, setIn_error, Hb.
    cbn [fst snd]. split; [reflexivity|].
    destruct (Hfound _ n x (variables st) Hb) as (v & rest & Hf & Hv & Hn & Hfin).
    split; [|split; [|reflexivity]].
    + exists v. unfold getVariable. cbn [variables]. rewrite Hf. auto.
    + intros m Hm. apply getVariable_agree. cbn [variables].
      now apply setIn_other_name.
  - intros n e st Hb st'. subst st'. rewrite setSymbol_expression, setIn_error, Hb.
    cbn [fst snd]. split; [reflexivity|].
    destruct (Hfound _ n e (callables st) Hb) as (c & rest & Hf & Hv & Hn & Hfin).
    split; [|split; [|reflexivity]].
    + exists c. unfold getCallable. cbn [callables]. rewrite Hf. auto.
    + intros m Hm. apply getCallable_agree. cbn [callables].
      now apply setIn_other_name.
  - intros n x st Hb. now rewrite setSymbol_number, setIn_error, Hb.
  - intros n e st Hb. now rewrite setSymbol_expression, setIn_error, Hb.
  - intros n st Hs. rewrite filter_stored in Hs. unfold getVariable.
    now destruct (filter (name_is (NameText n)) (variables st)).
  - intros n st Hs. rewrite filter_stored in Hs. unfold getCallable.
    now destruct (filter (name_is (NameText n)) (callables st)).
Qed.

End SymbolRoundTrip.

(** ** The argument slot *)

Section ArgumentSlot.

Context {host : Host}.
Import JSString JSNumber SymbolsTableOps ComputeEngine.

Lemma getCallable_callables (f : string) (st st' : SymbolsTable) :
  callables st' = callables st -> fst (getCallable f st') = fst (getCallable f st).
Proof. intros H. apply getCallable_agree. now rewrite H. Qed.

Lemma bind_out_of_fuel {A B : Type} (m : M A) (k : A -> M B) (st : SymbolsTable) :
  fst (m st) = OutOfFuel -> fst (bind m k st) = OutOfFuel.
Proof.
  unfold bind. destruct (m st) as [[a | e | ] st1]; cbn [fst]; intros H;
    try discriminate H. reflexivity.
Qed.

Lemma getCallable_pair (f : string) (st : SymbolsTable) :
  getCallable f st = (fst (getCallable f st), st).
Proof.
  rewrite <- (getCallable_state f st) at 3. now destruct (getCallable f st).
Qed.

(** A function call leaves its argument in [x]: when the body of the
    callable makes no call of its own, the table after the call has the
    value of the argument under [x], whatever [x] held before. A caller
    that reads [x] after calling another function reads that function's
    argument: after [f(x)=x] and [g(x)=f(1)+(x)], [g(5)] is 1 + 1. *)
Theorem function_call_overwrites_x :
  (forall fuel f a st v st1 c,
      eval fuel a st = (Ok v, st1) ->
      blocked "x" (variables st1) = false ->
      fst (getCallable f st1) = Ok c ->
      calls_function (asExpression c) = false ->
      let st' := snd (eval (S fuel) (FunctionCallExpression f a) st) in
      exists entry,
        getVariable (NameText "x") st' = (Ok entry, st') /\ asNumber entry = v)
  /\ (forall fuel, (8 <= fuel)%nat ->
        let st1 := snd (run fuel "f(x)=x" getDefaultSymbolsTable) in
        let st2 := snd (run fuel "g(x)=f(1)+(x)" st1) in
        fst (run fuel "g(5)" st2) = Ok 2%float).
Proof.
  split.
  - intros fuel f a st v st1 c Ha Hx Hc Hpure st'. subst st'.
    cbn [eval]. unfold bind. rewrite Ha.
    rewrite setSymbol_number, setIn_error, Hx.
    set (st2 := mkSymbolsTable (fst (setIn "x" v (variables st1))) (callables st1)).
    assert (Hc2 : getCallable f st2 = (Ok c, st2)).
    { rewrite getCallable_pair. f_equal. rewrite <- Hc.
      now apply getCallable_callables. }
    rewrite Hc2. rewrite (eval_pure fuel _ st2 Hpure).
    assert (He : snd (setIn "x" v (variables st1)) = None)
      by now rewrite setIn_error, Hx.
    destruct (setIn_first "x" v (variables st1) He) as (entry & rest & Hf & Hv).
    exists entry. unfold getVariable. cbn [st2 variables]. now rewrite Hf.
  - intros fuel Hf. cbv zeta.
    enough_fuel 8%nat "f(x)=x".
    set (st1 := snd (run 8 "f(x)=x" getDefaultSymbolsTable)).
    rewrite (run_enough 8 "g(x)=f(1)+(x)")
      by (try assumption; vm_compute; discriminate).
    set (st2 := snd (run 8 "g(x)=f(1)+(x)" st1)).
    rewrite (run_enough 8 "g(5)") by (try assumption; vm_compute; discriminate).
    vm_compute. reflexivity.
Qed.

(** A callable whose body calls the callable itself never returns a value:
    where the body of [f] is the expression of [f(x)], a call of [f] ends
    in no value at any depth budget, and on a constant argument, with [x]
    not final, it exhausts every budget (in JavaScript, the call stack
    overflows). Such a callable can be stored: a function that exists can
    be defined again in terms of itself. *)
Theorem self_call_never_returns :
  (forall f st c,
      fst (getCallable f st) = Ok c ->
      asExpression c
      = BinaryExpression "+"
          (FunctionCallExpression f (VariableExpression (NameText "x")))
          (ConstantExpression 0%float) ->
      (forall fuel a v, fst (eval fuel (FunctionCallExpression f a) st) <> Ok v)
      /\ (blocked "x" (variables st) = false ->
          forall fuel v,
            fst (eval fuel (FunctionCallExpression f (ConstantExpression v)) st)
            = OutOfFuel))
  /\ (let st1 := snd (run 2 "f(x)=x" getDefaultSymbolsTable) in
      let (r, st2) := run 2 "f(x)=f(x)" st1 in
      r = Ok 0%float
      /\ forall fuel, fst (run fuel "f(1)" st2) = OutOfFuel).
Proof.
  assert (Hloop : forall f c,
             asExpression c
             = BinaryExpression "+"
                 (FunctionCallExpression f (VariableExpression (NameText "x")))
                 (ConstantExpression 0%float) ->
             forall fuel st a v,
               fst (getCallable f st) = Ok c ->
               fst (eval fuel (FunctionCallExpression f a) st) <> Ok v).
  { intros f c Hbody. induction fuel as [|fuel IH]; intros st a v Hc;
      [discriminate|].
    cbn [eval]. unfold bind.
    destruct (eval fuel a st) as [[av | e | ] st1] eqn:Ea; try discriminate.
    destruct (eval_preserves _ _ _ _ _ Ea) as [C1 _].
    rewrite setSymbol_number.
    destruct (snd (setIn "x" av (variables st1))); [discriminate|].
    set (st2 := mkSymbolsTable (fst (setIn "x" av (variables st1))) (callables st1)).
    assert (Hc2 : fst (getCallable f st2) = Ok c).
    { rewrite <- Hc. apply getCallable_callables. cbn. exact C1. }
    rewrite getCallable_pair, Hc2, Hbody.
    destruct fuel as [|k]; [discriminate|].
    cbn [eval]. unfold bind.
    destruct (eval k (FunctionCallExpression f (VariableExpression (NameText "x"))) st2)
      as [[r | e | ] st3] eqn:Ek; try discriminate.
    exfalso.
    assert (Hm := eval_mono k _ _ _ _ Ek ltac:(discriminate) (S k) ltac:(lia)).
    apply (IH st2 (VariableExpression (NameText "x")) r Hc2). now rewrite Hm. }
  assert (Hstep : forall f c,
             asExpression c
             = BinaryExpression "+"
                 (FunctionCallExpression f (VariableExpression (NameText "x")))
                 (ConstantExpression 0%float) ->
             forall fuel,
               (forall k st, (k < fuel)%nat ->
                  fst (getCallable f st) = Ok c ->
                  blocked "x" (variables st) = false ->
                  stored "x" (variables st) = true ->
                  fst (eval k (FunctionCallExpression f
                                 (VariableExpression (NameText "x"))) st)
                  = OutOfFuel) ->
               forall st1 av,
                 fst (getCallable f st1) = Ok c ->
                 blocked "x" (variables st1) = false ->
                 fst ((setSymbol "x" (NumberValue av) ;;;
                       callable <- getCallable f ;;
                       eval fuel (asExpression callable))%engine st1)
                 = OutOfFuel).
  { intros f c Hbody fuel IH st1 av Hc Hx. unfold bind.
    rewrite setSymbol_number, setIn_error, Hx.
    set (st2 := mkSymbolsTable (fst (setIn "x" av (variables st1))) (callables st1)).
    assert (Hc2 : fst (getCallable f st2) = Ok c)
      by (rewrite <- Hc; now apply getCallable_callables).
    rewrite getCallable_pair, Hc2, Hbody.
    destruct fuel as [|k]; [reflexivity|]. cbn [eval]. unfold bind.
    assert (Hx2 : blocked "x" (variables st2) = false)
      by (cbn [st2 variables]; now rewrite setIn_names_blocked).
    assert (Hs2 : stored "x" (variables st2) = true).
    { rewrite filter_stored. cbn [st2 variables].
      assert (He : snd (setIn "x" av (variables st1)) = None)
        by now rewrite setIn_error, Hx.
      destruct (setIn_first "x" av (variables st1) He) as (en & rest & Hf & _).
      now rewrite Hf. }
    pose proof (IH k st2 ltac:(lia) Hc2 Hx2 Hs2) as Hk.
    destruct (eval k (FunctionCallExpression f (VariableExpression (NameText "x"))) st2)
      as [[r | e | ] st3]; cbn [fst] in Hk; try discriminate. reflexivity. }
  assert (Hvar : forall f c,
             asExpression c
             = BinaryExpression "+"
                 (FunctionCallExpression f (VariableExpression (NameText "x")))
                 (ConstantExpression 0%float) ->
             forall fuel st,
               fst (getCallable f st) = Ok c ->
               blocked "x" (variables st) = false ->
               stored "x" (variables st) = true ->
               fst (eval fuel (FunctionCallExpression f
                                 (VariableExpression (NameText "x"))) st)
               = OutOfFuel).
  { intros f c Hbody fuel. induction fuel as [fuel IH] using lt_wf_ind.
    intros st Hc Hx Hs. destruct fuel as [|fuel]; [reflexivity|].
    cbn [eval]. unfold bind at 1.
    destruct fuel as [|k]; [reflexivity|]. cbn [eval]. unfold bind at 1.
    rewrite filter_stored in Hs. unfold getVariable.
    destruct (filter (name_is (NameText "x")) (variables st)) as [|en rest];
      [discriminate|]. unfold ret.
    apply (Hstep f c Hbody (S k));
      [intros k0 st0 Hk; apply IH; lia | assumption | assumption]. }
  assert (Hconst : forall f c,
             asExpression c
             = BinaryExpression "+"
                 (FunctionCallExpression f (VariableExpression (NameText "x")))
                 (ConstantExpression 0%float) ->
             forall st,
               fst (getCallable f st) = Ok c ->
               blocked "x" (variables st) = false ->
               forall fuel v,
                 fst (eval fuel (FunctionCallExpression f (ConstantExpression v)) st)
                 = OutOfFuel).
  { intros f c Hbody st Hc Hx fuel v. destruct fuel as [|fuel]; [reflexivity|].
    cbn [eval]. unfold bind at 1.
    destruct fuel as [|k]; [reflexivity|]. cbn [eval]. unfold ret.
    apply (Hstep f c Hbody (S k));
      [intros k0 st0 _; now apply Hvar | assumption | assumption]. }
  split.
  - intros f st c Hc Hbody. split.
    + intros fuel a v. exact (Hloop f c Hbody fuel st a v Hc).
    + intros Hx fuel v. now apply (Hconst f c Hbody).
  - cbv zeta.
    set (st1 := snd (run 2 "f(x)=x" getDefaultSymbolsTable)).
    destruct (run 2 "f(x)=f(x)" st1) as [r st2] eqn:E.
    assert (Hr : r = Ok 0%float)
      by (apply (f_equal fst) in E; vm_compute in E; congruence).
    assert (Hs : st2 = snd (run 2 "f(x)=f(x)" st1)) by now rewrite E.
    split; [exact Hr|]. intros fuel.
    assert (Hc : exists c, fst (getCallable "f" st2) = Ok c
                           /\ asExpression c
                              = BinaryExpression "+"
                                  (FunctionCallExpression "f"
                                     (VariableExpression (NameText "x")))
                                  (ConstantExpression 0%float)).
    { rewrite Hs. eexists. split; vm_compute; reflexivity. }
    destruct Hc as (c & Hc & Hbody).
    assert (Hx : blocked "x" (variables st2) = false)
      by (rewrite Hs; vm_compute; reflexivity).
    assert (Hp : parseText "f(1)" st2
                 = (Ok (BinaryExpression "+"
                          (FunctionCallExpression "f" (ConstantExpression 1%float))
                          (ConstantExpression 0%float)), st2)).
    { unfold parseText. f_equal. rewrite Hs. vm_compute. reflexivity. }
    rewrite run_plain_roll;
      [|reflexivity|rewrite Hs; vm_compute; reflexivity..].
    unfold evalString, bind at 1. rewrite Hp.
    destruct fuel as [|k]; [reflexivity|]. cbn [eval].
    apply bind_out_of_fuel.
    exact (Hconst "f" c Hbody st2 Hc Hx k 1%float).
Qed.

End ArgumentSlot.

(** ** The bracket of a function call *)

Section ParserReadsForward.
Import Parser.

Lemma same_from_later (i j : nat) (ts ts' : list Token) :
  same_from i ts ts' -> (i <= j)%nat -> same_from j ts ts'.
Proof.
  intros [Hl Hn] Hij. split; [exact Hl|]. intros k Hk. apply Hn. lia.
Qed.

Lemma same_from_skipn (i : nat) (ts ts' : list Token) :
  same_from i ts ts' -> skipn i ts = skipn i ts'.
Proof.
  intros [Hl Hn]. apply nth_error_ext. intros n.
  rewrite !nth_error_skipn. apply Hn. lia.
Qed.

Lemma same_from_nextOperator (i j : nat) (ts ts' : list Token) :
  same_from i ts ts' -> (i <= j)%nat -> _nextOperator j ts = _nextOperator j ts'.
Proof.
  intros H Hij. unfold _nextOperator.
  now rewrite (same_from_skipn j ts ts' (same_from_later _ _ _ _ H Hij)).
Qed.

Ltac same_call IH H :=
  match goal with
  | |- bindR (parse ?f ?j ?ts) _ = bindR (parse ?f ?j ?ts') _ =>
      rewrite (proj1 (IH j ts ts' (same_from_later _ j _ _ H ltac:(lia))));
      destruct (parse f j ts') as [[| |?]| |] eqn:?; cbn [bindR deref]
  | |- bindR (bindR (parse ?f ?j ?ts) _) _ = bindR (bindR (parse ?f ?j ?ts') _) _ =>
      rewrite (proj1 (IH j ts ts' (same_from_later _ j _ _ H ltac:(lia))));
      destruct (parse f j ts') as [[| |?]| |] eqn:?; cbn [bindR deref]
  | |- bindR (nextAsRightOperand ?f ?j ?ts) _
       = bindR (nextAsRightOperand ?f ?j ?ts') _ =>
      rewrite (proj1 (proj2 (proj2
                 (IH j ts ts' (same_from_later _ j _ _ H ltac:(lia))))));
      destruct (nextAsRightOperand f j ts') eqn:?; cbn [bindR]
  | |- bindR (parseBrackets ?f ?j ?ts) _ = bindR (parseBrackets ?f ?j ?ts') _ =>
      rewrite (proj1 (proj2 (proj2 (proj2
                 (IH j ts ts' (same_from_later _ j _ _ H ltac:(lia)))))));
      destruct (parseBrackets f j ts') eqn:?; cbn [bindR]
  | |- bindR (parseFunctionCall ?f ?j ?ts) _
       = bindR (parseFunctionCall ?f ?j ?ts') _ =>
      rewrite (proj2 (proj2 (proj2 (proj2
                 (IH j ts ts' (same_from_later _ j _ _ H ltac:(lia)))))));
      destruct (parseFunctionCall f j ts') eqn:?; cbn [bindR]
  end.

Ltac progress_of :=
  repeat match goal with
    | E : parse ?f ?j ?t = Ok (Obj ?r) |- _ =>
        generalize (proj1 (parser_progresses f j t) r E); clear E; intro
    | E : nextAsRightOperand ?f ?j ?t = Ok ?r |- _ =>
        generalize (proj1 (proj2 (proj2 (parser_progresses f j t))) r E);
        clear E; intro
    | E : parseBrackets ?f ?j ?t = Ok ?r |- _ =>
        generalize (proj1 (proj2 (proj2 (proj2 (parser_progresses f j t)))) r E);
        clear E; intro
    | E : parseFunctionCall ?f ?j ?t = Ok ?r |- _ =>
        generalize (proj2 (proj2 (proj2 (proj2 (parser_progresses f j t)))) r E);
        clear E; intro
    end.

Ltac same_rest IH H :=
  try reflexivity;
  try match goal with
    | |- continueParsing ?f ?l ?j ?ts = continueParsing ?f ?l ?j ?ts' =>
        progress_of;
        apply (proj1 (proj2 (IH j ts ts' (same_from_later _ j _ _ H ltac:(lia)))))
    | |- parseBrackets ?f ?j ?ts = parseBrackets ?f ?j ?ts' =>
        apply (proj1 (proj2 (proj2 (proj2
                 (IH j ts ts' (same_from_later _ j _ _ H ltac:(lia)))))))
    | |- parseFunctionCall ?f ?j ?ts = parseFunctionCall ?f ?j ?ts' =>
        apply (proj2 (proj2 (proj2 (proj2
                 (IH j ts ts' (same_from_later _ j _ _ H ltac:(lia)))))))
    end.

Lemma parser_reads_forward : forall fuel, reads_forward fuel.
Proof.
  induction fuel as [|fuel IH]; intros i ts ts' H.
  - repeat split.
  - pose proof (proj2 H i (Nat.le_refl i)) as Hi.
    pose proof (proj1 H) as Hlen.
    split; [|split; [|split; [|split]]].
    + cbn [parse]. rewrite Hi. destruct (nth_error ts' i) as [t|]; [|reflexivity].
      repeat match goal with
        | |- (if ?b then _ else _) = (if ?b then _ else _) => destruct b
        end; try same_call IH H; same_rest IH H.
    + intros l. cbn [continueParsing]. rewrite Hi.
      destruct (nth_error ts' i) as [t|]; [|reflexivity].
      unfold buildUnaryExpression.
      rewrite (same_from_nextOperator i (i + 1) ts ts' H ltac:(lia)).
      repeat match goal with
        | |- (if ?b then _ else _) = (if ?b then _ else _) => destruct b
        end; cbn [bindR]; try reflexivity; same_rest IH H.
      destruct (_nextOperator (i + 1) ts') as [nx|];
        [destruct (hasHigherPrecedenceThan t nx)|];
        same_call IH H; same_rest IH H.
    + cbn [nextAsRightOperand]. rewrite Hi.
      destruct (nth_error ts' i) as [t|]; [|reflexivity].
      repeat match goal with
        | |- (if ?b then _ else _) = (if ?b then _ else _) => destruct b
        end; try same_call IH H; same_rest IH H.
    + cbn [parseBrackets]. same_call IH H; same_rest IH H.
      progress_of.
      match goal with
      | |- context [nth_error ts (nextStartIndex ?p)] =>
          rewrite (proj2 H (nextStartIndex p) ltac:(lia))
      end. reflexivity.
    + cbn [parseFunctionCall]. rewrite Hlen, Hi.
      destruct (List.length ts' <=? i + 3)%nat; [reflexivity|].
      same_call IH H; same_rest IH H.
Qed.

End ParserReadsForward.

Section BracketOfACall.

Context {host : Host}.
Import JSString Parser SymbolsTableOps ComputeEngine.

(** The token after a function name is never looked at: [parseFunctionCall]
    counts the tokens and hands the index after the name to
    [parseBrackets], which starts parsing one token further on. Whatever
    stands where the opening bracket should, the call is parsed as if the
    bracket stood there: after [f(x)=x], [f+2)] is f(2). *)
Theorem bracket_of_a_call_is_not_checked :
  (forall fuel i ts ts',
      List.length ts = List.length ts' ->
      (forall k, k <> (i + 1)%nat -> nth_error ts k = nth_error ts' k) ->
      parseFunctionCall fuel i ts = parseFunctionCall fuel i ts')
  /\ (forall fuel, (6 <= fuel)%nat ->
        let st1 := snd (run fuel "f(x)=x" getDefaultSymbolsTable) in
        fst (run fuel "f+2)" st1) = Ok 2%float
        /\ fst (run fuel "f(2)" st1) = Ok 2%float).
Proof.
  split.
  - intros fuel i ts ts' Hlen Hn.
    destruct fuel as [|fuel]; [reflexivity|]. cbn [parseFunctionCall].
    rewrite Hlen, (Hn i ltac:(lia)).
    destruct (List.length ts' <=? i + 3)%nat; [reflexivity|].
    destruct fuel as [|fuel]; [reflexivity|]. cbn [parseBrackets].
    assert (Hs : same_from (i + 1 + 1) ts ts')
      by (split; [exact Hlen|]; intros k Hk; apply Hn; lia).
    rewrite (proj1 (parser_reads_forward fuel _ ts ts' Hs)).
    destruct (parse fuel (i + 1 + 1) ts') as [[| |r]| |] eqn:E; try reflexivity.
    cbn [bindR].
    pose proof (proj1 (parser_progresses fuel _ ts' ) r E) as Hp.
    rewrite (Hn (nextStartIndex r) ltac:(lia)). reflexivity.
  - intros fuel Hf. cbv zeta.
    enough_fuel 6%nat "f(x)=x".
    set (st1 := snd (run 6 "f(x)=x" getDefaultSymbolsTable)).
    rewrite (run_enough 6 "f+2)") by (try assumption; vm_compute; discriminate).
    rewrite (run_enough 6 "f(2)") by (try assumption; vm_compute; discriminate).
    split; vm_compute; reflexivity.
Qed.

End BracketOfACall.

(** ** The simplest queries *)

Section Atoms.

Context {host : Host}.
Import JSString JSNumber Tokeniser SymbolsTableOps ComputeEngine.

Lemma contains_append (c : ascii) (a b : string) :
  contains c (a ++ b) = contains c a || contains c b.
Proof.
  induction a as [|d a IH]; simpl; [reflexivity|]. now rewrite IH, orb_assoc.
Qed.

Lemma contains_all (c : ascii) (p : ascii -> bool) (s : string) :
  p c = false -> all p s = true -> contains c s = false.
Proof.
  intros Hc. induction s as [|d s IH]; simpl; [reflexivity|].
  intros H. apply andb_prop in H. destruct H as [Hd Hs].
  rewrite (IH Hs), orb_false_r.
  destruct (Ascii.eqb c d) eqn:E; [|reflexivity].
  apply Ascii.eqb_eq in E. subst d. congruence.
Qed.

Lemma replace_first_self (s : string) : replace_first s s = EmptyString.
Proof.
  assert (Hp : String.prefix s s = true).
  { induction s as [|c s IH]; simpl; [reflexivity|].
    destruct (ascii_dec c c); [exact IH|congruence]. }
  assert (Hs : forall t n, (String.length t <= n)%nat -> substring n 0 t = EmptyString).
  { induction t as [|c t IH]; intros n Hn; destruct n; simpl in *;
      try reflexivity; try lia. apply IH. lia. }
  destruct s as [|c s]; [reflexivity|]. cbn [replace_first]. rewrite Hp.
  rewrite Nat.sub_diag. apply Hs. lia.
Qed.

(** A text that a matcher matches whole is one token. *)
Lemma tokenise_single (s : string) (ty : TokenType) (fns : list string) :
  first_match _getMatchers s = Some (s, ty) ->
  tokenise s fns = Ok [make_token s ty fns].
Proof.
  intros H. destruct (first_match_sound s s ty H) as [_ Hl].
  unfold tokenise. cbn [tokenise_loop]. unfold _nextMatchingToken at 1.
  rewrite H, make_token_text, replace_first_self.
  destruct (String.length s) as [|k]; [lia|]. reflexivity.
Qed.

Lemma number_is_matched (s : string) :
  is_number s = true ->
  first_match _getMatchers s = Some (s, UnsignedNumber)
  /\ contains "=" s = false.
Proof.
  unfold is_number. intros H.
  pose proof (span_append is_digit s) as Ha.
  pose proof (span_fst_all is_digit s) as Hd.
  assert (Hm : match_number s = Some s /\ contains "=" s = false).
  { unfold match_number.
    destruct (span is_digit s) as [ip rest]. cbn [fst snd] in *.
    apply andb_prop in H. destruct H as [Hip Hrest].
    destruct ip as [|c ip]; [discriminate|].
    assert (Hci : contains "=" (String c ip) = false)
      by (apply (contains_all _ is_digit); [reflexivity|exact Hd]).
    destruct rest as [|d r].
    - rewrite append_empty in Ha. subst s. auto.
    - apply andb_prop in Hrest. destruct Hrest as [Hrest Hr].
      apply andb_prop in Hrest. destruct Hrest as [Hdot Hne].
      rewrite Hdot. rewrite (span_all _ _ Hr). cbn [fst].
      apply Ascii.eqb_eq in Hdot. subst d.
      destruct r as [|f fp]; [discriminate|]. split.
      + f_equal. exact Ha.
      + rewrite <- Ha, contains_append, Hci.
        change (contains "=" (String "." (String f fp)))
          with (false || contains "=" (String f fp)).
        cbn [orb].
        apply (contains_all _ is_digit); [reflexivity|exact Hr]. }
  destruct Hm as [Hm Hc]. split; [|exact Hc].
  unfold _getMatchers. cbn [first_match]. now rewrite Hm.
Qed.

Lemma name_is_matched (n : string) :
  is_name n = true ->
  first_match _getMatchers n = Some (n, Identifier)
  /\ contains "=" n = false.
Proof.
  unfold is_name. intros H. apply andb_prop in H. destruct H as [Hne Hl].
  split; [|apply (contains_all _ is_lower); [reflexivity|exact Hl]].
  unfold _getMatchers. cbn [first_match].
  assert (Hn : match_number n = None).
  { unfold match_number. destruct n as [|c n]; [discriminate|].
    cbn [all] in Hl. apply andb_prop in Hl. destruct Hl as [Hc _].
    cbn [span]. destruct (is_digit c) eqn:Ed; [|reflexivity].
    exfalso. unfold is_digit, is_lower in *.
    apply andb_prop in Ed. apply andb_prop in Hc.
    destruct Ed as [_ E2]. destruct Hc as [C1 _].
    apply Nat.leb_le in E2, C1. lia. }
  rewrite Hn. unfold match_lower. rewrite (span_all _ _ Hl). cbn [fst].
  now destruct n.
Qed.

(** The simplest queries, on every table an engine can hold: a number
    literal is its value (the binary64 nearest to the decimal, plus the 0
    the parser adds), and a name that is not a callable's is the number
    stored under it, or the error of the lookup. *)
Theorem literal_and_variable_queries (st : SymbolsTable) :
  reachable st ->
  (forall s fuel,
      is_number s = true ->
      fst (run (S (S fuel)) s st) = Ok (parseFloat s + 0)%float)
  /\ (forall n fuel,
        is_name n = true ->
        ~ In n (map name (callables st)) ->
        fst (run (S (S fuel)) n st)
        = match fst (getVariable (NameText n) st) with
          | Ok v => Ok (asNumber v + 0)%float
          | Throw e => Throw e
          | OutOfFuel => OutOfFuel
          end).
Proof.
  intros Hr.
  destruct (reachable_defaults st Hr) as (_ & _ & Hb & _ & Ha & _).
  split.
  - intros s fuel Hs. destruct (number_is_matched s Hs) as [Hm Hc].
    rewrite run_plain_roll; auto; try now rewrite Hb.
    unfold evalString, bind, parseText.
    rewrite (tokenise_single s UnsignedNumber _ Hm). reflexivity.
  - intros n fuel Hn Hnot. destruct (name_is_matched n Hn) as [Hm Hc].
    rewrite run_plain_roll; auto; try now rewrite Hb.
    unfold evalString, bind, parseText.
    rewrite (tokenise_single n Identifier _ Hm).
    assert (Hf : _isAFunction n (map name (callables st)) = false).
    { unfold _isAFunction. destruct (existsb (String.eqb n) (map name (callables st)))
        eqn:E; [|reflexivity].
      apply existsb_exists in E. destruct E as (m & Hin & E).
      apply String.eqb_eq in E. subst m. contradiction. }
    unfold make_token. cbn [_isIdentifier TokenType_eqb]. rewrite Hf.
    cbn [andb bindR]. cbn -[getVariable].
    unfold bind, getVariable, ret, lift.
    destruct (filter (name_is (NameText n)) (variables st)); reflexivity.
Qed.

End Atoms.

(** ** The first version of the tokeniser *)

Section FirstVersionProperties.
Import JSString.

Lemma first_version_types (input txt ty : string) :
  FirstVersion.first_match FirstVersion._getMatchers input = Some (txt, ty) ->
  In ty ["unsignedNumber"; "identifier"; "openingBracket"; "closingBracket";
         "opAdd"; "opSub"; "opMul"; "opDiv"; "opFact"; "opPow"].
Proof.
  unfold FirstVersion._getMatchers. cbn [FirstVersion.first_match].
  repeat match goal with
    | |- context [match ?m input with _ => _ end] =>
        destruct (m input); [inversion 1; subst; cbn; tauto|]
    end.
  discriminate.
Qed.

Lemma first_version_token (txt ty : string) (fns : list string) :
  In ty ["unsignedNumber"; "identifier"; "openingBracket"; "closingBracket";
         "opAdd"; "opSub"; "opMul"; "opDiv"; "opFact"; "opPow"] ->
  let t := FirstVersion.make_token txt ty fns in
  FirstVersion.isOperator t = false
  /\ (FirstVersion._isOperator (FirstVersion.type t) = true ->
      FirstVersion.precedence t
      = FirstVersion.Map_get FirstVersion.OperatorPrecedence (FirstVersion.type t) 0%Z
      /\ (0 < FirstVersion.precedence t)%Z)
  /\ (FirstVersion._isOperator (FirstVersion.type t) = false ->
      FirstVersion.precedence t = 0%Z).
Proof.
  intros Hin t. subst t. unfold FirstVersion.make_token.
  cbn in Hin.
  repeat (destruct Hin as [<-|Hin]; [|]); try contradiction;
    try (destruct (FirstVersion._isAFunction txt fns));
    cbn; (split; [reflexivity|]; split; intros H;
          first [discriminate H | split; reflexivity | reflexivity]).
Qed.

(** In the first version of the module [Token.isOperator] answers [false]
    for every token the tokeniser makes, operators included: it looks the
    token's type up among the names of the properties of
    [OperatorTokenTypes] (["OperatorAdd"], ...), whereas a token's type is
    one of their values (["opAdd"], ...). [_isOperator] of the tokeniser,
    which searches the values, tells the operators, and they have their
    precedence. The tokens of the text the module tokenises when it is
    loaded, [vec(5) * 6!], are an example. *)
Theorem first_version_isOperator_is_false :
  (forall input fns tokens,
      FirstVersion.tokenise input fns = Ok tokens ->
      forall t, In t tokens ->
        FirstVersion.isOperator t = false
        /\ (FirstVersion._isOperator (FirstVersion.type t) = true ->
            FirstVersion.precedence t
            = FirstVersion.Map_get FirstVersion.OperatorPrecedence
                                   (FirstVersion.type t) 0%Z
            /\ (0 < FirstVersion.precedence t)%Z)
        /\ (FirstVersion._isOperator (FirstVersion.type t) = false ->
            FirstVersion.precedence t = 0%Z))
  /\ FirstVersion.tokenise "vec(5) * 6!" []
     = Ok [FirstVersion.mkToken "vec" "identifier" 0;
           FirstVersion.mkToken "(" "openingBracket" 0;
           FirstVersion.mkToken "5" "unsignedNumber" 0;
           FirstVersion.mkToken ")" "closingBracket" 0;
           FirstVersion.mkToken "*" "opMul" 70;
           FirstVersion.mkToken "6" "unsignedNumber" 0;
           FirstVersion.mkToken "!" "opFact" 100]
  /\ FirstVersion.isOperator (FirstVersion.mkToken "*" "opMul" 70) = false
  /\ FirstVersion._isOperator "opMul" = true.
Proof.
  split; [|repeat split; reflexivity].
  intros input fns tokens. unfold FirstVersion.tokenise.
  assert (Hloop : forall fuel inp out,
             FirstVersion.tokenise_loop fuel inp fns out = Ok tokens ->
             (forall t, In t out ->
                exists txt ty,
                  t = FirstVersion.make_token txt ty fns
                  /\ In ty ["unsignedNumber"; "identifier"; "openingBracket";
                            "closingBracket"; "opAdd"; "opSub"; "opMul"; "opDiv";
                            "opFact"; "opPow"]) ->
             forall t, In t tokens ->
                exists txt ty,
                  t = FirstVersion.make_token txt ty fns
                  /\ In ty ["unsignedNumber"; "identifier"; "openingBracket";
                            "closingBracket"; "opAdd"; "opSub"; "opMul"; "opDiv";
                            "opFact"; "opPow"]).
  { induction fuel as [|fuel IH]; intros inp out H Hout; [discriminate|].
    cbn [FirstVersion.tokenise_loop] in H.
    unfold FirstVersion._nextMatchingToken in H.
    destruct (FirstVersion.first_match FirstVersion._getMatchers inp)
      as [[txt ty]|] eqn:E.
    - apply (IH _ _ H). intros t [<-|Ht]; [|now apply Hout].
      exists txt, ty. split; [reflexivity|]. exact (first_version_types _ _ _ E).
    - destruct (0 <? String.length inp)%nat; [discriminate|].
      inversion H. subst. intros t Ht. apply Hout. now apply in_rev. }
  intros H t Ht.
  destruct (Hloop _ _ _ H (fun t (F : In t []) => match F with end) t Ht)
    as (txt & ty & -> & Hty).
  exact (first_version_token txt ty fns Hty).
Qed.

End FirstVersionProperties.

(** * Concrete runs *)

(** The engine below runs on [nan_host]; no input here reaches a function
    of the host. *)

Section Concrete.

Import JSString JSNumber SymbolsTableOps ComputeEngine.

(** C1, as stated, fails: [2^3^2] is 512 on a fresh engine, not 64. *)
Lemma C1_power_chain_is_not_64 :
  fst (@run nan_host 5 "2^3^2" getDefaultSymbolsTable) = Ok 512%float
  /\ fst (@run nan_host 5 "2^3^2" getDefaultSymbolsTable) <> Ok 64%float.
Proof.
  split; [vm_compute; reflexivity|].
  intros H.
  apply (f_equal (fun r => match r with
                           | Ok v => PrimFloat.eqb v 64
                           | _ => true
                           end)) in H.
  vm_compute in H. discriminate.
Qed.

Lemma C1_precedence_witness :
  (5 <= 5)%nat
  /\ fst (@run nan_host 5 "2+3*4" getDefaultSymbolsTable) = Ok 14%float.
Proof.
  split; [apply le_n|].
  destruct (@C1_precedence_examples nan_host 5 (le_n 5)) as [H _]. exact H.
Defined.

(** C2, as stated, fails: on [x=1=2] the right part the code evaluates is
    [1], the run returns 0 and [x] holds 1, where the text after the first
    [=], [1=2], does not tokenise. *)
Lemma C2_second_equals_is_dropped :
  fst (@run nan_host 2 "x=1=2" getDefaultSymbolsTable) = Ok 0%float
  /\ fst (getVariable (NameText "x")
            (snd (@run nan_host 2 "x=1=2" getDefaultSymbolsTable)))
     = Ok (mkVariable "x" 1%float false)
  /\ trim (after "=" "x=1=2") = "1=2"
  /\ fst (@_handleAssignment nan_host 2 (trim (before "=" "x=1=2"))
            (trim (after "=" "x=1=2")) getDefaultSymbolsTable)
     = Throw UnknownTokens.
Proof. vm_compute. repeat split; reflexivity. Qed.

Lemma C2_assignment_witness :
  contains "=" "x=5" = true
  /\ is_name (trim (before "=" "x=5")) = true
  /\ @run nan_host 2 "x=5" getDefaultSymbolsTable
     = bind (@evalString nan_host 2 "5")
            (fun v => bind (setSymbol "x" (NumberValue v)) (fun _ => ret 0%float))
            getDefaultSymbolsTable.
Proof.
  split; [reflexivity|]. split; [reflexivity|].
  destruct (@C2_assignment_forms nan_host 2 "x=5" getDefaultSymbolsTable eq_refl)
    as (_ & Hvar & _).
  destruct (Hvar eq_refl) as [Heq _]. exact Heq.
Defined.

(** C3, as stated, fails: the plain query [ans+1] is 1 on a fresh engine
    and 2 when it is run again. *)
Lemma C3_ans_query_differs :
  contains "=" "ans+1" = false
  /\ fst (@run nan_host 3 "ans+1" getDefaultSymbolsTable) = Ok 1%float
  /\ fst (@run nan_host 3 "ans+1"
            (snd (@run nan_host 3 "ans+1" getDefaultSymbolsTable)))
     = Ok 2%float.
Proof. vm_compute. repeat split; reflexivity. Qed.

(** A query that calls a function can differ too, although it mentions
    neither [ans] nor [preans]: with [x=5] and [f(x)=x] in the table,
    [x+f(1)] is 6 and then 2, the call having left 1 in [x]. *)
Lemma repeat_query_with_call_differs :
  let st := snd (@run nan_host 1 "f(x)=x"
                   (snd (@run nan_host 2 "x=5" getDefaultSymbolsTable))) in
  fst (@run nan_host 8 "x+f(1)" st) = Ok 6%float
  /\ fst (@run nan_host 8 "x+f(1)" (snd (@run nan_host 8 "x+f(1)" st))) = Ok 2%float.
Proof. vm_compute. split; reflexivity. Qed.

Lemma C3_repeat_witness :
  fst (@run nan_host 5 "2+3*4"
         (snd (@run nan_host 5 "2+3*4" getDefaultSymbolsTable)))
  = fst (@run nan_host 5 "2+3*4" getDefaultSymbolsTable).
Proof.
  eapply (@C3_repeat_query nan_host 5 "2+3*4" getDefaultSymbolsTable).
  - reflexivity.
  - vm_compute. reflexivity.
  - reflexivity.
  - reflexivity.
  - reflexivity.
Defined.

Lemma C4_history_witness :
  exists old_ans new_preans new_ans,
    getVariable (NameText "ans") getDefaultSymbolsTable
    = (Ok old_ans, getDefaultSymbolsTable)
    /\ getVariable (NameText "preans")
         (snd (@run nan_host 3 "3+3" getDefaultSymbolsTable))
       = (Ok new_preans, snd (@run nan_host 3 "3+3" getDefaultSymbolsTable))
    /\ asNumber new_preans = asNumber old_ans
    /\ getVariable (NameText "ans")
         (snd (@run nan_host 3 "3+3" getDefaultSymbolsTable))
       = (Ok new_ans, snd (@run nan_host 3 "3+3" getDefaultSymbolsTable))
    /\ asNumber new_ans = 6%float.
Proof.
  apply (proj1 (@C4_history_roll nan_host) 3%nat "3+3").
  - reflexivity.
  - vm_compute. reflexivity.
Defined.

Lemma C5_round_trip_witness :
  (6 <= 6)%nat
  /\ (let (r, st1) := @run nan_host 6 "x=5" getDefaultSymbolsTable in
      r = Ok 0%float /\ fst (@run nan_host 6 "x" st1) = Ok 5%float).
Proof.
  split; [apply le_n|].
  destruct (@C5_assignment_round_trip nan_host 6 (le_n 6)) as [H _]. exact H.
Defined.

Lemma C6_division_witness :
  @eval nan_host 2
        (BinaryExpression "/" (ConstantExpression 1) (ConstantExpression 0))
        getDefaultSymbolsTable
  = (Throw CannotDivideByZero, getDefaultSymbolsTable).
Proof.
  exact (proj1 (@C6_division_guard nan_host) 1%nat (ConstantExpression 1)
               (ConstantExpression 0) getDefaultSymbolsTable
               1%float getDefaultSymbolsTable 0%float getDefaultSymbolsTable
               eq_refl eq_refl).
Defined.

(** C7, as stated, fails: once [f(x)=x] is defined, the assignment
    [pi=f(2)] throws "Cannot modify pi" and yet leaves [x], which was not
    stored before, stored with the value 2. *)
Lemma C7_failed_assignment_writes_x :
  fst (@run nan_host 4 "pi=f(2)"
         (snd (@run nan_host 1 "f(x)=x" getDefaultSymbolsTable)))
  = Throw (CannotModify "pi")
  /\ fst (getVariable (NameText "x")
            (snd (@run nan_host 1 "f(x)=x" getDefaultSymbolsTable)))
     = Throw (NotStoredVariable (NameText "x"))
  /\ fst (getVariable (NameText "x")
            (snd (@run nan_host 4 "pi=f(2)"
                    (snd (@run nan_host 1 "f(x)=x" getDefaultSymbolsTable)))))
     = Ok (mkVariable "x" 2%float false).
Proof. vm_compute. repeat split; reflexivity. Qed.

Lemma C7_failed_assignment_witness :
  well_formed getDefaultSymbolsTable = true
  /\ callables (snd (@run nan_host 2 "pi=3" getDefaultSymbolsTable))
     = callables getDefaultSymbolsTable
  /\ others_than "x" (variables (snd (@run nan_host 2 "pi=3" getDefaultSymbolsTable)))
     = others_than "x" (variables getDefaultSymbolsTable).
Proof.
  split; [reflexivity|].
  apply (proj2 (proj2 (proj2 (@C7_failed_assignment nan_host))) 2%nat "pi=3"
               getDefaultSymbolsTable
               (fst (@run nan_host 2 "pi=3" getDefaultSymbolsTable))).
  - reflexivity.
  - reflexivity.
  - vm_compute. reflexivity.
  - intros v. vm_compute. discriminate.
Defined.

Lemma C8_factorial_witness :
  (8 <= 8)%nat
  /\ fst (@run nan_host 8 "(-3)!" getDefaultSymbolsTable) = Ok (-1)%float.
Proof.
  split; [apply le_n|].
  destruct (@C8_factorial_examples nan_host 8 (le_n 8)) as (_ & _ & H). exact H.
Defined.

(** C9, as stated, fails: no operand makes the recursion go on below
    zero, so none sends it toward negative infinity; from the non-integer
    2.5 it returns -1.875 after four calls. *)
Lemma C9_no_descent_below_zero :
  is_integer 2.5 = false
  /\ factorialise 4 2.5 = Ok (-1.875)%float
  /\ factorialise_calls 4 2.5 = [2.5; 1.5; 0.5; -0.5]%float
  /\ ~ (exists v, is_integer v = false
                  /\ (forall fuel, factorialise fuel v = OutOfFuel)
                  /\ recurses_below_zero v).
Proof.
  repeat match goal with |- _ /\ _ => split end;
    try (vm_compute; reflexivity).
  intros (v & _ & _ & H). exact (no_recursion_below_zero v H).
Qed.

Lemma C9_factorial_witness :
  PrimFloat.ltb (-3) 0 = true
  /\ factorialise 1 (-3) = Ok (-1)%float.
Proof.
  split; [reflexivity|].
  exact (proj1 (proj1 C9_factorial_of_non_integers 0%nat (-3)%float eq_refl)).
Defined.

Lemma C10_empty_right_part_witness :
  contains "=" "a=" = true
  /\ trim (before "=" (after "=" "a=")) = ""
  /\ @run nan_host 0 "a=" getDefaultSymbolsTable
     = (Throw (TypeError JSnull), getDefaultSymbolsTable).
Proof.
  split; [reflexivity|]. split; [reflexivity|].
  apply (proj1 (proj2 (proj2 (proj2 (@C10_empty_input_dereferences_null nan_host))))
               0%nat "a=" getDefaultSymbolsTable).
  - reflexivity.
  - reflexivity.
  - left. reflexivity.
Defined.

Lemma right_operand_witness :
  (3 <= 3)%nat
  /\ fst (@run nan_host 3 "2*ans" getDefaultSymbolsTable)
     = Throw (NotStoredVariable (NameToken (mkToken "ans" Identifier 0%Z unary))).
Proof.
  split; [apply le_n|].
  destruct (proj2 (proj2 (@right_operand_variable_is_not_found nan_host)) 3%nat
                  (le_n 3)) as [_ H].
  exact H.
Defined.

Lemma reachable_witness :
  well_formed (snd (@run nan_host 2 "x=5" getDefaultSymbolsTable)) = true.
Proof.
  apply (@reachable_well_formed nan_host).
  apply reachable_run. apply reachable_default.
Defined.

Lemma tokenise_keeps_the_text_witness :
  Tokeniser.tokenise "2 + 3 " []
  = Ok [mkToken "2" UnsignedNumber 0 unary; mkToken "+" OperatorAdd 60 binary;
        mkToken "3" UnsignedNumber 0 unary]
  /\ texts [mkToken "2" UnsignedNumber 0 unary; mkToken "+" OperatorAdd 60 binary;
            mkToken "3" UnsignedNumber 0 unary]
     = without_spaces "2 + 3 ".
Proof.
  split; [reflexivity|].
  exact (tokenise_keeps_the_text "2 + 3 " [] _ eq_refl).
Defined.

Lemma tokenise_tokens_are_consistent_witness :
  Tokeniser.tokenise "sin(x)" ["sin"]
  = Ok [mkToken "sin" OperatorFunctionCall 110 unary;
        mkToken "(" PuncOpeningBracket 0 unary;
        mkToken "x" Identifier 0 unary;
        mkToken ")" PuncClosingBracket 0 unary]
  /\ is_name "x" = true
  /\ ~ In "x" ["sin"].
Proof.
  split; [reflexivity|].
  exact (proj1 (tokenise_tokens_are_consistent "sin(x)" ["sin"] _ eq_refl
                  (mkToken "x" Identifier 0 unary)
                  (or_intror (or_intror (or_introl eq_refl))))
               eq_refl).
Defined.

Lemma leading_white_space_witness :
  is_space " " = true
  /\ Tokeniser.tokenise " 2" [] = Throw UnknownTokens.
Proof.
  split; [reflexivity|].
  exact (proj1 (@leading_white_space_is_unknown nan_host) " "%char "2" [] eq_refl).
Defined.

Lemma no_unknown_operator_witness :
  fst (parseText "2*3" getDefaultSymbolsTable)
  = Ok (BinaryExpression "+"
          (BinaryExpression "*" (ConstantExpression 2) (ConstantExpression 3))
          (ConstantExpression 0))
  /\ operators_known
       (BinaryExpression "+"
          (BinaryExpression "*" (ConstantExpression 2) (ConstantExpression 3))
          (ConstantExpression 0)) = true.
Proof.
  assert (H : fst (parseText "2*3" getDefaultSymbolsTable)
              = Ok (BinaryExpression "+"
                      (BinaryExpression "*" (ConstantExpression 2) (ConstantExpression 3))
                      (ConstantExpression 0)))
    by (vm_compute; reflexivity).
  split; [exact H|].
  exact (proj1 (proj2 (@no_unknown_operator nan_host)) "2*3" getDefaultSymbolsTable _ H).
Defined.


Lemma final_entries_witness :
  getVariable (NameText "pi") (snd (@run nan_host 2 "x=5" getDefaultSymbolsTable))
  = (Ok (mkVariable "pi" Math_PI true),
     snd (@run nan_host 2 "x=5" getDefaultSymbolsTable)).
Proof.
  exact (proj1 (proj2 (proj2
           (proj2 (@final_entries_are_kept nan_host)
                  (snd (@run nan_host 2 "x=5" getDefaultSymbolsTable))
                  (reachable_run 2 "x=5" _ reachable_default))))).
Defined.

Lemma plain_query_witness :
  contains "=" "2+3" = false
  /\ fst (@run nan_host 3 "2+3" (snd (@run nan_host 2 "x=5" getDefaultSymbolsTable)))
     = fst (@evalString nan_host 3 "2+3"
              (snd (@run nan_host 2 "x=5" getDefaultSymbolsTable))).
Proof.
  split; [reflexivity|].
  exact (@plain_query_returns_its_value nan_host
           (snd (@run nan_host 2 "x=5" getDefaultSymbolsTable))
           (reachable_run 2 "x=5" _ reachable_default) 3%nat "2+3" eq_refl).
Defined.

Lemma run_frame_witness :
  contains "=" "a=5" = true
  /\ funcRegExp (trim (before "=" "a=5")) = false
  /\ callables (snd (@run nan_host 2 "a=5" getDefaultSymbolsTable))
     = callables getDefaultSymbolsTable.
Proof.
  split; [reflexivity|]. split; [reflexivity|].
  exact (proj1 (proj1 (proj2 (@run_frame nan_host 2 "a=5" getDefaultSymbolsTable))
                      eq_refl eq_refl)).
Defined.

Lemma assignment_to_a_final_name_witness :
  contains "=" "e=1" = true
  /\ is_name (trim (before "=" "e=1")) = true
  /\ blocked (trim (before "=" "e=1")) (variables getDefaultSymbolsTable) = true
  /\ fst (@run nan_host 2 "e=1" getDefaultSymbolsTable) = Throw (CannotModify "e").
Proof.
  split; [reflexivity|]. split; [reflexivity|]. split; [reflexivity|].
  exact (proj1 (@assignment_to_a_final_name nan_host) 2%nat "e=1"
               getDefaultSymbolsTable eq_refl eq_refl eq_refl).
Defined.


Lemma parse_stops_witness :
  Parser.parse 5 0 [mkToken "2" UnsignedNumber 0 unary;
                    mkToken ")" PuncClosingBracket 0 unary]
  = Ok (Obj (mkParsingResult (ConstantExpression 2) 1))
  /\ exists t,
       nth_error [mkToken "2" UnsignedNumber 0 unary;
                  mkToken ")" PuncClosingBracket 0 unary] 1 = Some t
       /\ isClosingBracket t = true.
Proof.
  assert (H : Parser.parse 5 0 [mkToken "2" UnsignedNumber 0 unary;
                                mkToken ")" PuncClosingBracket 0 unary]
              = Ok (Obj (mkParsingResult (ConstantExpression 2) 1)))
    by (vm_compute; reflexivity).
  split; [exact H|].
  exact (proj2 (proj1 (@parse_stops_at_a_closing_bracket nan_host) 5%nat 0%nat _ _ H)
               (le_n 2)).
Defined.

Lemma flat_expressions_witness :
  let two := mkToken "2" UnsignedNumber 0 unary in
  let three := mkToken "3" UnsignedNumber 0 unary in
  let four := mkToken "4" UnsignedNumber 0 unary in
  let minus := mkToken "-" OperatorSubtract 50 binary in
  Parser.parse 18 0 [two; minus; three; minus; four]
  = Ok (Obj (mkParsingResult
               (BinaryExpression "+"
                  (BinaryExpression "-" (ConstantExpression 2)
                     (BinaryExpression "+"
                        (BinaryExpression "-" (ConstantExpression 3)
                                              (ConstantExpression 4))
                        (ConstantExpression 0)))
                  (ConstantExpression 0))
               5)).
Proof.
  exact (proj1 (@flat_expressions_group nan_host) []
               (mkToken "2" UnsignedNumber 0 unary)
               [(mkToken "-" OperatorSubtract 50 binary,
                 mkToken "3" UnsignedNumber 0 unary);
                (mkToken "-" OperatorSubtract 50 binary,
                 mkToken "4" UnsignedNumber 0 unary)]
               eq_refl eq_refl eq_refl).
Defined.

Lemma function_call_after_an_operand_witness :
  Parser.continueParsing 1 (ConstantExpression 2) 1
    [mkToken "2" UnsignedNumber 0 unary;
     mkToken "sin" OperatorFunctionCall 110 unary]
  = Ok Undefined.
Proof.
  exact (proj1 (@function_call_after_an_operand nan_host) 0%nat (ConstantExpression 2)
               1%nat
               [mkToken "2" UnsignedNumber 0 unary;
                mkToken "sin" OperatorFunctionCall 110 unary]
               (mkToken "sin" OperatorFunctionCall 110 unary)
               eq_refl eq_refl eq_refl).
Defined.

Lemma factorial_of_small_integers_witness :
  (5 <= 22)%nat
  /\ factorialise 6 5 = Ok 120%float.
Proof.
  assert (H : (5 <= 22)%nat) by (repeat constructor).
  split; [exact H|].
  exact (proj1 (factorial_of_small_integers 5 H)).
Defined.

Lemma setSymbol_then_lookup_witness :
  blocked "a" (variables getDefaultSymbolsTable) = false
  /\ fst (setSymbol "a" (NumberValue 1) getDefaultSymbolsTable) = Ok tt.
Proof.
  split; [reflexivity|].
  exact (proj1 (proj1 setSymbol_then_lookup "a" 1%float getDefaultSymbolsTable eq_refl)).
Defined.


Lemma operator_before_a_function_call_witness :
  (8 <= 8)%nat
  /\ fst (@run nan_host 8 "2*f(0)+1"
            (snd (@run nan_host 8 "f(x)=x" getDefaultSymbolsTable)))
     = Ok 2%float.
Proof.
  split; [apply le_n|].
  exact (proj1 (proj2 (@operator_before_a_function_call nan_host) 8%nat (le_n 8))).
Defined.

Lemma function_call_overwrites_x_witness :
  (8 <= 8)%nat
  /\ fst (@run nan_host 8 "g(5)"
            (snd (@run nan_host 8 "g(x)=f(1)+(x)"
                    (snd (@run nan_host 8 "f(x)=x" getDefaultSymbolsTable)))))
     = Ok 2%float.
Proof.
  split; [apply le_n|].
  exact (proj2 (@function_call_overwrites_x nan_host) 8%nat (le_n 8)).
Defined.

Lemma self_call_witness :
  let st2 := snd (@run nan_host 2 "f(x)=f(x)"
                    (snd (@run nan_host 2 "f(x)=x" getDefaultSymbolsTable))) in
  blocked "x" (variables st2) = false
  /\ fst (@eval nan_host 3 (FunctionCallExpression "f" (ConstantExpression 1)) st2)
     = OutOfFuel.
Proof.
  cbv zeta. split; [vm_compute; reflexivity|].
  refine (proj2 (proj1 (@self_call_never_returns nan_host) "f" _
                       (mkVariable "f"
                          (BinaryExpression "+"
                             (FunctionCallExpression "f"
                                (VariableExpression (NameText "x")))
                             (ConstantExpression 0))
                          false)
                       _ eq_refl) _ 3%nat 1%float);
    vm_compute; reflexivity.
Defined.

Lemma bracket_of_a_call_witness :
  let f := mkToken "f" OperatorFunctionCall 110 unary in
  let two := mkToken "2" UnsignedNumber 0 unary in
  let closing := mkToken ")" PuncClosingBracket 0 unary in
  Parser.parseFunctionCall 3 0 [f; mkToken "+" OperatorAdd 60 binary; two; closing]
  = Parser.parseFunctionCall 3 0
      [f; mkToken "(" PuncOpeningBracket 0 unary; two; closing].
Proof.
  refine (proj1 (@bracket_of_a_call_is_not_checked nan_host) 3%nat 0%nat _ _ eq_refl _).
  intros k Hk. destruct k as [|[|k]]; [reflexivity| |reflexivity].
  exfalso. apply Hk. reflexivity.
Defined.

Lemma first_version_witness :
  FirstVersion.tokenise "2+3" []
  = Ok [FirstVersion.mkToken "2" "unsignedNumber" 0;
        FirstVersion.mkToken "+" "opAdd" 60;
        FirstVersion.mkToken "3" "unsignedNumber" 0]
  /\ FirstVersion.isOperator (FirstVersion.mkToken "+" "opAdd" 60) = false.
Proof.
  split; [reflexivity|].
  exact (proj1 (proj1 first_version_isOperator_is_false "2+3" [] _ eq_refl
                      (FirstVersion.mkToken "+" "opAdd" 60)
                      (or_intror (or_introl eq_refl)))).
Defined.

Lemma literal_query_witness :
  is_number "12.5" = true
  /\ fst (@run nan_host 2 "12.5" getDefaultSymbolsTable) = Ok 12.5%float.
Proof.
  split; [reflexivity|].
  exact (proj1 (@literal_and_variable_queries nan_host getDefaultSymbolsTable
                  reachable_default) "12.5" 0%nat eq_refl).
Defined.

End Concrete.
